(** * Battery model: diffusion update, driver-potential solver, cycling program

    A shallow embedding of [battery/diffusion_battery.py],
    [battery/tester_program.py] and [battery/config.py].

    Numbers.  Python floats are idealised as real numbers ([R]); [==] on
    floats is equality of reals, decided by [Req_dec_T].  Integer counters
    (timesteps) are [Z]; the cathode width, a number of grid points, is [nat].

    Arrays.  A numpy array that is shared or written in place (the charge
    curve, its working copies) lives in a store of arrays and is named by a
    reference; [copy] allocates, [y[0] = v] writes the store.  Arrays that
    are built and consumed inside one expression are plain lists.

    Dtypes.  An array is an int64 array or a float64 array.  numpy truncates
    a float that is written into an int64 array, and the repository builds
    int64 curves (the default curve of [Charge.get_init_vals], the curve of
    the test); every result of [np.convolve] with the kernel is a float64
    array.  The entries of an int64 array are idealised as unbounded integers
    ([Z]), as those of a float64 array are as reals: overflow beyond 2^63 is
    left out, as rounding is.

    Not a number.  With [cathode_width = 0] the program divides by
    [sigma = 0] and its kernel is NaN, which is no real number.  What is
    proved about the values of an update is stated for widths of at least 1.

    Exceptions.  A computation returns a value or raises; what was written
    before the exception stays written. *)

From Stdlib Require Import Reals Lra Lia ZArith List String.
From stdpp Require Import base list.

Open Scope R_scope.

(** ** Exceptions, outcomes and the state monad *)

(** [UnrecognizedTestStep s] is [Exception("Unrecognized Test Step 's'")].
    [DanglingReference] is no exception of Python: it is the outcome of a read
    through a reference that names no array of the store, which no reference
    obtained from the store is. *)
Inductive exn : Type :=
| IndexError
| ValueError
| ZeroDivisionError
| AssertionError
| UnrecognizedTestStep (step : string)
| DanglingReference.

Inductive outcome (A : Type) : Type :=
| Return (a : A)
| Raise (e : exn).

Arguments Return {A} a.
Arguments Raise {A} e.

Definition M (S A : Type) : Type := S -> outcome A * S.

Definition ret {S A : Type} (a : A) : M S A := fun s => (Return a, s).

Definition raise {S A : Type} (e : exn) : M S A := fun s => (Raise e, s).

Definition bind {S A B : Type} (m : M S A) (k : A -> M S B) : M S B :=
  fun s =>
    match m s with
    | (Return a, s') => k a s'
    | (Raise e, s') => (Raise e, s')
    end.

Declare Scope monad_scope.
Delimit Scope monad_scope with monad.

Notation "x <- c ;; k" := (bind c (fun x => k))
  (at level 100, c at next level, right associativity) : monad_scope.
Notation "c ;;; k" := (bind c (fun _ => k))
  (at level 100, right associativity) : monad_scope.

Open Scope monad_scope.

Definition lift_outcome {S A : Type} (o : outcome A) : M S A := fun s => (o, s).

(** ** The store of numpy arrays *)

Definition loc : Type := nat.

Inductive ndarray : Type :=
| Int64Array (zs : list Z)
| Float64Array (xs : list R).

(** The entries of an array, as numbers. *)
Definition data (a : ndarray) : list R :=
  match a with
  | Int64Array zs => map IZR zs
  | Float64Array xs => xs
  end.

(** Ceiling of a real, from [up] ([up x] is the integer with
    [x < up x <= x + 1]). *)
Definition Rceil (x : R) : Z := (1 - up (- x))%Z.

(** Truncation toward zero, the conversion of a float to an integer: the
    floor of a number that is not negative, the ceiling of a negative one. *)
Definition Rtrunc (v : R) : Z :=
  if Rle_dec 0 v then (up v - 1)%Z else Rceil v.

(** [a[i] = v] on an array value: an int64 array takes [v] truncated. *)
Definition write (a : ndarray) (i : nat) (v : R) : ndarray :=
  match a with
  | Int64Array zs => Int64Array (<[i := Rtrunc v]> zs)
  | Float64Array xs => Float64Array (<[i := v]> xs)
  end.

(** The number that an entry of [a] holds after [v] was written to it. *)
Definition stored (a : ndarray) (v : R) : R :=
  match a with
  | Int64Array _ => IZR (Rtrunc v)
  | Float64Array _ => v
  end.

(** [store] holds the arrays; [evals] counts the calls of
    [compute_charge_curve] made so far (instrumentation, read by no code). *)
Record World : Type := mkWorld {
  store : list ndarray;
  evals : nat
}.

(** The entries of every array of the store. *)
Definition arrays (w : World) : list (list R) := map data (store w).

(** What the array behind [l] holds after [v] was written to one of its
    entries: [v] itself in a float64 array, [v] truncated in an int64 one. *)
Definition stored_in (w : World) (l : loc) (v : R) : R :=
  match store w !! l with
  | Some a => stored a v
  | None => v
  end.

Definition alloc (w : World) (a : ndarray) : World :=
  {| store := store w ++ [a]; evals := evals w |}.

(** A fresh float64 array with the entries [xs]. *)
Definition np_array (xs : list R) : M World loc :=
  fun w => (Return (length (arrays w)), alloc w (Float64Array xs)).

(** Read of the whole array behind a reference. *)
Definition contents (a : loc) : M World (list R) :=
  fun w =>
    match arrays w !! a with
    | Some xs => (Return xs, w)
    | None => (Raise DanglingReference, w)
    end.

(** [a.copy()]: a fresh array of the same dtype. *)
Definition np_copy (a : loc) : M World loc :=
  fun w =>
    match store w !! a with
    | Some arr => (Return (length (arrays w)), alloc w arr)
    | None => (Raise DanglingReference, w)
    end.

(** [a[i]] for a non-negative index. *)
Definition getitem (a : loc) (i : nat) : M World R :=
  xs <- contents a ;;
  match xs !! i with
  | Some x => ret x
  | None => raise IndexError
  end.

(** [a[i] = v] for a non-negative index: numpy raises IndexError out of
    range, and converts [v] to the dtype of the array. *)
Definition setitem (a : loc) (i : nat) (v : R) : M World unit :=
  fun w =>
    match store w !! a with
    | Some arr =>
        if (i <? length (data arr))%nat
        then (Return tt, {| store := <[a := write arr i v]> (store w); evals := evals w |})
        else (Raise IndexError, w)
    | None => (Raise DanglingReference, w)
    end.

Definition count_evaluation : M World unit :=
  fun w => (Return tt, {| store := store w; evals := S (evals w) |}).

(** ** numpy functions on array values *)

Definition np_sum (xs : list R) : R := fold_right Rplus 0 xs.

(** [np.arange(start, stop, step)]: [ceil((stop - start) / step)] samples
    [start + i * step]. *)
Definition np_arange (start stop step : R) : list R :=
  map (fun i => start + INR i * step)
      (seq 0 (Z.to_nat (Rceil ((stop - start) / step)))).

(** Entry [k] of the full discrete convolution: [sum_j a[j] * v[k - j]]. *)
Definition convolve_at (a v : list R) (k : nat) : R :=
  np_sum (map (fun j => if (j <=? k)%nat then nth j a 0 * nth (k - j) v 0 else 0)
              (seq 0 (length a))).

(** [np.convolve(a, v, mode="same")]: the operands are swapped when [v] is
    the longer one, an empty operand is a ValueError, and the result is the
    centred part of the full convolution, as long as the longer operand. *)
Definition np_convolve_same (a v : list R) : outcome (list R) :=
  let '(a, v) := if (length a <? length v)%nat then (v, a) else (a, v) in
  if (length a =? 0)%nat then Raise ValueError
  else if (length v =? 0)%nat then Raise ValueError
  else Return (map (fun i => convolve_at a v (i + (length v - 1) / 2))
                   (seq 0 (length a))).

(** Python's normalisation of a slice bound: a negative bound counts from
    the end, and the bound is clamped to [0, len]. *)
Definition slice_bound (len : nat) (i : Z) : nat :=
  Z.to_nat (Z.min (Z.of_nat len) (Z.max 0 (if (i <? 0)%Z then i + Z.of_nat len else i))).

(** [a[start:stop]] *)
Definition py_slice {A : Type} (a : list A) (start stop : Z) : list A :=
  let s := slice_bound (length a) start in
  let e := slice_bound (length a) stop in
  take (e - s) (drop s a).

(** ** DiffusionBattery *)

Record DiffusionBattery : Type := mkBattery {
  soc : R;
  ocp : R;
  charge_curve : loc;
  cathode_width : nat
}.

Definition compute_charge_curve (self : DiffusionBattery) (drive_pot : R)
    (charge_curve : loc) : M World loc :=
  count_evaluation ;;;
  y <- np_copy charge_curve ;;
  setitem y 0 drive_pot ;;;
  let sigma := INR (cathode_width self) / 10 in
  let dx := 1 in
  let width := 3 in
  let gx := np_arange (- width * sigma) (width * sigma + 1) dx in
  let gaussian :=
    map (fun x => exp (- (x ^ 2) / (2 * sigma ^ 2)) / sqrt (2 * PI * sigma ^ 2)) gx in
  let gaussian := map (fun g => g / np_sum gaussian) gaussian in
  let zeros := map (fun _ => 0) gaussian in
  y0 <- getitem y 0 ;;
  let prepend := map (fun _ => y0) gaussian in
  ys <- contents y ;;
  let base := zeros ++ prepend ++ ys ++ rev ys in
  let pad_len := (2 * length gaussian)%nat in
  convolution <- lift_outcome (np_convolve_same base gaussian) ;;
  new_charge_curve <-
    np_array (py_slice convolution (Z.of_nat pad_len) (- Z.of_nat (length ys))) ;;
  ret new_charge_curve.

Definition compute_current (self : DiffusionBattery) (drive_pot : R)
    (charge_curve : loc) : M World R :=
  new_curve <- compute_charge_curve self drive_pot charge_curve ;;
  new_vals <- contents new_curve ;;
  old_vals <- contents charge_curve ;;
  ret (np_sum new_vals - np_sum old_vals).

Definition compute_ocp (self : DiffusionBattery) (drive_pot : R)
    (charge_curve : loc) : M World R :=
  new_curve <- compute_charge_curve self drive_pot charge_curve ;;
  getitem new_curve 0.

(** *** Methods that write [self]

    The state is the object together with the store; a field written before
    an exception stays written. *)

Definition on_world {X A : Type} (m : M World A) : M (X * World) A :=
  fun s => let '(o, w') := m (snd s) in (o, (fst s, w')).

Definition get_self {X : Type} : M (X * World) X :=
  fun s => (Return (fst s), s).

Definition set_self {X : Type} (f : X -> X) : M (X * World) unit :=
  fun s => (Return tt, (f (fst s), snd s)).

Definition with_charge_curve (c : loc) (b : DiffusionBattery) : DiffusionBattery :=
  {| soc := soc b; ocp := ocp b; charge_curve := c; cathode_width := cathode_width b |}.

Definition with_ocp (v : R) (b : DiffusionBattery) : DiffusionBattery :=
  {| soc := soc b; ocp := v; charge_curve := charge_curve b;
     cathode_width := cathode_width b |}.

Definition with_soc (v : R) (b : DiffusionBattery) : DiffusionBattery :=
  {| soc := v; ocp := ocp b; charge_curve := charge_curve b;
     cathode_width := cathode_width b |}.

Definition apply_potential (potential : R) : M (DiffusionBattery * World) (R * R) :=
  self <- get_self ;;
  new_charge_curve <-
    on_world (compute_charge_curve self potential (charge_curve self)) ;;
  set_self (with_charge_curve new_charge_curve) ;;;
  v <- on_world (getitem new_charge_curve 1) ;;
  set_self (with_ocp v) ;;;
  self <- get_self ;;
  let prior_soc := soc self in
  vals <- on_world (contents (charge_curve self)) ;;
  set_self (with_soc (np_sum vals)) ;;;
  self <- get_self ;;
  let timestep_current := soc self - prior_soc in
  ret (ocp self, timestep_current).

(** *** The closures [calc_current] and [calc_ocp] *)

Definition get_calc_current (self : DiffusionBattery) (charge_curve : loc)
    : R -> M World R :=
  fun drive_pot =>
    new_charge_curve <- np_copy charge_curve ;;
    setitem new_charge_curve 0 drive_pot ;;;
    compute_current self drive_pot new_charge_curve.

Definition get_calc_ocp (self : DiffusionBattery) (charge_curve : loc)
    : R -> M World R :=
  fun drive_pot =>
    new_charge_curve <- np_copy charge_curve ;;
    setitem new_charge_curve 0 drive_pot ;;;
    compute_ocp self drive_pot new_charge_curve.

(** *** The solver *)

Definition get_slope_intercept (pt1 pt2 : R * R) : outcome (R * R) :=
  if Req_dec_T (fst pt1 - fst pt2) 0 then Raise ZeroDivisionError
  else
    let slope := (snd pt1 - snd pt2) / (fst pt1 - fst pt2) in
    let intercept := snd pt1 - slope * fst pt1 in
    Return (slope, intercept).

Definition py_assert {S : Type} {P Q : Prop} (test : {P} + {Q}) : M S unit :=
  if test then ret tt else raise AssertionError.

Definition guess_drive_pot
    (charge_curve : loc)
    (get_val_from_charge_curve : R -> loc -> M World R)
    (get_val_from_charge_curve_and_drive_pot : loc -> R -> M World R)
    (target_val : R) : M World R :=
  drive_pot <- getitem charge_curve 0 ;;
  actual_val <- get_val_from_charge_curve drive_pot charge_curve ;;
  if Req_dec_T actual_val target_val then ret drive_pot
  else
    let point1 := (actual_val, drive_pot) in
    paired <- get_val_from_charge_curve_and_drive_pot charge_curve drive_pot ;;
    py_assert (Req_dec_T actual_val paired) ;;;
    let guess_drive_pot := drive_pot + 1 in
    guess_charge_y <- np_copy charge_curve ;;
    setitem guess_charge_y 0 guess_drive_pot ;;;
    guess_val <- get_val_from_charge_curve guess_drive_pot guess_charge_y ;;
    let point2 := (guess_val, guess_drive_pot) in
    si <- lift_outcome (get_slope_intercept point1 point2) ;;
    let '(slope, intercept) := si in
    let guess_drive_pot_fin := slope * target_val + intercept in
    ret guess_drive_pot_fin.

Definition get_driver_for_target_current (self : DiffusionBattery)
    (target_influx : R) : M World R :=
  guess_drive_pot (charge_curve self) (compute_current self)
                  (get_calc_current self) target_influx.

Definition get_driver_for_target_ocp (self : DiffusionBattery)
    (target_ocp : R) : M World R :=
  guess_drive_pot (charge_curve self) (compute_ocp self)
                  (get_calc_ocp self) target_ocp.

(** ** config.py *)

Record Config : Type := mkConfig {
  CHARGE_CC : R;
  CHARGE_CV : R;
  DISCHARGE_CV : R;
  ZERO_CURRENT_THRESHOLD : R;
  REST_TIMESTEPS : Z;
  DPOT_INIT : R
}.

Definition config : Config :=
  {| CHARGE_CC := 15;
     CHARGE_CV := 4;
     DISCHARGE_CV := 0;
     ZERO_CURRENT_THRESHOLD := 1;
     REST_TIMESTEPS := 20;
     DPOT_INIT := 0 |}.

(** ** TesterProgram *)

Record TesterProgram : Type := mkProgram {
  charge_cv : R;
  driver : R;
  timestep : Z;
  timesteps_in_step : Z;
  step : string
}.

(** The class attributes: the state of a program that has not advanced yet. *)
Definition new_program (cfg : Config) : TesterProgram :=
  {| charge_cv := CHARGE_CV cfg;
     driver := DPOT_INIT cfg;
     timestep := 1;
     timesteps_in_step := 1;
     step := "CHARGE_CC" |}.

Definition with_step (s : string) (p : TesterProgram) : TesterProgram :=
  {| charge_cv := charge_cv p; driver := driver p; timestep := timestep p;
     timesteps_in_step := timesteps_in_step p; step := s |}.

Definition with_driver (d : R) (p : TesterProgram) : TesterProgram :=
  {| charge_cv := charge_cv p; driver := d; timestep := timestep p;
     timesteps_in_step := timesteps_in_step p; step := step p |}.

Definition increment (p : TesterProgram) : TesterProgram :=
  {| charge_cv := charge_cv p; driver := driver p; timestep := timestep p + 1;
     timesteps_in_step := timesteps_in_step p + 1; step := step p |}.

(** [self.driver = battery.get_driver_for_target_...(target)]: the driver is
    written when the solver returns, and the exception passes through when
    it raises. *)
Definition assign_driver (self : TesterProgram) (r : outcome R * World)
    : outcome unit * (TesterProgram * World) :=
  match r with
  | (Return d, w) => (Return tt, (with_driver d self, w))
  | (Raise e, w) => (Raise e, (self, w))
  end.

(** [advance] calls itself after a change of step.  [depth] bounds the nesting
    of calls: [None] says that [depth] nested calls were not enough. *)
Fixpoint advance (cfg : Config) (depth : nat) (battery : DiffusionBattery)
    (current : R) (increment_timesteps : bool) (st : TesterProgram * World)
    : option (outcome unit * (TesterProgram * World)) :=
  match depth with
  | O => None
  | S depth =>
    let '(self, w) := st in
    let step := step self in
    let timesteps_in_step := timesteps_in_step self in
    let self := if increment_timesteps then increment self else self in
    let pot := ocp battery in
    if (step =? "CHARGE_CC")%string then
      if Rge_dec pot (CHARGE_CV cfg) then
        advance cfg depth battery current false (with_step "CHARGE_CV" self, w)
      else
        let target_current := CHARGE_CC cfg in
        Some (assign_driver self (get_driver_for_target_current battery target_current w))
    else if (step =? "CHARGE_CV")%string then
      if Rlt_dec current (ZERO_CURRENT_THRESHOLD cfg) then
        advance cfg depth battery current false (with_step "REST" self, w)
      else
        let target_pot := CHARGE_CV cfg in
        Some (assign_driver self (get_driver_for_target_ocp battery target_pot w))
    else if (step =? "REST")%string then
      if (REST_TIMESTEPS cfg <? timesteps_in_step)%Z then
        advance cfg depth battery current false (with_step "DISCHARGE_CC" self, w)
      else
        let target_current := 0 in
        Some (assign_driver self (get_driver_for_target_current battery target_current w))
    else if (step =? "DISCHARGE_CC")%string then
      if Rle_dec pot (DISCHARGE_CV cfg) then
        advance cfg depth battery current false (with_step "DISCHARGE_CV" self, w)
      else
        let target_current := - CHARGE_CC cfg in
        Some (assign_driver self (get_driver_for_target_current battery target_current w))
    else if (step =? "DISCHARGE_CV")%string then
      if Rgt_dec current (- ZERO_CURRENT_THRESHOLD cfg) then
        advance cfg depth battery current false (with_step "CHARGE_CC" self, w)
      else
        let target_pot := DISCHARGE_CV cfg in
        Some (assign_driver self (get_driver_for_target_ocp battery target_pot w))
    else
      Some (Raise (UnrecognizedTestStep step), (self, w))
  end.

(** [self] after the increment of the counters, when the call makes one. *)
Definition entered (increment_timesteps : bool) (self : TesterProgram) : TesterProgram :=
  if increment_timesteps then increment self else self.

(** ** The update in the specification's words

    The pieces of [compute_charge_curve] under the names the specification
    gives them: the sample points and the smoothing kernel of a cathode width,
    the same-length convolution, and [update] on array values. *)

Definition sample_points (W : nat) : list R :=
  let sigma := INR W / 10 in
  let dx := 1 in
  let width := 3 in
  np_arange (- width * sigma) (width * sigma + 1) dx.

Definition gaussian_density (sigma x : R) : R :=
  exp (- (x ^ 2) / (2 * sigma ^ 2)) / sqrt (2 * PI * sigma ^ 2).

Definition smoothing_kernel (W : nat) : list R :=
  let gaussian := map (gaussian_density (INR W / 10)) (sample_points W) in
  map (fun g => g / np_sum gaussian) gaussian.

Definition same_length_convolution (a v : list R) : list R :=
  map (fun i => convolve_at a v (i + (length v - 1) / 2)) (seq 0 (length a)).

(** Clamp index 0 of a working copy; concatenate a zero run, a run of the
    driving potential (both as long as the kernel), the working curve and its
    mirror image; convolve; drop the first [2 * kernelSize] samples and the
    last [N]. *)
Definition spec_update (W : nat) (drivingPotential : R) (curve : list R) : list R :=
  let y := <[0%nat := drivingPotential]> curve in
  let kernel := smoothing_kernel W in
  let kernelSize := length kernel in
  let extended :=
    replicate kernelSize 0 ++ replicate kernelSize drivingPotential ++ y ++ rev y in
  let convolved := same_length_convolution extended kernel in
  drop (2 * kernelSize) (take (length convolved - length curve) convolved).

(** What [compute_ocp] and [compute_current] observe, on array values. *)
Definition observed_ocp (W : nat) (drive_pot : R) (curve : list R) : R :=
  nth 0 (spec_update W drive_pot curve) 0.

Definition observed_current (W : nat) (drive_pot : R) (curve : list R) : R :=
  np_sum (spec_update W drive_pot curve) - np_sum curve.

(** The store after one call of [compute_charge_curve] on the array [a]: the
    working copy, of the dtype of [a], and the new curve, a float64 array,
    are allocated, and one evaluation is counted. *)
Definition after_update (self : DiffusionBattery) (p : R) (a : ndarray) (w : World)
    : World :=
  {| store := store w
              ++ [write a 0 p;
                  Float64Array (spec_update (cathode_width self) (stored a p) (data a))];
     evals := S (evals w) |}.

(** ** Observers of the solver

    [guess_drive_pot] is handed two callbacks.  [observes cost get_val f] says
    that [get_val] computes the function [f] of the driving potential and of
    the array it is given, keeps every array of the store as it is, and calls
    [compute_charge_curve] [cost] times; [observes_paired] says the same of
    the closure, which observes the curve with index 0 set to the driving
    potential.  Both are asked of the driving potentials that the array
    holds as they are ([storable]): the solver passes no other. *)

Definition extends (w w' : World) : Prop := store w `prefix_of` store w'.

(** [v] is held as it is by the array [a]: any number when [a] is a float64
    array, an integer when it is an int64 array. *)
Definition storable (a : ndarray) (v : R) : Prop := stored a v = v.

Definition observes (cost : nat) (get_val : R -> loc -> M World R)
    (f : R -> list R -> R) : Prop :=
  forall (p : R) (l : loc) (w : World) (a : ndarray),
    store w !! l = Some a -> data a <> [] -> storable a p ->
    exists w', get_val p l w = (Return (f p (data a)), w')
               /\ extends w w' /\ evals w' = (evals w + cost)%nat.

Definition observes_paired (cost : nat) (get_val_dp : loc -> R -> M World R)
    (f : R -> list R -> R) : Prop :=
  forall (p : R) (l : loc) (w : World) (a : ndarray),
    store w !! l = Some a -> data a <> [] -> storable a p ->
    exists w', get_val_dp l p w = (Return (f p (<[0%nat := p]> (data a))), w')
               /\ extends w w' /\ evals w' = (evals w + cost)%nat.

(** The stub observers of the specification's tests: [f(p) = a * p + b],
    whatever the curve (a constant observer is the case [a = 0]). *)
Definition linear_observe (a b : R) : R -> loc -> M World R :=
  fun drive_pot _ => ret (a * drive_pot + b).

Definition linear_observe_paired (a b : R) : loc -> R -> M World R :=
  fun _ drive_pot => ret (a * drive_pot + b).

(** The secant step of [guess_drive_pot] through [(v0, p0)] and
    [(v1, p0 + 1)], on values. *)
Definition secant_guess (p0 v0 v1 target : R) : R :=
  let slope := (p0 - (p0 + 1)) / (v0 - v1) in
  let intercept := p0 - slope * v0 in
  slope * target + intercept.

(** What [guess_drive_pot] answers, and how many evaluations of
    [compute_charge_curve] it makes, when its observer sees [v0] at today's
    boundary value [p0] and [v1] at [p0 + 1]; [cost] and [cost_paired] are
    the evaluations one call of each callback makes. *)
Definition solver_outcome (p0 v0 v1 target : R) : outcome R :=
  if Req_dec_T v0 target then Return p0
  else if Req_dec_T (v0 - v1) 0 then Raise ZeroDivisionError
  else Return (secant_guess p0 v0 v1 target).

Definition solver_cost (cost cost_paired : nat) (v0 target : R) : nat :=
  if Req_dec_T v0 target then cost else (cost + cost_paired + cost)%nat.


(** ** Concrete inputs *)

(** The battery of [tests/test_diffusion_battery.py]: width 3, and the curve
    [np.array([1, 2, 3])], an int64 array. *)
Definition test_world : World := {| store := [Int64Array [1; 2; 3]%Z]; evals := 0 |}.

(** The same curve as a float64 array, [np.array([1., 2., 3.])]. *)
Definition float_test_world : World :=
  {| store := [Float64Array [1; 2; 3]]; evals := 0 |}.

Definition test_battery : DiffusionBattery :=
  {| soc := 0; ocp := 0; charge_curve := 0%nat; cathode_width := 3 |}.

(** A program in CHARGE_CV at timestep 30, and batteries that read 2 volts and
    0 volts. *)
Definition late_program : TesterProgram :=
  {| charge_cv := 4; driver := 0; timestep := 30; timesteps_in_step := 30;
     step := "CHARGE_CV" |}.

(** A program in CHARGE_CV at timestep 5, before the rest could end. *)
Definition early_program : TesterProgram :=
  {| charge_cv := 4; driver := 0; timestep := 5; timesteps_in_step := 5;
     step := "CHARGE_CV" |}.

Definition battery_at_2V : DiffusionBattery :=
  {| soc := 0; ocp := 2; charge_curve := 0%nat; cathode_width := 3 |}.

Definition battery_at_0V : DiffusionBattery :=
  {| soc := 0; ocp := 0; charge_curve := 0%nat; cathode_width := 3 |}.

(** ** The extended array of the update

    The array that [compute_charge_curve] convolves, and the same array with
    the places that hold the driving potential marked [None]. *)

Definition extended (W : nat) (p : R) (xs : list R) : list R :=
  let y := <[0%nat := p]> xs in
  let k := length (smoothing_kernel W) in
  replicate k 0 ++ replicate k p ++ y ++ rev y.

Definition marked (W : nat) (xs : list R) : list (option R) :=
  let y := <[0%nat := None]> (map Some xs) in
  let k := length (smoothing_kernel W) in
  replicate k (Some 0) ++ replicate k None ++ y ++ rev y.

(** The place of cell [i] of the new curve in the full convolution. *)
Definition cell_index (W : nat) (i : nat) : nat :=
  let k := length (smoothing_kernel W) in
  (2 * k + i + (k - 1) / 2)%nat.

(** ** The objects as the constructors build them *)

(** [config.N], the number of points along the X axis ([N] alone is the type
    of binary naturals). *)
Definition config_N : nat := 1000.

(** [Charge.get_init_vals()]: the grid [0 .. N-1] and a curve of zeros, both
    arrays of Python integers. *)
Definition get_init_vals : list Z * ndarray :=
  (map Z.of_nat (seq 0 config_N), Int64Array (replicate config_N 0%Z)).

(** [DiffusionBattery()] with its default arguments, in a store that holds
    the initial curve and nothing else. *)
Definition initial_world : World :=
  {| store := [snd get_init_vals]; evals := 0 |}.

Definition initial_battery : DiffusionBattery :=
  {| soc := 0; ocp := 0; charge_curve := 0%nat; cathode_width := config_N |}.

(** Stores for the edge cases: the empty curve, the default [np.array([])]
    of [Battery.__init__], and a curve of one cell. *)
Definition empty_curve_world : World := {| store := [Float64Array []]; evals := 0 |}.

Definition single_cell_world : World := {| store := [Float64Array [5]]; evals := 0 |}.

(** The driving potential the solver answers in the repository's test: the
    secant step from the observations at 1 and at 2 to the target 2. *)
Definition test_drive_pot : R :=
  secant_guess 1 (observed_ocp 3 1 [1; 2; 3]) (observed_ocp 3 2 [2; 2; 3]) 2.

(** And the driving potential the solver answers for the current 15, the
    first target of the shipped program, on the battery of the test. *)
Definition test_drive_pot_current : R :=
  secant_guess 1 (observed_current 3 1 [1; 2; 3]) (observed_current 3 2 [2; 2; 3]) 15.

(** A curve of three cells at the level 2, with the soc of that curve. *)
Definition flat_world : World := {| store := [Float64Array [2; 2; 2]]; evals := 0 |}.

Definition flat_battery : DiffusionBattery :=
  {| soc := 6; ocp := 2; charge_curve := 0%nat; cathode_width := 3 |}.

(** The battery of the test with its soc set to the sum of its curve. *)
Definition charged_test_battery : DiffusionBattery :=
  {| soc := 6; ocp := 2; charge_curve := 0%nat; cathode_width := 3 |}.

(** ** What a call of [advance] leaves *)

Definition recognized (s : string) : Prop :=
  s = "CHARGE_CC"%string \/ s = "CHARGE_CV"%string \/ s = "REST"%string
  \/ s = "DISCHARGE_CC"%string \/ s = "DISCHARGE_CV"%string.

(** [settled cfg battery current w self' r]: the result [r] is that of a call
    that ends in the step of [self']: the exit of that step does not fire on
    the potential and the current of the call, and the driver is assigned
    from the solver's answer for the target of that step, computed in the
    store [w]; or the step is none of the five and the call raises. *)
Definition settled (cfg : Config) (battery : DiffusionBattery) (current : R)
    (w : World) (self' : TesterProgram)
    (r : outcome unit * (TesterProgram * World)) : Prop :=
  (step self' = "CHARGE_CC"%string
   /\ ~ ocp battery >= CHARGE_CV cfg
   /\ r = assign_driver self' (get_driver_for_target_current battery (CHARGE_CC cfg) w))
  \/ (step self' = "CHARGE_CV"%string
      /\ ~ current < ZERO_CURRENT_THRESHOLD cfg
      /\ r = assign_driver self' (get_driver_for_target_ocp battery (CHARGE_CV cfg) w))
  \/ (step self' = "REST"%string
      /\ r = assign_driver self' (get_driver_for_target_current battery 0 w))
  \/ (step self' = "DISCHARGE_CC"%string
      /\ ~ ocp battery <= DISCHARGE_CV cfg
      /\ r = assign_driver self'
               (get_driver_for_target_current battery (- CHARGE_CC cfg) w))
  \/ (step self' = "DISCHARGE_CV"%string
      /\ ~ current > - ZERO_CURRENT_THRESHOLD cfg
      /\ r = assign_driver self' (get_driver_for_target_ocp battery (DISCHARGE_CV cfg) w))
  \/ (~ recognized (step self')
      /\ r = (Raise (UnrecognizedTestStep (step self')), (self', w))).

(** The exits of the five steps: [fires cfg battery current counter s t] says
    that a call in the step [s] that reads [counter] for [timesteps_in_step]
    changes to the step [t]. *)
Inductive fires (cfg : Config) (battery : DiffusionBattery) (current : R) (counter : Z)
    : string -> string -> Prop :=
| fires_CHARGE_CC :
    ocp battery >= CHARGE_CV cfg ->
    fires cfg battery current counter "CHARGE_CC" "CHARGE_CV"
| fires_CHARGE_CV :
    current < ZERO_CURRENT_THRESHOLD cfg ->
    fires cfg battery current counter "CHARGE_CV" "REST"
| fires_REST :
    (REST_TIMESTEPS cfg < counter)%Z ->
    fires cfg battery current counter "REST" "DISCHARGE_CC"
| fires_DISCHARGE_CC :
    ocp battery <= DISCHARGE_CV cfg ->
    fires cfg battery current counter "DISCHARGE_CC" "DISCHARGE_CV"
| fires_DISCHARGE_CV :
    current > - ZERO_CURRENT_THRESHOLD cfg ->
    fires cfg battery current counter "DISCHARGE_CV" "CHARGE_CC".

(** [reaches cfg battery current later counter s counter' s']: from the step
    [s], where the call reads [counter], exits that fire lead to the step
    [s'], where the call reads [counter'].  The calls after the first read
    [later], the counter as the first call left it. *)
Inductive reaches (cfg : Config) (battery : DiffusionBattery) (current : R) (later : Z)
    : Z -> string -> Z -> string -> Prop :=
| reaches_here (counter : Z) (s : string) :
    reaches cfg battery current later counter s counter s
| reaches_next (counter counter' : Z) (s t u : string) :
    fires cfg battery current counter s t ->
    reaches cfg battery current later later t counter' u ->
    reaches cfg battery current later counter s counter' u.

(** ** metric.py

    The histories the tester keeps.  What belongs to the plots (the axes and
    the lines) is left out. *)

(** [a[-k]] for [k >= 1]: IndexError when the array has fewer than [k] entries. *)
Definition getitem_from_end {A : Type} (a : list A) (k : nat) : outcome A :=
  if (k <=? length a)%nat
  then match a !! (length a - k)%nat with
       | Some v => Return v
       | None => Raise IndexError
       end
  else Raise IndexError.

Module Metric.

Record t : Type := mk { x : list Z; y : list R }.

(** [Metric.__init__(x, y)]: histories of one sample. *)
Definition init (x0 : Z) (y0 : R) : t := {| x := [x0]; y := [y0] |}.

(** [np.append] on both histories. *)
Definition update (self : t) (x_val : Z) (y_val : R) : t :=
  {| x := x self ++ [x_val]; y := y self ++ [y_val] |}.

Definition get_val (self : t) : outcome R := getitem_from_end (y self) 1.

Definition get_xy_copy (self : t) : list Z * list R := (x self, y self).

(** [self.y[-1] - self.y[-2]] *)
Definition delta (self : t) : outcome R :=
  match getitem_from_end (y self) 1 with
  | Raise e => Raise e
  | Return last =>
      match getitem_from_end (y self) 2 with
      | Raise e => Raise e
      | Return previous => Return (last - previous)
      end
  end.

End Metric.

(** [Charge]: the grid and a reference to the curve.  [update] replaces both,
    so that [y] is the battery's own array from the first update on. *)
Module Charge.

Record t : Type := mk { x : list Z; y : loc }.

(** [Charge.__init__(x, y)]: [np.array(y)] copies the array it is given. *)
Definition init (x0 : list Z) (y0 : loc) : M World t :=
  y_copy <- np_copy y0 ;;
  ret {| x := x0; y := y_copy |}.

Definition update (self : t) (x_val : list Z) (y_val : loc) : t :=
  {| x := x_val; y := y_val |}.

Definition get_xy_copy (self : t) : M World (list Z * list R) :=
  ys <- contents (y self) ;;
  ret (x self, ys).

End Charge.

(** The named tuple [Metrics]. *)
Module Metrics.

Record t : Type := mk {
  charge : Charge.t;
  soc : Metric.t;
  influx : Metric.t;
  driver : Metric.t;
  potential : Metric.t
}.

Definition with_charge (c : Charge.t) (m : t) : t :=
  {| charge := c; soc := soc m; influx := influx m; driver := driver m;
     potential := potential m |}.

Definition with_soc (v : Metric.t) (m : t) : t :=
  {| charge := charge m; soc := v; influx := influx m; driver := driver m;
     potential := potential m |}.

Definition with_influx (v : Metric.t) (m : t) : t :=
  {| charge := charge m; soc := soc m; influx := v; driver := driver m;
     potential := potential m |}.

Definition with_driver (v : Metric.t) (m : t) : t :=
  {| charge := charge m; soc := soc m; influx := influx m; driver := v;
     potential := potential m |}.

Definition with_potential (v : Metric.t) (m : t) : t :=
  {| charge := charge m; soc := soc m; influx := influx m; driver := driver m;
     potential := v |}.

End Metrics.

(** ** tester.py

    The tester without its figure: the construction, one timestep, and the
    generator of frames.  A frame is the list of the copies [(x, y)] of the
    five metrics. *)

Definition frame : Type := list (list Z * list R).

Module Tester.

Record t : Type := mk {
  battery : DiffusionBattery;
  program : TesterProgram;
  metrics : Metrics.t
}.

Definition init (battery : DiffusionBattery) (program : TesterProgram) : M World t :=
  charge <- Charge.init (fst get_init_vals) (charge_curve battery) ;;
  ret {| battery := battery;
         program := program;
         metrics := {| Metrics.charge := charge;
                       Metrics.soc := Metric.init 0 0;
                       Metrics.influx := Metric.init 0 0;
                       Metrics.driver := Metric.init 0 0;
                       Metrics.potential := Metric.init 0 0 |} |}.

Definition on_battery {A : Type} (m : M (DiffusionBattery * World) A) : M (t * World) A :=
  fun s =>
    let '(o, (b, w)) := m (battery (fst s), snd s) in
    (o, ({| battery := b; program := program (fst s); metrics := metrics (fst s) |}, w)).

Definition set_metrics (f : Metrics.t -> Metrics.t) : M (t * World) unit :=
  set_self (fun s => {| battery := battery s; program := program s;
                        metrics := f (metrics s) |}).

(** [[metric.get_xy_copy() for metric in metrics]] *)
Definition get_frame (m : Metrics.t) : M World frame :=
  c <- Charge.get_xy_copy (Metrics.charge m) ;;
  ret [c; Metric.get_xy_copy (Metrics.soc m); Metric.get_xy_copy (Metrics.influx m);
       Metric.get_xy_copy (Metrics.driver m); Metric.get_xy_copy (Metrics.potential m)].

(** [advance_timestep] up to the call of the program: the driver is recorded,
    the potential is applied, the metrics are updated; the value is
    [metrics.influx.get_val()], the current handed to the program.  The line
    printed at the start is left out. *)
Definition record_timestep : M (t * World) R :=
  self <- get_self ;;
  let battery := battery self in
  let program := program self in
  let metrics := metrics self in
  set_metrics (Metrics.with_driver
                 (Metric.update (Metrics.driver metrics) (timestep program) (driver program))) ;;;
  on_battery (apply_potential (driver program)) ;;;
  self <- get_self ;;
  let battery := Tester.battery self in
  let metrics := Tester.metrics self in
  set_metrics (Metrics.with_charge
                 (Charge.update (Metrics.charge metrics) (Charge.x (Metrics.charge metrics))
                    (charge_curve battery))) ;;;
  self <- get_self ;;
  let metrics := Tester.metrics self in
  ys <- on_world (contents (Charge.y (Metrics.charge metrics))) ;;
  set_metrics (Metrics.with_soc
                 (Metric.update (Metrics.soc metrics) (timestep program) (np_sum ys))) ;;;
  self <- get_self ;;
  let metrics := Tester.metrics self in
  d <- lift_outcome (Metric.delta (Metrics.soc metrics)) ;;
  set_metrics (Metrics.with_influx
                 (Metric.update (Metrics.influx metrics) (timestep program) d)) ;;;
  y0 <- on_world (getitem (Charge.y (Metrics.charge metrics)) 0) ;;
  set_metrics (Metrics.with_potential
                 (Metric.update (Metrics.potential metrics) (timestep program) y0)) ;;;
  self <- get_self ;;
  lift_outcome (Metric.get_val (Metrics.influx (Tester.metrics self))).

(** [advance_timestep]: the steps above, the call [program.advance(battery,
    current)] with at most [depth] nested calls, and the frame. *)
Definition advance_timestep (cfg : Config) (depth : nat) (st : t * World)
    : option (outcome frame * (t * World)) :=
  match record_timestep st with
  | (Raise e, st') => Some (Raise e, st')
  | (Return current, (self, w)) =>
      match advance cfg depth (battery self) current true (program self, w) with
      | None => None
      | Some (o, (program', w')) =>
          let self' := {| battery := battery self; program := program';
                          metrics := metrics self |} in
          match o with
          | Raise e => Some (Raise e, (self', w'))
          | Return _ =>
              let '(f, w'') := get_frame (metrics self') w' in
              Some (f, (self', w''))
          end
      end
  end.

(** [generate_frames(num_timesteps)], run to its end: the frames in order, or
    the exception of the first timestep that raises. *)
Fixpoint generate_frames (cfg : Config) (depth : nat) (num_timesteps : nat)
    (st : t * World) : option (outcome (list frame) * (t * World)) :=
  match num_timesteps with
  | O => Some (Return [], st)
  | S n =>
      match advance_timestep cfg depth st with
      | None => None
      | Some (Raise e, st') => Some (Raise e, st')
      | Some (Return f, st') =>
          match generate_frames cfg depth n st' with
          | None => None
          | Some (Raise e, st'') => Some (Raise e, st'')
          | Some (Return fs, st'') => Some (Return (f :: fs), st'')
          end
      end
  end.

End Tester.

(** A tester that can take a timestep: the battery's curve is in the store
    with at least two cells, and the soc history has a sample. *)
Definition ready (st : Tester.t * World) : Prop :=
  (exists xs, arrays (snd st) !! charge_curve (Tester.battery (fst st)) = Some xs
              /\ (2 <= length xs)%nat)
  /\ exists previous,
      Metric.get_val (Metrics.soc (Tester.metrics (fst st))) = Return previous.

(** The four histories are as long as the program's clock shows: one sample
    per timestep taken, and the one of the construction. *)
Definition aligned (self : Tester.t) : Prop :=
  let m := Tester.metrics self in
  let t := timestep (Tester.program self) in
  Z.of_nat (length (Metric.y (Metrics.soc m))) = t
  /\ Z.of_nat (length (Metric.y (Metrics.influx m))) = t
  /\ Z.of_nat (length (Metric.y (Metrics.driver m))) = t
  /\ Z.of_nat (length (Metric.y (Metrics.potential m))) = t
  /\ Z.of_nat (length (Metric.x (Metrics.soc m))) = t
  /\ Z.of_nat (length (Metric.x (Metrics.influx m))) = t
  /\ Z.of_nat (length (Metric.x (Metrics.driver m))) = t
  /\ Z.of_nat (length (Metric.x (Metrics.potential m))) = t.

(** The tester of the test battery with a new program, as [Tester.__init__]
    builds it in the store of the test. *)
Definition test_tester : Tester.t :=
  {| Tester.battery := test_battery;
     Tester.program := new_program config;
     Tester.metrics :=
       {| Metrics.charge := {| Charge.x := fst get_init_vals; Charge.y := 1%nat |};
          Metrics.soc := Metric.init 0 0;
          Metrics.influx := Metric.init 0 0;
          Metrics.driver := Metric.init 0 0;
          Metrics.potential := Metric.init 0 0 |} |}.

Definition test_tester_world : World :=
  {| store := [Int64Array [1; 2; 3]%Z; Int64Array [1; 2; 3]%Z]; evals := 0 |}.

(** The tester after the part of a timestep that precedes the call of the
    program, on a battery whose curve holds [xs] and with a soc history that
    ends in [previous]. *)
Definition recorded (self : Tester.t) (w : World) (xs : list R) (previous : R)
    : Tester.t :=
  let p := driver (Tester.program self) in
  let t := timestep (Tester.program self) in
  let m := Tester.metrics self in
  let new_curve :=
    spec_update (cathode_width (Tester.battery self))
      (stored_in w (charge_curve (Tester.battery self)) p) xs in
  {| Tester.battery :=
       {| soc := np_sum new_curve;
          ocp := nth 1 new_curve 0;
          charge_curve := S (length (arrays w));
          cathode_width := cathode_width (Tester.battery self) |};
     Tester.program := Tester.program self;
     Tester.metrics :=
       {| Metrics.charge := {| Charge.x := Charge.x (Metrics.charge m);
                               Charge.y := S (length (arrays w)) |};
          Metrics.soc := Metric.update (Metrics.soc m) t (np_sum new_curve);
          Metrics.influx := Metric.update (Metrics.influx m) t (np_sum new_curve - previous);
          Metrics.driver := Metric.update (Metrics.driver m) t p;
          Metrics.potential := Metric.update (Metrics.potential m) t (nth 0 new_curve 0) |} |}.

(** * Proofs *)

(** ** The ceiling and [np.arange] *)

Lemma Rceil_bounds (x : R) : IZR (Rceil x) - 1 < x <= IZR (Rceil x).
Proof.
  unfold Rceil. rewrite minus_IZR.
  destruct (archimed (- x)) as [Hgt Hle]. lra.
Qed.

Lemma Rceil_unique (x : R) (z : Z) : IZR z - 1 < x <= IZR z -> Rceil x = z.
Proof.
  intros [Hlo Hhi]. destruct (Rceil_bounds x) as [Clo Chi].
  assert (Hlt1 : (z - 1 < Rceil x)%Z) by (apply lt_IZR; rewrite minus_IZR; lra).
  assert (Hlt2 : (Rceil x - 1 < z)%Z) by (apply lt_IZR; rewrite minus_IZR; lra).
  lia.
Qed.

Lemma Rceil_IZR (z : Z) : Rceil (IZR z) = z.
Proof. apply Rceil_unique. lra. Qed.

Lemma Rceil_positive (x : R) : 0 < x -> (1 <= Rceil x)%Z.
Proof.
  intros Hx. destruct (Rceil_bounds x) as [_ Chi].
  assert (Hlt : (0 < Rceil x)%Z) by (apply lt_IZR; lra).
  lia.
Qed.

Lemma length_np_arange (start stop step : R) :
  length (np_arange start stop step) = Z.to_nat (Rceil ((stop - start) / step)).
Proof. unfold np_arange. rewrite length_map, length_seq. reflexivity. Qed.

(** The span of the sample points is [6 * sigma + 1]. *)
Lemma length_sample_points (W : nat) :
  length (sample_points W) = Z.to_nat (Rceil (6 * (INR W / 10) + 1)).
Proof.
  unfold sample_points. rewrite length_np_arange. do 2 f_equal. field.
Qed.

Lemma sample_points_nonempty (W : nat) : (1 <= length (sample_points W))%nat.
Proof.
  rewrite length_sample_points.
  assert (HW : 0 <= INR W) by apply pos_INR.
  assert (Hpos : 0 < 6 * (INR W / 10) + 1) by lra.
  apply Rceil_positive in Hpos. lia.
Qed.

Lemma length_smoothing_kernel (W : nat) :
  length (smoothing_kernel W) = length (sample_points W).
Proof. unfold smoothing_kernel. rewrite !length_map. reflexivity. Qed.

Lemma smoothing_kernel_nonempty (W : nat) : (1 <= length (smoothing_kernel W))%nat.
Proof. rewrite length_smoothing_kernel. apply sample_points_nonempty. Qed.

(** ** Slices and the same-length convolution *)

Lemma length_same_length_convolution (a v : list R) :
  length (same_length_convolution a v) = length a.
Proof. unfold same_length_convolution. rewrite length_map, length_seq. reflexivity. Qed.

Lemma np_convolve_same_longer (a v : list R) :
  (1 <= length v <= length a)%nat ->
  np_convolve_same a v = Return (same_length_convolution a v).
Proof.
  intros [Hv Ha]. unfold np_convolve_same.
  destruct (Nat.ltb_spec (length a) (length v)) as [Hlt | _]; [lia |].
  destruct (Nat.eqb_spec (length a) 0) as [H0 | _]; [lia |].
  destruct (Nat.eqb_spec (length v) 0) as [H0 | _]; [lia |].
  reflexivity.
Qed.

(** [c[2k : -n]] on an array of [2k + 2n] entries, [n >= 1]. *)
Lemma py_slice_crop {A : Type} (c : list A) (k n : nat) :
  length c = (2 * k + 2 * n)%nat -> (1 <= n)%nat ->
  py_slice c (Z.of_nat (2 * k)) (- Z.of_nat n)
  = drop (2 * k) (take (length c - n) c).
Proof.
  intros Hlen Hn. unfold py_slice, slice_bound. rewrite Hlen.
  destruct (Z.ltb_spec (Z.of_nat (2 * k)) 0) as [Hneg | _]; [lia |].
  destruct (Z.ltb_spec (- Z.of_nat n) 0) as [_ | Hpos]; [| lia].
  replace (Z.to_nat (Z.min _ (Z.max 0 (Z.of_nat (2 * k))))) with (2 * k)%nat by lia.
  replace (Z.to_nat (Z.min _ (Z.max 0 (- Z.of_nat n + _)))) with (2 * k + n)%nat by lia.
  replace (2 * k + 2 * n - n)%nat with (2 * k + n)%nat by lia.
  replace (2 * k + n - 2 * k)%nat with n by lia.
  apply take_drop_commute.
Qed.

(** ** Running the array primitives *)

Lemma bind_run {S A B : Type} (m : M S A) (k : A -> M S B) (s s' : S) (a : A) :
  m s = (Return a, s') -> bind m k s = k a s'.
Proof. intros H. unfold bind. rewrite H. reflexivity. Qed.

Lemma bind_raise {S A B : Type} (m : M S A) (k : A -> M S B) (s s' : S) (e : exn) :
  m s = (Raise e, s') -> bind m k s = (Raise e, s').
Proof. intros H. unfold bind. rewrite H. reflexivity. Qed.

Lemma contents_run (l : loc) (w : World) (xs : list R) :
  arrays w !! l = Some xs -> contents l w = (Return xs, w).
Proof. intros H. unfold contents. rewrite H. reflexivity. Qed.

Lemma getitem_run (l : loc) (i : nat) (w : World) (xs : list R) (x : R) :
  arrays w !! l = Some xs -> xs !! i = Some x ->
  getitem l i w = (Return x, w).
Proof.
  intros H Hi. unfold getitem. rewrite (bind_run _ _ _ _ _ (contents_run _ _ _ H)).
  rewrite Hi. reflexivity.
Qed.

Lemma getitem_out_of_range (l : loc) (i : nat) (w : World) (xs : list R) :
  arrays w !! l = Some xs -> xs !! i = None ->
  getitem l i w = (Raise IndexError, w).
Proof.
  intros H Hi. unfold getitem. rewrite (bind_run _ _ _ _ _ (contents_run _ _ _ H)).
  rewrite Hi. reflexivity.
Qed.

(** *** Arrays and their entries *)

Lemma length_arrays (w : World) : length (arrays w) = length (store w).
Proof. unfold arrays. apply length_map. Qed.

Lemma lookup_arrays (w : World) (l : loc) (xs : list R) :
  arrays w !! l = Some xs -> exists a, store w !! l = Some a /\ data a = xs.
Proof.
  unfold arrays. rewrite list_lookup_fmap. intros H.
  apply fmap_Some in H as (a & Ha & ->). exists a. split; [exact Ha | reflexivity].
Qed.

Lemma lookup_store (w : World) (l : loc) (a : ndarray) :
  store w !! l = Some a -> arrays w !! l = Some (data a).
Proof.
  intros H. unfold arrays. rewrite list_lookup_fmap. unfold loc in *.
  rewrite H. reflexivity.
Qed.

Lemma stored_in_lookup (w : World) (l : loc) (a : ndarray) (v : R) :
  store w !! l = Some a -> stored_in w l v = stored a v.
Proof. intros H. unfold stored_in. rewrite H. reflexivity. Qed.

(** *** Truncation *)

Lemma Rtrunc_IZR (z : Z) : Rtrunc (IZR z) = z.
Proof.
  unfold Rtrunc. destruct (Rle_dec 0 (IZR z)) as [_ | _]; [| apply Rceil_IZR].
  assert (Hup : (z + 1)%Z = up (IZR z)).
  { apply tech_up; rewrite plus_IZR; lra. }
  lia.
Qed.

(** Truncation is toward zero: it keeps the sign and takes less than 1. *)
Lemma Rtrunc_bounds (v : R) :
  (0 <= v -> IZR (Rtrunc v) <= v < IZR (Rtrunc v) + 1)
  /\ (v < 0 -> IZR (Rtrunc v) - 1 < v <= IZR (Rtrunc v)).
Proof.
  unfold Rtrunc. split; intros Hv.
  - destruct (Rle_dec 0 v) as [_ | Hn]; [| lra].
    rewrite minus_IZR. destruct (archimed v) as [Hgt Hle]. lra.
  - destruct (Rle_dec 0 v) as [Hp | _]; [lra |]. apply Rceil_bounds.
Qed.

Lemma data_write (a : ndarray) (i : nat) (v : R) :
  data (write a i v) = <[i := stored a v]> (data a).
Proof.
  destruct a as [zs | xs]; simpl; [| reflexivity].
  rewrite list_fmap_insert. reflexivity.
Qed.

Lemma stored_write (a : ndarray) (i : nat) (v q : R) :
  stored (write a i v) q = stored a q.
Proof. destruct a; reflexivity. Qed.

(** An array holds its own entries as they are, and their successors. *)
Lemma storable_lookup (a : ndarray) (i : nat) (v : R) :
  data a !! i = Some v -> storable a v.
Proof.
  unfold storable. destruct a as [zs | xs]; simpl; [| reflexivity].
  rewrite list_lookup_fmap. intros H.
  apply fmap_Some in H as (z & _ & ->). rewrite Rtrunc_IZR. reflexivity.
Qed.

Lemma storable_succ (a : ndarray) (v : R) : storable a v -> storable a (v + 1).
Proof.
  unfold storable. destruct a as [zs | xs]; simpl; [| reflexivity].
  intros H. rewrite <- H at 1. rewrite <- plus_IZR, Rtrunc_IZR, plus_IZR, H.
  reflexivity.
Qed.

Lemma storable_write (a : ndarray) (i : nat) (v q : R) :
  storable a q -> storable (write a i v) q.
Proof. unfold storable. rewrite stored_write. exact (fun H => H). Qed.

Lemma storable_in_array (w : World) (l : loc) (a : ndarray) (v : R) :
  store w !! l = Some a -> stored_in w l v = v -> storable a v.
Proof. intros H Hv. unfold storable. rewrite <- (stored_in_lookup w l a v H). exact Hv. Qed.

(** *** Copies and writes *)

Lemma np_copy_run (l : loc) (w : World) (a : ndarray) :
  store w !! l = Some a ->
  np_copy l w = (Return (length (arrays w)), alloc w a).
Proof. intros H. unfold np_copy. rewrite H. reflexivity. Qed.

Lemma setitem_run (l : loc) (i : nat) (v : R) (w : World) (a : ndarray) :
  store w !! l = Some a -> (i < length (data a))%nat ->
  setitem l i v w
  = (Return tt, {| store := <[l := write a i v]> (store w); evals := evals w |}).
Proof.
  intros H Hi. unfold setitem. rewrite H.
  destruct (Nat.ltb_spec i (length (data a))); [reflexivity | lia].
Qed.

(** The array just allocated is the last one of the store. *)
Lemma lookup_fresh {A : Type} (ws : list A) (x : A) :
  (ws ++ [x]) !! length ws = Some x.
Proof. rewrite lookup_app_r by lia. rewrite Nat.sub_diag. reflexivity. Qed.

Lemma insert_fresh {A : Type} (ws : list A) (x y : A) :
  <[length ws := y]> (ws ++ [x]) = ws ++ [y].
Proof.
  rewrite insert_app_r_alt by lia. rewrite Nat.sub_diag. reflexivity.
Qed.

Lemma lookup_older {A : Type} (ws more : list A) (l : loc) (x : A) :
  ws !! l = Some x -> (ws ++ more) !! l = Some x.
Proof. intros H. apply lookup_app_l_Some. exact H. Qed.

Lemma lookup_alloc_fresh (w : World) (a : ndarray) :
  store (alloc w a) !! length (arrays w) = Some a.
Proof. rewrite length_arrays. apply lookup_fresh. Qed.

Lemma data_nonempty_length (a : ndarray) : data a <> [] -> (0 < length (data a))%nat.
Proof. destruct (data a); [congruence | simpl; lia]. Qed.

(** A copy with its index 0 written: one more array, the others untouched. *)
Lemma copy_then_set_run {B : Type} (l : loc) (v : R) (w : World) (a : ndarray)
    (k : loc -> M World B) :
  store w !! l = Some a -> data a <> [] ->
  (y <- np_copy l ;; setitem y 0 v ;;; k y) w
  = k (length (arrays w)) (alloc w (write a 0 v)).
Proof.
  intros H Hne.
  rewrite (bind_run _ _ _ _ _ (np_copy_run _ _ _ H)).
  rewrite (bind_run _ _ _ _ _
             (setitem_run _ 0 v (alloc w a) a (lookup_alloc_fresh _ _)
                (data_nonempty_length a Hne))).
  unfold alloc. simpl. rewrite length_arrays, insert_fresh. reflexivity.
Qed.

(** ** [compute_charge_curve] on the store *)

Lemma map_constant {A B : Type} (c : B) (l : list A) :
  map (fun _ => c) l = replicate (length l) c.
Proof. induction l as [| a l IH]; simpl; [reflexivity | rewrite IH; reflexivity]. Qed.

(** The arrays of the store after an update. *)
Lemma arrays_after_update (self : DiffusionBattery) (p : R) (a : ndarray) (w : World) :
  arrays (after_update self p a w)
  = arrays w ++ [<[0%nat := stored a p]> (data a);
                 spec_update (cathode_width self) (stored a p) (data a)].
Proof.
  unfold arrays, after_update. cbn [store]. rewrite map_app. cbn [map].
  rewrite data_write. reflexivity.
Qed.

Lemma lookup_after_update_new (self : DiffusionBattery) (p : R) (a : ndarray)
    (w : World) :
  arrays (after_update self p a w) !! S (length (arrays w))
  = Some (spec_update (cathode_width self) (stored a p) (data a)).
Proof.
  rewrite arrays_after_update. rewrite lookup_app_r by lia.
  replace (S (length (arrays w)) - length (arrays w))%nat with 1%nat by lia.
  reflexivity.
Qed.

Lemma lookup_after_update_old (self : DiffusionBattery) (p : R) (a : ndarray)
    (w : World) (l : loc) (xs : list R) :
  arrays w !! l = Some xs -> arrays (after_update self p a w) !! l = Some xs.
Proof. intros H. rewrite arrays_after_update. apply lookup_older. exact H. Qed.

Lemma compute_charge_curve_run (self : DiffusionBattery) (p : R) (l : loc)
    (w : World) (a : ndarray) :
  store w !! l = Some a -> data a <> [] ->
  compute_charge_curve self p l w
  = (Return (S (length (arrays w))), after_update self p a w).
Proof.
  intros H Hne. unfold after_update.
  assert (Hlen : (0 < length (data a))%nat) by (apply data_nonempty_length; exact Hne).
  unfold compute_charge_curve.
  rewrite (bind_run _ _ w {| store := store w; evals := S (evals w) |} tt eq_refl).
  set (w1 := {| store := store w; evals := S (evals w) |}).
  rewrite (bind_run _ _ _ _ _ (np_copy_run l w1 a H)).
  rewrite (bind_run _ _ _ _ _
             (setitem_run _ 0 p (alloc w1 a) a (lookup_alloc_fresh _ _) Hlen)).
  unfold alloc, w1; simpl store; simpl evals.
  change (length (arrays {| store := store w; evals := S (evals w) |}))
    with (length (arrays w)).
  rewrite length_arrays, insert_fresh, <- length_arrays.
  set (w3 := {| store := store w ++ [write a 0 p]; evals := S (evals w) |}).
  set (q := stored a p).
  assert (Hy : arrays w3 !! length (arrays w) = Some (<[0%nat := q]> (data a))).
  { change (arrays w3) with (map data (store w ++ [write a 0 p])).
    rewrite map_app. cbn [map]. rewrite data_write. apply (lookup_fresh (arrays w)). }
  assert (Hy0 : <[0%nat := q]> (data a) !! 0%nat = Some q)
    by (apply list_lookup_insert_eq; exact Hlen).
  cbv zeta.
  rewrite (bind_run _ _ _ _ _ (getitem_run _ _ _ _ _ Hy Hy0)).
  rewrite (bind_run _ _ _ _ _ (contents_run _ _ _ Hy)).
  fold (sample_points (cathode_width self)).
  set (kernel := map (fun g : R => g / _) _).
  assert (Hkernel : kernel = smoothing_kernel (cathode_width self)) by reflexivity.
  clearbody kernel. subst kernel.
  set (kernel := smoothing_kernel (cathode_width self)).
  assert (Hk : (1 <= length kernel)%nat) by apply smoothing_kernel_nonempty.
  rewrite !map_constant.
  set (base := replicate _ 0 ++ _).
  assert (Hbase : length base = (2 * length kernel + 2 * length (data a))%nat).
  { unfold base. rewrite !length_app, !length_replicate, length_rev, length_insert. lia. }
  rewrite (np_convolve_same_longer base kernel) by lia.
  unfold lift_outcome at 1.
  unfold bind at 1.
  assert (Hconv : length (same_length_convolution base kernel)
                  = (2 * length kernel + 2 * length (data a))%nat)
    by (rewrite length_same_length_convolution; exact Hbase).
  rewrite length_insert.
  rewrite (py_slice_crop _ _ _ Hconv Hlen).
  unfold bind, np_array, ret, alloc. simpl.
  assert (Hfresh : length (arrays w3) = S (length (arrays w))).
  { rewrite !length_arrays. unfold w3. simpl. rewrite length_app. simpl. lia. }
  rewrite Hfresh. unfold w3. simpl.
  rewrite <- app_assoc. simpl.
  reflexivity.
Qed.

Lemma length_spec_update (W : nat) (p : R) (xs : list R) :
  length (spec_update W p xs) = length xs.
Proof.
  unfold spec_update. cbv zeta.
  rewrite length_drop, length_take, length_same_length_convolution.
  rewrite !length_app, !length_replicate, length_rev, length_insert. lia.
Qed.

Lemma spec_update_clamped (W : nat) (p : R) (xs : list R) :
  spec_update W p (<[0%nat := p]> xs) = spec_update W p xs.
Proof.
  unfold spec_update. cbv zeta.
  rewrite list_insert_insert_eq, length_insert. reflexivity.
Qed.

Lemma lookup_spec_update_0 (W : nat) (p : R) (xs : list R) :
  xs <> [] -> spec_update W p xs !! 0%nat = Some (observed_ocp W p xs).
Proof.
  intros Hne. unfold observed_ocp.
  assert (Hlen := length_spec_update W p xs).
  destruct (spec_update W p xs) as [| v vs]; [| reflexivity].
  destruct xs; [congruence | discriminate].
Qed.

Lemma extends_after_update (self : DiffusionBattery) (p : R) (a : ndarray) (w : World) :
  extends w (after_update self p a w).
Proof. unfold extends, after_update. simpl. apply prefix_app_r. reflexivity. Qed.

(** What [compute_ocp] and [compute_current] return: the observation at the
    value that the working copy holds. *)
Lemma compute_ocp_run (self : DiffusionBattery) (p : R) (l : loc) (w : World)
    (a : ndarray) :
  store w !! l = Some a -> data a <> [] ->
  compute_ocp self p l w
  = (Return (observed_ocp (cathode_width self) (stored a p) (data a)),
     after_update self p a w).
Proof.
  intros H Hne. unfold compute_ocp.
  rewrite (bind_run _ _ _ _ _ (compute_charge_curve_run self p l w a H Hne)).
  apply getitem_run with (xs := spec_update (cathode_width self) (stored a p) (data a)).
  - apply lookup_after_update_new.
  - apply lookup_spec_update_0. exact Hne.
Qed.

Lemma compute_current_run (self : DiffusionBattery) (p : R) (l : loc) (w : World)
    (a : ndarray) :
  store w !! l = Some a -> data a <> [] ->
  compute_current self p l w
  = (Return (observed_current (cathode_width self) (stored a p) (data a)),
     after_update self p a w).
Proof.
  intros H Hne. unfold compute_current.
  rewrite (bind_run _ _ _ _ _ (compute_charge_curve_run self p l w a H Hne)).
  rewrite (bind_run _ _ _ _ _ (contents_run _ _ _ (lookup_after_update_new self p a w))).
  rewrite (bind_run _ _ _ _ _
             (contents_run _ _ _
                (lookup_after_update_old self p a w l _ (lookup_store w l a H)))).
  reflexivity.
Qed.

(** An integer is held as it is by every array. *)
Lemma stored_in_IZR (w : World) (l : loc) (z : Z) : stored_in w l (IZR z) = IZR z.
Proof.
  unfold stored_in. destruct (store w !! l) as [[zs | xs] |]; simpl;
    [rewrite Rtrunc_IZR |..]; reflexivity.
Qed.

Lemma stored_in_element (w : World) (l : loc) (xs : list R) (i : nat) (v : R) :
  arrays w !! l = Some xs -> xs !! i = Some v -> stored_in w l v = v.
Proof.
  intros H Hi. destruct (lookup_arrays w l xs H) as (a & Ha & Hdata).
  rewrite (stored_in_lookup w l a v Ha). apply (storable_lookup a i).
  rewrite Hdata. exact Hi.
Qed.

(** On values, for a driving potential that the array holds as it is. *)
Lemma compute_ocp_value (self : DiffusionBattery) (p : R) (l : loc) (w : World)
    (xs : list R) :
  arrays w !! l = Some xs -> xs <> [] -> stored_in w l p = p ->
  fst (compute_ocp self p l w) = Return (observed_ocp (cathode_width self) p xs).
Proof.
  intros H Hne Hp. destruct (lookup_arrays w l xs H) as (a & Ha & Hdata).
  rewrite (compute_ocp_run self p l w a Ha) by (rewrite Hdata; exact Hne).
  rewrite <- (stored_in_lookup w l a p Ha), Hp, Hdata. reflexivity.
Qed.

Lemma compute_current_value (self : DiffusionBattery) (p : R) (l : loc) (w : World)
    (xs : list R) :
  arrays w !! l = Some xs -> xs <> [] -> stored_in w l p = p ->
  fst (compute_current self p l w)
  = Return (observed_current (cathode_width self) p xs).
Proof.
  intros H Hne Hp. destruct (lookup_arrays w l xs H) as (a & Ha & Hdata).
  rewrite (compute_current_run self p l w a Ha) by (rewrite Hdata; exact Hne).
  rewrite <- (stored_in_lookup w l a p Ha), Hp, Hdata. reflexivity.
Qed.

(** ** The callbacks of the solver are observers *)

Lemma extends_store (w w' : World) (l : loc) (a : ndarray) :
  extends w w' -> store w !! l = Some a -> store w' !! l = Some a.
Proof. unfold extends. intros Hext H. eapply prefix_lookup_Some; eassumption. Qed.

Lemma extends_lookup (w w' : World) (l : loc) (xs : list R) :
  extends w w' -> arrays w !! l = Some xs -> arrays w' !! l = Some xs.
Proof.
  intros Hext H. destruct (lookup_arrays w l xs H) as (a & Ha & <-).
  apply lookup_store. eapply extends_store; eassumption.
Qed.

Lemma extends_trans (w1 w2 w3 : World) : extends w1 w2 -> extends w2 w3 -> extends w1 w3.
Proof. unfold extends. intros H12 H23. etransitivity; eassumption. Qed.

Lemma extends_alloc (w : World) (a : ndarray) : extends w (alloc w a).
Proof. unfold extends, alloc. simpl. apply prefix_app_r. reflexivity. Qed.

Lemma insert_nonempty (p : R) (xs : list R) : xs <> [] -> <[0%nat := p]> xs <> [].
Proof. destruct xs; [congruence | discriminate]. Qed.

Lemma write_nonempty (a : ndarray) (p : R) : data a <> [] -> data (write a 0 p) <> [].
Proof. intros Hne. rewrite data_write. apply insert_nonempty. exact Hne. Qed.

Lemma compute_ocp_observes (self : DiffusionBattery) :
  observes 1 (compute_ocp self) (observed_ocp (cathode_width self)).
Proof.
  intros p l w a H Hne Hp. exists (after_update self p a w).
  split; [rewrite (compute_ocp_run self p l w a H Hne), Hp; reflexivity |].
  split; [apply extends_after_update | simpl; lia].
Qed.

Lemma compute_current_observes (self : DiffusionBattery) :
  observes 1 (compute_current self) (observed_current (cathode_width self)).
Proof.
  intros p l w a H Hne Hp. exists (after_update self p a w).
  split; [rewrite (compute_current_run self p l w a H Hne), Hp; reflexivity |].
  split; [apply extends_after_update | simpl; lia].
Qed.

(** What the closures return, whatever the driving potential: the
    observation at the value that the copies hold, on the curve with that
    value at index 0. *)
Lemma get_calc_ocp_run (self : DiffusionBattery) (p : R) (l : loc) (w : World)
    (a : ndarray) :
  store w !! l = Some a -> data a <> [] ->
  get_calc_ocp self l p w
  = (Return (observed_ocp (cathode_width self) (stored a p)
               (<[0%nat := stored a p]> (data a))),
     after_update self p (write a 0 p) (alloc w (write a 0 p))).
Proof.
  intros H Hne. unfold get_calc_ocp. rewrite (copy_then_set_run l p w a _ H Hne).
  rewrite (compute_ocp_run self p _ _ (write a 0 p) (lookup_alloc_fresh _ _)
             (write_nonempty a p Hne)).
  rewrite stored_write, data_write. reflexivity.
Qed.

Lemma get_calc_current_run (self : DiffusionBattery) (p : R) (l : loc) (w : World)
    (a : ndarray) :
  store w !! l = Some a -> data a <> [] ->
  get_calc_current self l p w
  = (Return (observed_current (cathode_width self) (stored a p)
               (<[0%nat := stored a p]> (data a))),
     after_update self p (write a 0 p) (alloc w (write a 0 p))).
Proof.
  intros H Hne. unfold get_calc_current. rewrite (copy_then_set_run l p w a _ H Hne).
  rewrite (compute_current_run self p _ _ (write a 0 p) (lookup_alloc_fresh _ _)
             (write_nonempty a p Hne)).
  rewrite stored_write, data_write. reflexivity.
Qed.

Lemma get_calc_ocp_observes (self : DiffusionBattery) :
  observes_paired 1 (get_calc_ocp self) (observed_ocp (cathode_width self)).
Proof.
  intros p l w a H Hne Hp.
  exists (after_update self p (write a 0 p) (alloc w (write a 0 p))).
  split.
  - rewrite (get_calc_ocp_run self p l w a H Hne). rewrite Hp. reflexivity.
  - split; [| simpl; lia].
    eapply extends_trans; [apply extends_alloc | apply extends_after_update].
Qed.

Lemma get_calc_current_observes (self : DiffusionBattery) :
  observes_paired 1 (get_calc_current self) (observed_current (cathode_width self)).
Proof.
  intros p l w a H Hne Hp.
  exists (after_update self p (write a 0 p) (alloc w (write a 0 p))).
  split.
  - rewrite (get_calc_current_run self p l w a H Hne). rewrite Hp. reflexivity.
  - split; [| simpl; lia].
    eapply extends_trans; [apply extends_alloc | apply extends_after_update].
Qed.

Lemma linear_observe_observes (a b : R) :
  observes 0 (linear_observe a b) (fun p _ => a * p + b).
Proof.
  intros p l w xs _ _ _. exists w. split; [reflexivity |].
  split; [unfold extends; reflexivity | lia].
Qed.

Lemma linear_observe_paired_observes (a b : R) :
  observes_paired 0 (linear_observe_paired a b) (fun p _ => a * p + b).
Proof.
  intros p l w xs _ _ _. exists w. split; [reflexivity |].
  split; [unfold extends; reflexivity | lia].
Qed.

(** ** The solver *)


(** The answer is ZeroDivisionError exactly when the two observations are
    equal and miss the target, and a number when they differ. *)
Lemma solver_outcome_zero_division (p0 v0 v1 target : R) :
  (solver_outcome p0 v0 v1 target = Raise ZeroDivisionError <-> v0 = v1 /\ v0 <> target)
  /\ (v0 <> v1 -> exists r, solver_outcome p0 v0 v1 target = Return r).
Proof.
  unfold solver_outcome.
  destruct (Req_dec_T v0 target) as [Heq | Hneq].
  - split; [| intros _; eexists; reflexivity].
    split; [discriminate | intros [_ Hbad]; contradiction].
  - destruct (Req_dec_T (v0 - v1) 0) as [Hz | Hnz].
    + split; [| intros Hbad; exfalso; apply Hbad; lra].
      split; [intros _; split; [lra | exact Hneq] | reflexivity].
    + split; [| intros _; eexists; reflexivity].
      split; [discriminate | intros [Hbad _]; exfalso; apply Hnz; lra].
Qed.

Section Solver.

Variables (cost cost_paired : nat).
Variable get_val : R -> loc -> M World R.
Variable get_val_dp : loc -> R -> M World R.
Variable f : R -> list R -> R.
Hypothesis get_val_observes : observes cost get_val f.
Hypothesis get_val_dp_observes : observes_paired cost_paired get_val_dp f.

(** One call of [guess_drive_pot] on a curve [xs] whose boundary value is
    [p0]: the assertion passes, and the answer and the number of
    evaluations are those of [solver_outcome] and [solver_cost]. *)
Lemma guess_drive_pot_run (l : loc) (w : World) (xs : list R) (p0 target : R) :
  arrays w !! l = Some xs -> xs !! 0%nat = Some p0 ->
  exists w',
    guess_drive_pot l get_val get_val_dp target w
    = (solver_outcome p0 (f p0 xs) (f (p0 + 1) (<[0%nat := p0 + 1]> xs)) target, w')
    /\ extends w w'
    /\ evals w' = (evals w + solver_cost cost cost_paired (f p0 xs) target)%nat.
Proof.
  intros H H0.
  assert (Hne : xs <> []) by (destruct xs; [discriminate | congruence]).
  destruct (lookup_arrays w l xs H) as (a & Ha & Hdata).
  assert (Hane : data a <> []) by (rewrite Hdata; exact Hne).
  assert (Hp0 : storable a p0) by (apply (storable_lookup a 0); rewrite Hdata; exact H0).
  assert (Hp1 : storable a (p0 + 1)) by (apply storable_succ; exact Hp0).
  unfold guess_drive_pot, solver_outcome, solver_cost.
  rewrite (bind_run _ _ _ _ _ (getitem_run _ _ _ _ _ H H0)).
  destruct (get_val_observes p0 l w a Ha Hane Hp0) as (w1 & Hrun1 & Hext1 & Hev1).
  rewrite Hdata in Hrun1.
  rewrite (bind_run _ _ _ _ _ Hrun1).
  destruct (Req_dec_T (f p0 xs) target) as [Heq | Hneq].
  { exists w1. split; [reflexivity |]. split; assumption. }
  cbv zeta.
  assert (H1 : store w1 !! l = Some a) by (eapply extends_store; eassumption).
  destruct (get_val_dp_observes p0 l w1 a H1 Hane Hp0) as (w2 & Hrun2 & Hext2 & Hev2).
  rewrite Hdata, (list_insert_id xs 0 p0 H0) in Hrun2.
  rewrite (bind_run _ _ _ _ _ Hrun2).
  destruct (Req_dec_T (f p0 xs) (f p0 xs)) as [Hsame | Hbad]; [| congruence].
  unfold py_assert. rewrite (bind_run _ _ w2 w2 tt eq_refl).
  assert (H2 : store w2 !! l = Some a) by (eapply extends_store; eassumption).
  rewrite (copy_then_set_run l (p0 + 1) w2 a _ H2 Hane).
  destruct (get_val_observes (p0 + 1) (length (arrays w2))
              (alloc w2 (write a 0 (p0 + 1))) (write a 0 (p0 + 1))
              (lookup_alloc_fresh _ _) (write_nonempty _ _ Hane)
              (storable_write _ _ _ _ Hp1))
    as (w3 & Hrun3 & Hext3 & Hev3).
  rewrite data_write, Hp1, Hdata in Hrun3.
  rewrite (bind_run _ _ _ _ _ Hrun3).
  exists w3.
  assert (Hext : extends w w3).
  { eapply extends_trans; [exact Hext1 |].
    eapply extends_trans; [exact Hext2 |].
    eapply extends_trans; [apply extends_alloc | exact Hext3]. }
  assert (Hev : evals w3 = (evals w + (cost + cost_paired + cost))%nat)
    by (rewrite Hev3; simpl; lia).
  unfold get_slope_intercept, lift_outcome, bind. simpl fst. simpl snd.
  destruct (Req_dec_T (f p0 xs - f (p0 + 1) (<[0%nat := p0 + 1]> xs)) 0).
  - split; [reflexivity | split; assumption].
  - split; [reflexivity | split; assumption].
Qed.

(** Without a boundary value to read, the solver stops at [charge_curve[0]]:
    the curve is empty, or the reference names no array. *)
Lemma guess_drive_pot_no_boundary (l : loc) (w : World) (target : R) :
  (forall xs p0, arrays w !! l = Some xs -> xs !! 0%nat = Some p0 -> False) ->
  fst (guess_drive_pot l get_val get_val_dp target w) = Raise IndexError
  \/ fst (guess_drive_pot l get_val get_val_dp target w) = Raise DanglingReference.
Proof.
  intros Hnone. unfold guess_drive_pot, bind at 1, getitem, bind, contents.
  destruct (arrays w !! l) as [xs |] eqn:H; [| right; reflexivity].
  destruct (xs !! 0%nat) as [p0 |] eqn:H0; [| left; reflexivity].
  exfalso. eapply Hnone; eauto.
Qed.


End Solver.

(** ** The diffusion update *)

(** The update on an array of either dtype: the new curve is a fresh float64
    array that holds [spec_update] at the value that the working copy holds
    at index 0, and the array passed in is as it was. *)
Lemma compute_charge_curve_stored (self : DiffusionBattery) (p : R) (l : loc)
    (w : World) (xs : list R) :
  arrays w !! l = Some xs -> (1 <= length xs)%nat ->
  exists (l' : loc) (w' : World),
    compute_charge_curve self p l w = (Return l', w')
    /\ arrays w !! l' = None
    /\ store w' !! l'
       = Some (Float64Array (spec_update (cathode_width self) (stored_in w l p) xs))
    /\ arrays w' !! l = Some xs.
Proof.
  intros H Hlen.
  assert (Hne : xs <> []) by (destruct xs; [simpl in Hlen; lia | discriminate]).
  destruct (lookup_arrays w l xs H) as (a & Ha & Hdata).
  exists (S (length (arrays w))), (after_update self p a w).
  split; [apply compute_charge_curve_run; [exact Ha | rewrite Hdata; exact Hne] |].
  split; [apply lookup_ge_None_2; lia |].
  split.
  { rewrite (stored_in_lookup w l a p Ha), <- Hdata. unfold after_update. cbn [store].
    rewrite length_arrays, lookup_app_r by lia.
    replace (S (length (store w)) - length (store w))%nat with 1%nat by lia.
    reflexivity. }
  apply lookup_after_update_old. exact H.
Qed.



(** On the empty curve the write of index 0 raises IndexError. *)
Lemma compute_charge_curve_empty (self : DiffusionBattery) (p : R) (l : loc)
    (w : World) :
  arrays w !! l = Some [] ->
  fst (compute_charge_curve self p l w) = Raise IndexError.
Proof.
  intros H. destruct (lookup_arrays w l [] H) as (a & Ha & Hdata).
  unfold compute_charge_curve.
  rewrite (bind_run _ _ w {| store := store w; evals := S (evals w) |} tt eq_refl).
  rewrite (bind_run _ _ _ _ _
             (np_copy_run l {| store := store w; evals := S (evals w) |} a Ha)).
  unfold bind, setitem.
  rewrite lookup_alloc_fresh, Hdata. reflexivity.
Qed.

(** C8.  [apply_potential] on a curve of length N >= 2: the battery's curve
    becomes the updated curve, its ocp is index 1 of that curve, its soc is
    the sum of that curve, and the call returns the new ocp with the
    difference between the new soc and the soc before the call. *)
Theorem apply_potential_recomputes (self : DiffusionBattery) (potential : R)
    (w : World) (xs : list R) :
  arrays w !! charge_curve self = Some xs -> (2 <= length xs)%nat ->
  exists (self' : DiffusionBattery) (w' : World) (new_curve : list R),
    apply_potential potential (self, w)
    = (Return (ocp self', soc self' - soc self), (self', w'))
    /\ new_curve
       = spec_update (cathode_width self)
           (stored_in w (charge_curve self) potential) xs
    /\ arrays w' !! charge_curve self' = Some new_curve
    /\ new_curve !! 1%nat = Some (ocp self')
    /\ soc self' = np_sum new_curve
    /\ cathode_width self' = cathode_width self.
Proof.
  intros H Hlen.
  assert (Hne : xs <> []) by (destruct xs; [simpl in Hlen; lia | discriminate]).
  destruct (lookup_arrays w _ xs H) as (a & Ha & Hdata).
  assert (Hane : data a <> []) by (rewrite Hdata; exact Hne).
  rewrite (stored_in_lookup w _ a potential Ha).
  set (new_curve := spec_update (cathode_width self) (stored a potential) xs).
  assert (Hnew_len : length new_curve = length xs) by apply length_spec_update.
  destruct (lookup_lt_is_Some_2 new_curve 1 ltac:(lia)) as [v Hv].
  set (l' := S (length (arrays w))).
  set (w' := after_update self potential a w).
  assert (Hnew : arrays w' !! l' = Some new_curve).
  { unfold w', l', new_curve. rewrite <- Hdata. apply lookup_after_update_new. }
  exists {| soc := np_sum new_curve; ocp := v; charge_curve := l';
            cathode_width := cathode_width self |}, w', new_curve.
  split; [| simpl; auto].
  unfold apply_potential.
  unfold bind at 1. unfold get_self at 1. cbn [fst snd].
  unfold bind at 1. unfold on_world at 1. cbn [fst snd].
  rewrite (compute_charge_curve_run self potential _ w a Ha Hane).
  fold w' l'.
  unfold bind at 1. unfold set_self at 1. cbn [fst snd].
  unfold bind at 1. unfold on_world at 1. cbn [fst snd].
  rewrite (getitem_run l' 1 w' new_curve v Hnew Hv).
  unfold bind at 1. unfold set_self at 1. cbn [fst snd].
  unfold bind at 1. unfold get_self at 1. cbn [fst snd].
  unfold bind at 1. unfold on_world at 1.
  cbn [fst snd charge_curve with_ocp with_charge_curve].
  rewrite (contents_run l' w' new_curve Hnew).
  unfold bind, set_self, get_self, ret. cbn. reflexivity.
Qed.

Lemma apply_potential_recomputes_at_test_input :
  exists (self' : DiffusionBattery) (w' : World) (new_curve : list R),
    apply_potential 1 (test_battery, test_world)
    = (Return (ocp self', soc self' - soc test_battery), (self', w'))
    /\ new_curve = spec_update 3 1 [1; 2; 3]
    /\ arrays w' !! charge_curve self' = Some new_curve
    /\ new_curve !! 1%nat = Some (ocp self')
    /\ soc self' = np_sum new_curve
    /\ cathode_width self' = 3%nat.
Proof.
  destruct (apply_potential_recomputes test_battery 1 test_world [1; 2; 3])
    as (self' & w' & new_curve & Hrun & Hcurve & Hrest).
  - reflexivity.
  - simpl. lia.
  - exists self', w', new_curve. split; [exact Hrun |]. split; [| exact Hrest].
    rewrite Hcurve. unfold stored_in. simpl. rewrite Rtrunc_IZR. reflexivity.
Defined.

(** On a curve of one cell there is no index 1: the call raises IndexError
    after it has replaced the battery's curve, and ocp and soc keep their
    values of before the call. *)
Lemma apply_potential_single_cell (self : DiffusionBattery) (potential : R)
    (w : World) (a : ndarray) :
  store w !! charge_curve self = Some a -> length (data a) = 1%nat ->
  apply_potential potential (self, w)
  = (Raise IndexError,
     (with_charge_curve (S (length (arrays w))) self, after_update self potential a w)).
Proof.
  intros H Hone.
  assert (Hane : data a <> []) by (destruct (data a); [discriminate | discriminate]).
  set (l' := S (length (arrays w))).
  set (w' := after_update self potential a w).
  set (new_curve := spec_update (cathode_width self) (stored a potential) (data a)).
  assert (Hnew : arrays w' !! l' = Some new_curve) by apply lookup_after_update_new.
  assert (Hnone : new_curve !! 1%nat = None).
  { apply lookup_ge_None_2. unfold new_curve. rewrite length_spec_update. lia. }
  unfold apply_potential.
  unfold bind at 1. unfold get_self at 1. cbn [fst snd].
  unfold bind at 1. unfold on_world at 1. cbn [fst snd].
  rewrite (compute_charge_curve_run self potential _ w a H Hane).
  fold w' l'.
  unfold bind at 1. unfold set_self at 1. cbn [fst snd].
  unfold bind at 1. unfold on_world at 1. cbn [fst snd].
  rewrite (getitem_out_of_range l' 1 w' new_curve Hnew Hnone).
  reflexivity.
Qed.

(** ** The solver with its callbacks *)

(** C5.  With callbacks that observe a function [f] of the driving potential
    and the curve, on a curve whose boundary value is [p0]: let [v0] be the
    observation at [p0] and [v1] the observation at [p0 + 1].
    [guess_drive_pot] raises ZeroDivisionError exactly when [v0 = v1] and
    [v0] differs from the target; the exception is the outcome of the call,
    no number stands in for it; and when [v0 <> v1] the call returns. *)
Theorem guess_drive_pot_zero_division (cost cost_paired : nat)
    (get_val : R -> loc -> M World R) (get_val_dp : loc -> R -> M World R)
    (f : R -> list R -> R) (l : loc) (w : World) (xs : list R) (p0 target : R) :
  observes cost get_val f ->
  observes_paired cost_paired get_val_dp f ->
  arrays w !! l = Some xs -> xs !! 0%nat = Some p0 ->
  let v0 := f p0 xs in
  let v1 := f (p0 + 1) (<[0%nat := p0 + 1]> xs) in
  (fst (guess_drive_pot l get_val get_val_dp target w) = Raise ZeroDivisionError
   <-> v0 = v1 /\ v0 <> target)
  /\ (v0 <> v1 -> exists r, fst (guess_drive_pot l get_val get_val_dp target w) = Return r).
Proof.
  intros Hobs Hpaired H H0 v0 v1.
  destruct (guess_drive_pot_run cost cost_paired get_val get_val_dp f Hobs Hpaired
              l w xs p0 target H H0) as (w' & Hrun & _ & _).
  rewrite Hrun. cbn [fst]. apply solver_outcome_zero_division.
Qed.

(** The division-by-zero scenario of the specification: a constant observer. *)
Lemma guess_drive_pot_zero_division_constant_observer :
  (fst (guess_drive_pot 0%nat (linear_observe 0 5) (linear_observe_paired 0 5) 7
          test_world) = Raise ZeroDivisionError
   <-> 0 * 1 + 5 = 0 * (1 + 1) + 5 /\ 0 * 1 + 5 <> 7)
  /\ (0 * 1 + 5 <> 0 * (1 + 1) + 5 ->
      exists r, fst (guess_drive_pot 0%nat (linear_observe 0 5)
                       (linear_observe_paired 0 5) 7 test_world) = Return r).
Proof.
  apply (guess_drive_pot_zero_division 0 0 (linear_observe 0 5)
           (linear_observe_paired 0 5) (fun p _ => 0 * p + 5)
           0%nat test_world [1; 2; 3] 1 7).
  - apply linear_observe_observes.
  - apply linear_observe_paired_observes.
  - reflexivity.
  - reflexivity.
Defined.

(** C6.  For the linear observer [f(p) = a * p + b] with [a <> 0], any [b]
    and any target, on a curve that has a boundary value: [guess_drive_pot]
    returns a driving potential [p] with [f(p) = target]. *)
Theorem guess_drive_pot_inverts_linear (a b target : R) (l : loc) (w : World)
    (xs : list R) (p0 : R) :
  a <> 0 -> arrays w !! l = Some xs -> xs !! 0%nat = Some p0 ->
  exists (p : R) (w' : World),
    guess_drive_pot l (linear_observe a b) (linear_observe_paired a b) target w
    = (Return p, w')
    /\ a * p + b = target.
Proof.
  intros Ha H H0.
  destruct (guess_drive_pot_run 0 0 _ _ _ (linear_observe_observes a b)
              (linear_observe_paired_observes a b) l w xs p0 target H H0)
    as (w' & Hrun & _ & _).
  rewrite Hrun. unfold solver_outcome.
  destruct (Req_dec_T (a * p0 + b) target) as [Heq | Hneq].
  - exists p0, w'. split; [reflexivity | exact Heq].
  - destruct (Req_dec_T (a * p0 + b - (a * (p0 + 1) + b)) 0) as [Hz | Hnz].
    + exfalso. apply Ha. lra.
    + eexists _, w'. split; [reflexivity |].
      unfold secant_guess. cbv zeta. field. lra.
Qed.

Lemma guess_drive_pot_inverts_linear_example :
  exists (p : R) (w' : World),
    guess_drive_pot 0%nat (linear_observe 2 1) (linear_observe_paired 2 1) 7 test_world
    = (Return p, w')
    /\ 2 * p + 1 = 7.
Proof.
  apply (guess_drive_pot_inverts_linear 2 1 7 0%nat test_world [1; 2; 3] 1).
  - lra.
  - reflexivity.
  - reflexivity.
Defined.

(** *** The solver behind [get_driver_for_target_current] and
        [get_driver_for_target_ocp] *)

Lemma get_driver_for_target_current_run (self : DiffusionBattery) (target : R)
    (w : World) (xs : list R) (p0 : R) :
  arrays w !! charge_curve self = Some xs -> xs !! 0%nat = Some p0 ->
  let f := observed_current (cathode_width self) in
  exists w',
    get_driver_for_target_current self target w
    = (solver_outcome p0 (f p0 xs) (f (p0 + 1) (<[0%nat := p0 + 1]> xs)) target, w')
    /\ extends w w'
    /\ evals w' = (evals w + solver_cost 1 1 (f p0 xs) target)%nat.
Proof.
  intros H H0 f. unfold get_driver_for_target_current.
  apply guess_drive_pot_run; try assumption.
  - apply compute_current_observes.
  - apply get_calc_current_observes.
Qed.

Lemma get_driver_for_target_ocp_run (self : DiffusionBattery) (target : R)
    (w : World) (xs : list R) (p0 : R) :
  arrays w !! charge_curve self = Some xs -> xs !! 0%nat = Some p0 ->
  let f := observed_ocp (cathode_width self) in
  exists w',
    get_driver_for_target_ocp self target w
    = (solver_outcome p0 (f p0 xs) (f (p0 + 1) (<[0%nat := p0 + 1]> xs)) target, w')
    /\ extends w w'
    /\ evals w' = (evals w + solver_cost 1 1 (f p0 xs) target)%nat.
Proof.
  intros H H0 f. unfold get_driver_for_target_ocp.
  apply guess_drive_pot_run; try assumption.
  - apply compute_ocp_observes.
  - apply get_calc_ocp_observes.
Qed.

(** The division by zero of the solver as [get_driver_for_target_ocp] and
    [get_driver_for_target_current] pass it on: the two observations of the
    battery are equal and miss the target. *)
Lemma get_driver_for_target_ocp_zero_division (self : DiffusionBattery) (target : R)
    (w : World) (xs : list R) (p0 : R) :
  arrays w !! charge_curve self = Some xs -> xs !! 0%nat = Some p0 ->
  let v0 := observed_ocp (cathode_width self) p0 xs in
  let v1 := observed_ocp (cathode_width self) (p0 + 1) (<[0%nat := p0 + 1]> xs) in
  fst (get_driver_for_target_ocp self target w) = Raise ZeroDivisionError
  <-> v0 = v1 /\ v0 <> target.
Proof.
  intros H H0 v0 v1.
  destruct (get_driver_for_target_ocp_run self target w xs p0 H H0) as (w' & Hrun & _).
  rewrite Hrun. cbn [fst]. apply solver_outcome_zero_division.
Qed.

Lemma get_driver_for_target_current_zero_division (self : DiffusionBattery)
    (target : R) (w : World) (xs : list R) (p0 : R) :
  arrays w !! charge_curve self = Some xs -> xs !! 0%nat = Some p0 ->
  let v0 := observed_current (cathode_width self) p0 xs in
  let v1 := observed_current (cathode_width self) (p0 + 1) (<[0%nat := p0 + 1]> xs) in
  fst (get_driver_for_target_current self target w) = Raise ZeroDivisionError
  <-> v0 = v1 /\ v0 <> target.
Proof.
  intros H H0 v0 v1.
  destruct (get_driver_for_target_current_run self target w xs p0 H H0)
    as (w' & Hrun & _).
  rewrite Hrun. cbn [fst]. apply solver_outcome_zero_division.
Qed.

(** [advance] does not catch what the solver raises: the exception is the
    outcome of the assignment of the driver, and the driver keeps its value. *)
Lemma assign_driver_raises (self : TesterProgram) (e : exn) (w : World) :
  assign_driver self (Raise e, w) = (Raise e, (self, w)).
Proof. reflexivity. Qed.

(** The value the assertion recomputes through the closure is the value
    observed first: the closure's copy with index 0 set to the boundary
    value is the curve itself. *)
Lemma calc_ocp_reproduces_actual_val (self : DiffusionBattery) (l : loc) (w : World)
    (xs : list R) (p0 : R) :
  arrays w !! l = Some xs -> xs !! 0%nat = Some p0 ->
  exists (v : R) (w1 w2 : World),
    compute_ocp self p0 l w = (Return v, w1)
    /\ get_calc_ocp self l p0 w1 = (Return v, w2).
Proof.
  intros H H0.
  assert (Hne : xs <> []) by (destruct xs; [discriminate | congruence]).
  destruct (lookup_arrays w l xs H) as (a & Ha & Hdata).
  assert (Hane : data a <> []) by (rewrite Hdata; exact Hne).
  assert (Hp0 : storable a p0) by (apply (storable_lookup a 0); rewrite Hdata; exact H0).
  destruct (compute_ocp_observes self p0 l w a Ha Hane Hp0) as (w1 & Hrun1 & Hext1 & _).
  destruct (get_calc_ocp_observes self p0 l w1 a (extends_store _ _ _ _ Hext1 Ha) Hane Hp0)
    as (w2 & Hrun2 & _ & _).
  rewrite Hdata, (list_insert_id xs 0 p0 H0) in Hrun2. rewrite Hdata in Hrun1.
  eexists _, w1, w2. split; eassumption.
Qed.

Lemma calc_current_reproduces_actual_val (self : DiffusionBattery) (l : loc)
    (w : World) (xs : list R) (p0 : R) :
  arrays w !! l = Some xs -> xs !! 0%nat = Some p0 ->
  exists (v : R) (w1 w2 : World),
    compute_current self p0 l w = (Return v, w1)
    /\ get_calc_current self l p0 w1 = (Return v, w2).
Proof.
  intros H H0.
  assert (Hne : xs <> []) by (destruct xs; [discriminate | congruence]).
  destruct (lookup_arrays w l xs H) as (a & Ha & Hdata).
  assert (Hane : data a <> []) by (rewrite Hdata; exact Hne).
  assert (Hp0 : storable a p0) by (apply (storable_lookup a 0); rewrite Hdata; exact H0).
  destruct (compute_current_observes self p0 l w a Ha Hane Hp0)
    as (w1 & Hrun1 & Hext1 & _).
  destruct (get_calc_current_observes self p0 l w1 a
              (extends_store _ _ _ _ Hext1 Ha) Hane Hp0) as (w2 & Hrun2 & _ & _).
  rewrite Hdata, (list_insert_id xs 0 p0 H0) in Hrun2. rewrite Hdata in Hrun1.
  eexists _, w1, w2. split; eassumption.
Qed.





(** ** The smoothing kernel *)

Lemma gaussian_density_positive (sigma x : R) :
  sigma <> 0 -> 0 < gaussian_density sigma x.
Proof.
  intros Hs. unfold gaussian_density.
  apply Rdiv_lt_0_compat; [apply exp_pos |].
  apply sqrt_lt_R0.
  assert (Hpi := PI_RGT_0).
  assert (Hsq : 0 < sigma ^ 2) by (simpl; nra).
  nra.
Qed.

Lemma np_sum_positive (xs : list R) :
  xs <> [] -> Forall (fun x => 0 < x) xs -> 0 < np_sum xs.
Proof.
  intros Hne Hall. induction Hall as [| x xs Hx Hxs IH]; [congruence |].
  simpl. destruct xs as [| y ys].
  - simpl. lra.
  - assert (0 < np_sum (y :: ys)) by (apply IH; discriminate). lra.
Qed.

Lemma np_sum_scaled (s : R) (xs : list R) :
  np_sum (map (fun x => x / s) xs) = np_sum xs / s.
Proof.
  induction xs as [| x xs IH]; simpl.
  - unfold Rdiv. ring.
  - rewrite IH. unfold Rdiv. ring.
Qed.

(** Kernel normalisation: for a width of at least 1 the kernel's entries are
    positive and sum to 1. *)
Lemma smoothing_kernel_normalised (W : nat) :
  (1 <= W)%nat ->
  Forall (fun k => 0 < k) (smoothing_kernel W) /\ np_sum (smoothing_kernel W) = 1.
Proof.
  intros HW.
  assert (Hsigma : INR W / 10 <> 0).
  { assert (0 < INR W) by (apply lt_0_INR; lia). lra. }
  unfold smoothing_kernel. cbv zeta.
  set (g := map (gaussian_density (INR W / 10)) (sample_points W)).
  assert (Hg : Forall (fun x => 0 < x) g).
  { unfold g. apply List.Forall_forall. intros x Hin. apply in_map_iff in Hin.
    destruct Hin as (y & <- & _). apply gaussian_density_positive. exact Hsigma. }
  assert (Hgne : g <> []).
  { intros Hnil. apply (f_equal (@length R)) in Hnil. unfold g in Hnil.
    rewrite length_map in Hnil. simpl in Hnil.
    pose proof (sample_points_nonempty W). lia. }
  assert (Hs : 0 < np_sum g) by (apply np_sum_positive; assumption).
  split.
  - apply List.Forall_forall. intros x Hin. apply in_map_iff in Hin.
    destruct Hin as (y & <- & Hy).
    apply Rdiv_lt_0_compat; [| exact Hs].
    rewrite List.Forall_forall in Hg. apply Hg. exact Hy.
  - rewrite np_sum_scaled. field. lra.
Qed.

(** *** Width 3, the width of the repository's test *)

Lemma INR_3 : INR 3 = 3.
Proof. simpl. lra. Qed.

(** C7 at the width 3: the sample points are -0.9, 0.1 and 1.1.  They are not
    symmetric about zero, and the last one lies outside [-3 sigma, 3 sigma]
    = [-0.9, 0.9]. *)
Theorem sample_points_of_width_3 :
  sample_points 3 = [- 9 / 10; 1 / 10; 11 / 10].
Proof.
  unfold sample_points, np_arange. cbv zeta. rewrite INR_3.
  match goal with
  | |- context [Rceil ?e] =>
      replace (Rceil e) with 3%Z by (symmetry; apply Rceil_unique; lra)
  end.
  simpl. repeat f_equal; lra.
Qed.

(** At the width 5 the sample points are symmetric, and four. *)
Lemma sample_points_of_width_5 :
  sample_points 5 = [- 3 / 2; - 1 / 2; 1 / 2; 3 / 2].
Proof.
  unfold sample_points, np_arange. cbv zeta.
  replace (INR 5) with 5 by (simpl; lra).
  match goal with
  | |- context [Rceil ?e] =>
      replace (Rceil e) with 4%Z by (symmetry; apply Rceil_unique; lra)
  end.
  simpl. repeat f_equal; lra.
Qed.

(** The sample points of the width 3, for the proofs below. *)
Lemma sample_points_3 : sample_points 3 = [- 9 / 10; 1 / 10; 11 / 10].
Proof.
  unfold sample_points, np_arange. cbv zeta. rewrite INR_3.
  match goal with
  | |- context [Rceil ?e] =>
      replace (Rceil e) with 3%Z by (symmetry; apply Rceil_unique; lra)
  end.
  simpl. repeat f_equal; lra.
Qed.

Lemma smoothing_kernel_of_width_3 :
  exists k0 k1 k2 : R,
    smoothing_kernel 3 = [k0; k1; k2]
    /\ 0 < k0 /\ 0 < k1 /\ 0 < k2 /\ k0 + k1 + k2 = 1.
Proof.
  destruct (smoothing_kernel_normalised 3 ltac:(lia)) as [Hpos Hsum].
  assert (Hlen : length (smoothing_kernel 3) = 3%nat)
    by (rewrite length_smoothing_kernel, sample_points_3; reflexivity).
  destruct (smoothing_kernel 3) as [| k0 [| k1 [| k2 [| k3 ks]]]]; try discriminate.
  exists k0, k1, k2. split; [reflexivity |].
  inversion Hpos as [| ? ? H0 Hpos1]; subst.
  inversion Hpos1 as [| ? ? H1 Hpos2]; subst.
  inversion Hpos2 as [| ? ? H2 _]; subst.
  simpl in Hsum. repeat split; try assumption. lra.
Qed.

(** The update of a curve of three cells by a kernel of three weights. *)
Lemma spec_update_width_3 (p a b c k0 k1 k2 : R) :
  smoothing_kernel 3 = [k0; k1; k2] ->
  spec_update 3 p [a; b; c]
  = [p * k2 + p * k1 + b * k0; p * k2 + b * k1 + c * k0; b * k2 + c * k1 + c * k0].
Proof.
  intros Hk. unfold spec_update. cbv zeta. rewrite Hk.
  unfold same_length_convolution, convolve_at, np_sum.
  cbn [length replicate app rev list_insert insert map seq Nat.add Nat.sub Nat.mul Nat.div
       Nat.divmod fst snd take drop firstn skipn nth Nat.leb fold_right].
  f_equal; [ring | f_equal; [ring | f_equal; ring]].
Qed.

(** C1 at the test input (width 3, curve [1, 2, 3], driving potential 1):
    [compute_ocp] returns the value at index 0 of the updated curve, the cell
    that was driven, and the value at index 1 is another, larger one. *)
Theorem compute_ocp_reads_index_0 :
  exists v0 v1 : R,
    fst (compute_ocp test_battery 1 0%nat test_world) = Return v0
    /\ spec_update 3 1 [1; 2; 3] !! 0%nat = Some v0
    /\ spec_update 3 1 [1; 2; 3] !! 1%nat = Some v1
    /\ v0 < v1.
Proof.
  destruct smoothing_kernel_of_width_3 as (k0 & k1 & k2 & Hk & H0 & H1 & H2 & Hsum).
  rewrite (compute_ocp_value test_battery 1 0%nat test_world [1; 2; 3] eq_refl
             ltac:(discriminate) (stored_in_IZR _ _ 1)).
  unfold observed_ocp. cbn [cathode_width test_battery].
  rewrite (spec_update_width_3 1 1 2 3 k0 k1 k2 Hk).
  eexists _, _. repeat split. cbn [nth]. lra.
Qed.


(** And a call that finds the target already met makes one. *)
Lemma solver_makes_one_evaluation :
  evals (snd (get_driver_for_target_ocp test_battery (observed_ocp 3 1 [1; 2; 3])
                test_world)) = 1%nat.
Proof.
  destruct (get_driver_for_target_ocp_run test_battery (observed_ocp 3 1 [1; 2; 3])
              test_world [1; 2; 3] 1 eq_refl eq_refl) as (w' & Hrun & _ & Hev).
  rewrite Hrun. cbn [snd]. rewrite Hev. unfold solver_cost.
  cbn [cathode_width test_battery evals test_world].
  destruct (Req_dec_T _ _) as [_ | Hneq]; [reflexivity | congruence].
Qed.

(** ** The update on an int64 curve *)



(** X25.  On an int64 curve of length N >= 1, for a cathode width of at least
    1 and every driving potential, [compute_charge_curve] returns a reference
    to a new float64 array that holds [spec_update] for the driving potential
    truncated toward zero, the integer that the write of index 0 stores; the
    int64 array passed in is as it was. *)
Theorem compute_charge_curve_on_int64 (self : DiffusionBattery) (p : R) (l : loc)
    (w : World) (zs : list Z) :
  store w !! l = Some (Int64Array zs) -> (1 <= length zs)%nat ->
  (1 <= cathode_width self)%nat ->
  exists (l' : loc) (w' : World),
    compute_charge_curve self p l w = (Return l', w')
    /\ store w' !! l'
       = Some (Float64Array
                 (spec_update (cathode_width self) (IZR (Rtrunc p)) (map IZR zs)))
    /\ arrays w' !! l = Some (map IZR zs)
    /\ IZR (Rtrunc p) - 1 < p < IZR (Rtrunc p) + 1.
Proof.
  intros H Hlen _.
  assert (Harr : arrays w !! l = Some (map IZR zs)).
  { unfold arrays. rewrite list_lookup_fmap. unfold loc in *. rewrite H. reflexivity. }
  destruct (compute_charge_curve_stored self p l w (map IZR zs) Harr
              ltac:(rewrite length_map; exact Hlen))
    as (l' & w' & Hrun & _ & Hnew & Hold).
  exists l', w'. split; [exact Hrun |].
  rewrite (stored_in_lookup w l _ p H) in Hnew. split; [exact Hnew |].
  split; [exact Hold |].
  destruct (Rtrunc_bounds p) as [Hpos Hneg].
  destruct (Rle_dec 0 p) as [Hp | Hp]; [specialize (Hpos Hp) | specialize (Hneg ltac:(lra))];
    lra.
Qed.

(** [DiffusionBattery()] with its default arguments, the int64 curve of
    [Charge.get_init_vals], and the driving potential 1.5. *)
Lemma compute_charge_curve_on_int64_initial_battery :
  exists (l' : loc) (w' : World),
    compute_charge_curve initial_battery (3 / 2) 0%nat initial_world = (Return l', w')
    /\ store w' !! l'
       = Some (Float64Array
                 (spec_update config_N (IZR (Rtrunc (3 / 2)))
                    (map IZR (replicate config_N 0%Z))))
    /\ arrays w' !! 0%nat = Some (map IZR (replicate config_N 0%Z))
    /\ IZR (Rtrunc (3 / 2)) - 1 < 3 / 2 < IZR (Rtrunc (3 / 2)) + 1.
Proof.
  apply (compute_charge_curve_on_int64 initial_battery (3 / 2) 0%nat initial_world
           (replicate config_N 0%Z)).
  - reflexivity.
  - rewrite length_replicate. unfold config_N. lia.
  - unfold initial_battery, config_N. simpl. lia.
Defined.

(** ** The kernel of a width that is a multiple of ten

    For [W = 10 k] (the shipped width is 1000) [3 * sigma = 3 k] is a whole
    number: there are [6 k + 1] sample points, an odd number, running from
    [-3 k] to [3 k] and symmetric about zero. *)

Lemma INR_multiple_of_ten (k : nat) : INR (10 * k) / 10 = INR k.
Proof. rewrite mult_INR. replace (INR 10) with 10 by (simpl; lra). field. Qed.

Lemma sample_points_multiple_of_ten (k : nat) :
  sample_points (10 * k) = map (fun i => INR i - 3 * INR k) (seq 0 (6 * k + 1)).
Proof.
  unfold sample_points, np_arange. cbv zeta. rewrite INR_multiple_of_ten.
  match goal with
  | |- context [Rceil ?e] =>
      replace (Rceil e) with (Z.of_nat (6 * k + 1))
  end.
  - rewrite Nat2Z.id. apply map_ext. intros i. lra.
  - symmetry. apply Rceil_unique. rewrite <- INR_IZR_INZ, plus_INR, mult_INR.
    replace (INR 6) with 6 by (simpl; lra). replace (INR 1) with 1 by reflexivity.
    lra.
Qed.

Lemma sample_points_symmetric (k i : nat) :
  (i <= 6 * k)%nat ->
  nth i (sample_points (10 * k)) 0 = - nth (6 * k - i) (sample_points (10 * k)) 0.
Proof.
  intros Hi. rewrite sample_points_multiple_of_ten.
  set (f := fun i : nat => INR i - 3 * INR k).
  rewrite !(nth_indep (map f _) 0 (f 0%nat)) by (rewrite length_map, length_seq; lia).
  rewrite !map_nth, !seq_nth by lia. unfold f. cbn [Nat.add].
  rewrite minus_INR by lia. rewrite mult_INR.
  replace (INR 6) with 6 by (simpl; lra). lra.
Qed.

Lemma length_sample_points_multiple_of_ten (k : nat) :
  length (sample_points (10 * k)) = (2 * (3 * k) + 1)%nat.
Proof. rewrite sample_points_multiple_of_ten, length_map, length_seq. lia. Qed.

(** ** The cycling program *)

Section Advance.

Variable cfg : Config.
Variables (battery : DiffusionBattery) (current : R).

(** One level of [advance], step by step. *)

Lemma advance_CHARGE_CC (d : nat) (inc : bool) (self : TesterProgram) (w : World) :
  step self = "CHARGE_CC"%string ->
  advance cfg (S d) battery current inc (self, w)
  = if Rge_dec (ocp battery) (CHARGE_CV cfg)
    then advance cfg d battery current false (with_step "CHARGE_CV" (entered inc self), w)
    else Some (assign_driver (entered inc self)
                 (get_driver_for_target_current battery (CHARGE_CC cfg) w)).
Proof. intros H. cbn [advance]. rewrite H. reflexivity. Qed.

Lemma advance_CHARGE_CV (d : nat) (inc : bool) (self : TesterProgram) (w : World) :
  step self = "CHARGE_CV"%string ->
  advance cfg (S d) battery current inc (self, w)
  = if Rlt_dec current (ZERO_CURRENT_THRESHOLD cfg)
    then advance cfg d battery current false (with_step "REST" (entered inc self), w)
    else Some (assign_driver (entered inc self)
                 (get_driver_for_target_ocp battery (CHARGE_CV cfg) w)).
Proof. intros H. cbn [advance]. rewrite H. reflexivity. Qed.

Lemma advance_REST (d : nat) (inc : bool) (self : TesterProgram) (w : World) :
  step self = "REST"%string ->
  advance cfg (S d) battery current inc (self, w)
  = if (REST_TIMESTEPS cfg <? timesteps_in_step self)%Z
    then advance cfg d battery current false
           (with_step "DISCHARGE_CC" (entered inc self), w)
    else Some (assign_driver (entered inc self)
                 (get_driver_for_target_current battery 0 w)).
Proof. intros H. cbn [advance]. rewrite H. reflexivity. Qed.

Lemma advance_DISCHARGE_CC (d : nat) (inc : bool) (self : TesterProgram) (w : World) :
  step self = "DISCHARGE_CC"%string ->
  advance cfg (S d) battery current inc (self, w)
  = if Rle_dec (ocp battery) (DISCHARGE_CV cfg)
    then advance cfg d battery current false
           (with_step "DISCHARGE_CV" (entered inc self), w)
    else Some (assign_driver (entered inc self)
                 (get_driver_for_target_current battery (- CHARGE_CC cfg) w)).
Proof. intros H. cbn [advance]. rewrite H. reflexivity. Qed.

Lemma advance_DISCHARGE_CV (d : nat) (inc : bool) (self : TesterProgram) (w : World) :
  step self = "DISCHARGE_CV"%string ->
  advance cfg (S d) battery current inc (self, w)
  = if Rgt_dec current (- ZERO_CURRENT_THRESHOLD cfg)
    then advance cfg d battery current false (with_step "CHARGE_CC" (entered inc self), w)
    else Some (assign_driver (entered inc self)
                 (get_driver_for_target_ocp battery (DISCHARGE_CV cfg) w)).
Proof. intros H. cbn [advance]. rewrite H. reflexivity. Qed.

Lemma advance_unrecognized (d : nat) (inc : bool) (self : TesterProgram) (w : World) :
  step self <> "CHARGE_CC"%string -> step self <> "CHARGE_CV"%string ->
  step self <> "REST"%string -> step self <> "DISCHARGE_CC"%string ->
  step self <> "DISCHARGE_CV"%string ->
  advance cfg (S d) battery current inc (self, w)
  = Some (Raise (UnrecognizedTestStep (step self)), (entered inc self, w)).
Proof.
  intros H1 H2 H3 H4 H5. cbn [advance].
  destruct (String.eqb_spec (step self) "CHARGE_CC"); [contradiction |].
  destruct (String.eqb_spec (step self) "CHARGE_CV"); [contradiction |].
  destruct (String.eqb_spec (step self) "REST"); [contradiction |].
  destruct (String.eqb_spec (step self) "DISCHARGE_CC"); [contradiction |].
  destruct (String.eqb_spec (step self) "DISCHARGE_CV"); [contradiction |].
  reflexivity.
Qed.

End Advance.

Lemma assign_driver_keeps_counters (self : TesterProgram) (r : outcome R * World) :
  timestep (fst (snd (assign_driver self r))) = timestep self
  /\ timesteps_in_step (fst (snd (assign_driver self r))) = timesteps_in_step self
  /\ step (fst (snd (assign_driver self r))) = step self.
Proof. destruct r as [[d | e] w]; simpl; auto. Qed.

Lemma entered_false (self : TesterProgram) : entered false self = self.
Proof. reflexivity. Qed.

Lemma timestep_entered (inc : bool) (self : TesterProgram) :
  timestep (entered inc self) = (if inc then timestep self + 1 else timestep self)%Z.
Proof. destruct inc; reflexivity. Qed.

(** A call that settles in its step: it returns, with the counters that the
    call entered with. *)
Ltac settled :=
  eexists; split; [reflexivity |];
  match goal with
  | |- context [assign_driver ?s ?r] =>
      destruct (assign_driver_keeps_counters s r) as (-> & -> & _)
  | _ => idtac
  end;
  rewrite ?entered_false; cbn [fst snd timestep timesteps_in_step with_step];
  split; reflexivity.

Ltac test_of_exit :=
  match goal with
  | |- context [Rge_dec ?a ?b] => destruct (Rge_dec a b)
  | |- context [Rlt_dec ?a ?b] => destruct (Rlt_dec a b)
  | |- context [(?a <? ?b)%Z] => destruct (Z.ltb_spec a b)
  | |- context [Rle_dec ?a ?b] => destruct (Rle_dec a b)
  | |- context [Rgt_dec ?a ?b] => destruct (Rgt_dec a b)
  end.

(** One level of [advance] in a known step: the exit fires against the
    thresholds' order, or the call settles, or it goes one level down. *)
Ltac one_level :=
  first
    [ rewrite advance_CHARGE_CC by reflexivity
    | rewrite advance_CHARGE_CV by reflexivity
    | rewrite advance_REST by reflexivity
    | rewrite advance_DISCHARGE_CC by reflexivity
    | rewrite advance_DISCHARGE_CV by reflexivity ];
  test_of_exit;
  try (exfalso; lra);
  try settled.

(** With [CHARGE_CV > DISCHARGE_CV], five nested calls are enough, and the
    call leaves both counters as it entered with them: incremented once when
    it was asked to, and never reset, whatever changes of step it made. *)
Lemma advance_within_five_calls (cfg : Config) (battery : DiffusionBattery)
    (current : R) (inc : bool) (self : TesterProgram) (w : World) (k : nat) :
  DISCHARGE_CV cfg < CHARGE_CV cfg ->
  exists r : outcome unit * (TesterProgram * World),
    advance cfg (5 + k) battery current inc (self, w) = Some r
    /\ timestep (fst (snd r)) = timestep (entered inc self)
    /\ timesteps_in_step (fst (snd r)) = timesteps_in_step (entered inc self).
Proof.
  intros Hcv. cbn [Nat.add].
  destruct (String.eqb_spec (step self) "CHARGE_CC") as [Hcc | Hncc].
  { rewrite advance_CHARGE_CC by exact Hcc. test_of_exit; [| settled].
    do 4 (try one_level). }
  destruct (String.eqb_spec (step self) "CHARGE_CV") as [Hcv' | Hncv].
  { rewrite advance_CHARGE_CV by exact Hcv'. test_of_exit; [| settled].
    do 4 (try one_level). }
  destruct (String.eqb_spec (step self) "REST") as [Hr | Hnr].
  { rewrite advance_REST by exact Hr. test_of_exit; [| settled].
    do 4 (try one_level). }
  destruct (String.eqb_spec (step self) "DISCHARGE_CC") as [Hdcc | Hndcc].
  { rewrite advance_DISCHARGE_CC by exact Hdcc. test_of_exit; [| settled].
    do 4 (try one_level). }
  destruct (String.eqb_spec (step self) "DISCHARGE_CV") as [Hdcv | Hndcv].
  { rewrite advance_DISCHARGE_CV by exact Hdcv. test_of_exit; [| settled].
    do 4 (try one_level). }
  rewrite advance_unrecognized by assumption. settled.
Qed.

(** C10.  When [CHARGE_CV > DISCHARGE_CV], a call of [advance] returns or
    raises within five nested calls, its own and at most four re-entrant ones
    after changes of step, whatever the step, the battery, the current and
    the flag; and the global timestep counter has increased by exactly one
    after a call with [increment_timesteps = True] (by nothing after a call
    with [False]). *)
Theorem advance_terminates (cfg : Config) (battery : DiffusionBattery) (current : R)
    (increment_timesteps : bool) (self : TesterProgram) (w : World) (k : nat) :
  DISCHARGE_CV cfg < CHARGE_CV cfg ->
  exists r : outcome unit * (TesterProgram * World),
    advance cfg (5 + k) battery current increment_timesteps (self, w) = Some r
    /\ timestep (fst (snd r))
       = (if increment_timesteps then timestep self + 1 else timestep self)%Z.
Proof.
  intros Hcv.
  destruct (advance_within_five_calls cfg battery current increment_timesteps self w k Hcv)
    as (r & Hrun & Ht & _).
  exists r. split; [exact Hrun |].
  rewrite Ht. apply timestep_entered.
Qed.

(** The shipped thresholds, the program and the battery as they start. *)
Lemma advance_terminates_shipped_config :
  exists r : outcome unit * (TesterProgram * World),
    advance config (5 + 0) test_battery 0 true (new_program config, test_world) = Some r
    /\ timestep (fst (snd r)) = (timestep (new_program config) + 1)%Z.
Proof.
  apply (advance_terminates config test_battery 0 true (new_program config) test_world 0).
  simpl. lra.
Defined.

(** Four changes of step in one call do occur: from CHARGE_CV, with no
    current, after timestep 20 and at 0 volts, the call goes through REST,
    DISCHARGE_CC and DISCHARGE_CV and settles in CHARGE_CC.  Four nested calls
    are not enough for it, five are. *)
Lemma advance_four_changes_of_step :
  advance config 4 battery_at_0V 0 true (late_program, test_world) = None
  /\ exists r, advance config 5 battery_at_0V 0 true (late_program, test_world) = Some r
               /\ step (fst (snd r)) = "CHARGE_CC"%string.
Proof.
  split.
  - rewrite advance_CHARGE_CV by reflexivity.
    destruct (Rlt_dec _ _) as [_ | Hn]; [| exfalso; apply Hn; simpl; lra].
    rewrite advance_REST by reflexivity.
    rewrite advance_DISCHARGE_CC by reflexivity.
    destruct (Rle_dec _ _) as [_ | Hn]; [| exfalso; apply Hn; simpl; lra].
    rewrite advance_DISCHARGE_CV by reflexivity.
    destruct (Rgt_dec _ _) as [_ | Hn]; [| exfalso; apply Hn; simpl; lra].
    reflexivity.
  - rewrite advance_CHARGE_CV by reflexivity.
    destruct (Rlt_dec _ _) as [_ | Hn]; [| exfalso; apply Hn; simpl; lra].
    rewrite advance_REST by reflexivity.
    rewrite advance_DISCHARGE_CC by reflexivity.
    destruct (Rle_dec _ _) as [_ | Hn]; [| exfalso; apply Hn; simpl; lra].
    rewrite advance_DISCHARGE_CV by reflexivity.
    destruct (Rgt_dec _ _) as [_ | Hn]; [| exfalso; apply Hn; simpl; lra].
    rewrite advance_CHARGE_CC by reflexivity.
    destruct (Rge_dec _ _) as [Hy | _]; [exfalso; simpl in Hy; lra |].
    eexists. split; [reflexivity |].
    destruct (assign_driver_keeps_counters
                (entered false (with_step "CHARGE_CC"
                   (entered false (with_step "DISCHARGE_CV"
                      (entered false (with_step "DISCHARGE_CC"
                         (entered false (with_step "REST" (entered true late_program)))))))))
                (get_driver_for_target_current battery_at_0V (CHARGE_CC config) test_world))
      as (_ & _ & ->).
    reflexivity.
Qed.

(** C2 at a concrete input.  A program in CHARGE_CV at timestep 30 advances
    with a current below the threshold and a battery at 2 volts: the one call
    enters REST and leaves it for DISCHARGE_CC.  REST has lasted no consumed
    timestep: the counter tested against REST_TIMESTEPS is 31, the count of
    all the program's timesteps. *)
Theorem rest_left_in_the_call_that_enters_it :
  exists r : outcome unit * (TesterProgram * World),
    advance config 5 battery_at_2V 0 true (late_program, test_world) = Some r
    /\ step (fst (snd r)) = "DISCHARGE_CC"%string
    /\ timestep (fst (snd r)) = 31%Z
    /\ timesteps_in_step (fst (snd r)) = 31%Z.
Proof.
  rewrite advance_CHARGE_CV by reflexivity.
  destruct (Rlt_dec _ _) as [_ | Hn]; [| exfalso; apply Hn; simpl; lra].
  rewrite advance_REST by reflexivity.
  rewrite advance_DISCHARGE_CC by reflexivity.
  destruct (Rle_dec _ _) as [Hy | _]; [exfalso; simpl in Hy; lra |].
  eexists. split; [reflexivity |].
  destruct (assign_driver_keeps_counters
              (entered false (with_step "DISCHARGE_CC"
                 (entered false (with_step "REST" (entered true late_program)))))
              (get_driver_for_target_current battery_at_2V (- CHARGE_CC config) test_world))
    as (-> & -> & ->).
  repeat split.
Qed.

(** The defect behind it, for any thresholds in order: a program that leaves
    CHARGE_CV once its counter has reached REST_TIMESTEPS goes through REST
    within the call, and the call ends in a later step. *)
Lemma rest_lasts_no_timestep (cfg : Config) (battery : DiffusionBattery) (current : R)
    (self : TesterProgram) (w : World) (k : nat) :
  DISCHARGE_CV cfg < CHARGE_CV cfg ->
  step self = "CHARGE_CV"%string ->
  current < ZERO_CURRENT_THRESHOLD cfg ->
  (REST_TIMESTEPS cfg <= timesteps_in_step self)%Z ->
  exists r : outcome unit * (TesterProgram * World),
    advance cfg (5 + k) battery current true (self, w) = Some r
    /\ (step (fst (snd r)) = "DISCHARGE_CC"%string
        \/ step (fst (snd r)) = "DISCHARGE_CV"%string
        \/ step (fst (snd r)) = "CHARGE_CC"%string).
Proof.
  intros Hcv Hstep Hcur Hrest. cbn [Nat.add].
  rewrite advance_CHARGE_CV by exact Hstep.
  destruct (Rlt_dec _ _) as [_ | Hn]; [| contradiction].
  rewrite advance_REST by reflexivity.
  destruct (Z.ltb_spec (REST_TIMESTEPS cfg)
              (timesteps_in_step (with_step "REST" (entered true self))))
    as [_ | Hle]; [| cbn in Hle; lia].
  rewrite advance_DISCHARGE_CC by reflexivity.
  destruct (Rle_dec _ _) as [Hlow | _].
  - rewrite advance_DISCHARGE_CV by reflexivity.
    destruct (Rgt_dec _ _) as [_ | _].
    + rewrite advance_CHARGE_CC by reflexivity.
      destruct (Rge_dec _ _) as [Hhigh | _]; [exfalso; lra |].
      eexists. split; [reflexivity |].
      match goal with
      | |- context [assign_driver ?s ?r] =>
          destruct (assign_driver_keeps_counters s r) as (_ & _ & ->)
      end.
      right. right. reflexivity.
    + eexists. split; [reflexivity |].
      match goal with
      | |- context [assign_driver ?s ?r] =>
          destruct (assign_driver_keeps_counters s r) as (_ & _ & ->)
      end.
      right. left. reflexivity.
  - eexists. split; [reflexivity |].
    match goal with
    | |- context [assign_driver ?s ?r] =>
        destruct (assign_driver_keeps_counters s r) as (_ & _ & ->)
    end.
    left. reflexivity.
Qed.

(** ** Sums and the convolution *)

Lemma np_sum_app (xs ys : list R) : np_sum (xs ++ ys) = np_sum xs + np_sum ys.
Proof. induction xs as [| x xs IH]; simpl; [lra | rewrite IH; lra]. Qed.

Lemma np_sum_map_zero {A : Type} (f : A -> R) (l : list A) :
  (forall a, In a l -> f a = 0) -> np_sum (map f l) = 0.
Proof.
  induction l as [| a l IH]; intros H; simpl; [reflexivity |].
  rewrite (H a) by (left; reflexivity).
  rewrite IH by (intros b Hb; apply H; right; exact Hb). lra.
Qed.

Lemma np_sum_map_ext {A : Type} (f g : A -> R) (l : list A) :
  (forall a, In a l -> f a = g a) -> np_sum (map f l) = np_sum (map g l).
Proof.
  induction l as [| a l IH]; intros H; simpl; [reflexivity |].
  rewrite (H a) by (left; reflexivity).
  rewrite IH by (intros b Hb; apply H; right; exact Hb). reflexivity.
Qed.

(** A sum over [s, s + n) read backwards. *)
Lemma np_sum_seq_reversed (f : nat -> R) (s n : nat) :
  np_sum (map f (seq s n))
  = np_sum (map (fun t => f (s + n - 1 - t)%nat) (seq 0 n)).
Proof.
  revert s. induction n as [| n IH]; intros s; [reflexivity |].
  change (seq s (S n)) with (s :: seq (S s) n).
  rewrite (seq_S n 0), map_app, np_sum_app.
  change (np_sum (map f (s :: seq (S s) n))) with (f s + np_sum (map f (seq (S s) n))).
  rewrite (IH (S s)). cbn [map np_sum fold_right Nat.add].
  replace (s + S n - 1 - n)%nat with s by lia.
  rewrite Rplus_0_r, Rplus_comm. f_equal.
  apply np_sum_map_ext. intros t Ht. apply in_seq in Ht. f_equal. lia.
Qed.

Lemma np_sum_nth (v : list R) :
  np_sum (map (fun t => nth t v 0) (seq 0 (length v))) = np_sum v.
Proof.
  induction v as [| x v IH]; [reflexivity |].
  cbn [length seq map np_sum fold_right nth].
  rewrite <- seq_shift, map_map. fold (np_sum v). rewrite <- IH. reflexivity.
Qed.

(** Entry [k] of the convolution as a sum over the kernel: each weight [v[t]]
    meets the entry [a[k - t]]. *)
Lemma convolve_at_over_kernel (a v : list R) (k : nat) :
  (length v <= S k)%nat -> (k < length a)%nat ->
  convolve_at a v k
  = np_sum (map (fun t => nth (k - t) a 0 * nth t v 0) (seq 0 (length v))).
Proof.
  intros Hv Ha. unfold convolve_at.
  set (g := fun j : nat => if (j <=? k)%nat then nth j a 0 * nth (k - j) v 0 else 0).
  replace (length a) with ((S k - length v) + (length v + (length a - S k)))%nat by lia.
  rewrite !seq_app, !map_app, !np_sum_app. cbn [Nat.add].
  rewrite (np_sum_map_zero g (seq 0 (S k - length v))).
  2:{ intros j Hj. apply in_seq in Hj. unfold g.
      destruct (Nat.leb_spec j k); [| reflexivity].
      rewrite (nth_overflow v) by lia. lra. }
  rewrite (np_sum_map_zero g (seq _ (length a - S k))).
  2:{ intros j Hj. apply in_seq in Hj. unfold g.
      destruct (Nat.leb_spec j k); [lia | reflexivity]. }
  rewrite np_sum_seq_reversed. rewrite Rplus_0_l, Rplus_0_r.
  apply np_sum_map_ext. intros t Ht. apply in_seq in Ht. unfold g.
  destruct (Nat.leb_spec (S k - length v + length v - 1 - t) k); [| lia].
  replace (S k - length v + length v - 1 - t)%nat with (k - t)%nat by lia.
  replace (k - (k - t))%nat with t by lia. reflexivity.
Qed.

(** A weighted mean stays between the bounds of what it averages. *)
Lemma weighted_mean_bounds (lo hi : R) (f : nat -> R) (v : list R) :
  Forall (fun x => 0 <= x) v ->
  (forall t, (t < length v)%nat -> lo <= f t <= hi) ->
  lo * np_sum v
  <= np_sum (map (fun t => f t * nth t v 0) (seq 0 (length v)))
  <= hi * np_sum v.
Proof.
  revert f. induction v as [| x v IH]; intros f Hpos Hf.
  - simpl. lra.
  - inversion Hpos as [| ? ? Hx Hv]; subst.
    cbn [length seq map np_sum fold_right nth].
    rewrite <- seq_shift, map_map.
    specialize (IH (fun t => f (S t)) Hv).
    assert (Hf' : forall t, (t < length v)%nat -> lo <= f (S t) <= hi)
      by (intros t Ht; apply Hf; simpl; lia).
    specialize (IH Hf').
    fold (np_sum v).
    fold (np_sum (map (fun t => f (S t) * nth t v 0) (seq 0 (length v)))).
    assert (H0 : lo <= f 0%nat <= hi) by (apply Hf; simpl; lia).
    nra.
Qed.

(** ** The cells of the new curve, one by one *)

Lemma nth_map_seq (f : nat -> R) (n i : nat) :
  (i < n)%nat -> nth i (map f (seq 0 n)) 0 = f i.
Proof.
  intros Hi. rewrite (nth_indep _ 0 (f 0%nat)) by (rewrite length_map, length_seq; lia).
  rewrite map_nth, seq_nth by lia. reflexivity.
Qed.

Lemma length_extended (W : nat) (p : R) (xs : list R) :
  length (extended W p xs)
  = (2 * length (smoothing_kernel W) + 2 * length xs)%nat.
Proof.
  unfold extended. cbv zeta.
  rewrite !length_app, !length_replicate, length_rev, length_insert. lia.
Qed.

(** Cell [i] of the new curve is entry [cell_index W i] of the convolution of
    the extended array with the kernel. *)
Lemma nth_spec_update (W : nat) (p : R) (xs : list R) (i : nat) :
  (i < length xs)%nat ->
  nth i (spec_update W p xs) 0
  = convolve_at (extended W p xs) (smoothing_kernel W) (cell_index W i).
Proof.
  intros Hi. unfold spec_update. cbv zeta. fold (extended W p xs).
  rewrite nth_skipn, nth_firstn, length_same_length_convolution, length_extended.
  destruct (Nat.ltb_spec (2 * length (smoothing_kernel W) + i)
              (2 * length (smoothing_kernel W) + 2 * length xs - length xs)) as [_ | Hge];
    [| lia].
  unfold same_length_convolution. rewrite nth_map_seq by (rewrite length_extended; lia).
  reflexivity.
Qed.

(** The kernel is at most [6 W / 10 + 2] samples long; when [3 W <= 10 N] its
    half-width is at most [N]. *)
Lemma length_smoothing_kernel_bound (W : nat) :
  (10 * length (smoothing_kernel W) < 6 * W + 20)%nat.
Proof.
  rewrite length_smoothing_kernel, length_sample_points.
  set (c := Rceil (6 * (INR W / 10) + 1)).
  destruct (Rceil_bounds (6 * (INR W / 10) + 1)) as [Hlo _]. fold c in Hlo.
  assert (Hz : (10 * c < 6 * Z.of_nat W + 20)%Z).
  { apply lt_IZR. rewrite plus_IZR, !mult_IZR, <- INR_IZR_INZ. lra. }
  lia.
Qed.

Lemma kernel_half_width (W N : nat) :
  (3 * W <= 10 * N)%nat -> ((length (smoothing_kernel W) - 1) / 2 <= N)%nat.
Proof.
  intros H. pose proof (length_smoothing_kernel_bound W) as Hk.
  assert (Hdiv : (2 * ((length (smoothing_kernel W) - 1) / 2)
                  <= length (smoothing_kernel W) - 1)%nat)
    by (apply Nat.Div0.mul_div_le).
  lia.
Qed.

(** Past the zero run, the extended array holds the driving potential and
    cells of the curve. *)
Lemma extended_past_zero_run (P : R -> Prop) (W : nat) (p : R) (xs : list R) (j : nat) :
  P p -> Forall P xs ->
  (length (smoothing_kernel W) <= j < length (extended W p xs))%nat ->
  P (nth j (extended W p xs) 0).
Proof.
  intros Hp Hxs [Hlo Hhi]. rewrite length_extended in Hhi.
  unfold extended. cbv zeta.
  rewrite app_nth2 by (rewrite length_replicate; lia). rewrite length_replicate.
  assert (Hy : Forall P (<[0%nat := p]> xs)) by (apply Forall_insert; assumption).
  assert (Hrest : Forall P (replicate (length (smoothing_kernel W)) p
                            ++ <[0%nat := p]> xs ++ rev (<[0%nat := p]> xs))).
  { apply Forall_app. split; [apply Forall_replicate; exact Hp |].
    apply Forall_app. split; [exact Hy | apply Forall_rev; exact Hy]. }
  apply List.Forall_nth; [exact Hrest |].
  rewrite !length_app, length_replicate, length_rev, length_insert. lia.
Qed.

(** The maximum principle.  When the kernel's half-width fits in the curve
    ([3 W <= 10 N]), every cell of the new curve is a weighted mean of the
    driving potential and of cells of the curve: it lies between any bounds
    that hold for them. *)
Lemma spec_update_within_bounds (W : nat) (p lo hi : R) (xs : list R) :
  (1 <= W)%nat -> (3 * W <= 10 * length xs)%nat ->
  lo <= p <= hi -> Forall (fun x => lo <= x <= hi) xs ->
  Forall (fun x => lo <= x <= hi) (spec_update W p xs).
Proof.
  intros HW Hfit Hp Hxs.
  destruct (smoothing_kernel_normalised W HW) as [Hpos Hsum].
  pose proof (kernel_half_width W (length xs) Hfit) as Hhalf.
  pose proof (smoothing_kernel_nonempty W) as Hk.
  apply List.Forall_nth. intros i d Hi. rewrite length_spec_update in Hi.
  rewrite (nth_indep _ d 0) by (rewrite length_spec_update; exact Hi).
  rewrite nth_spec_update by exact Hi.
  assert (Hidx : (cell_index W i < length (extended W p xs))%nat)
    by (rewrite length_extended; unfold cell_index; cbv zeta; lia).
  rewrite convolve_at_over_kernel; [| unfold cell_index; cbv zeta; lia | exact Hidx].
  pose proof (weighted_mean_bounds lo hi
                (fun t => nth (cell_index W i - t) (extended W p xs) 0)
                (smoothing_kernel W)) as Hmean.
  rewrite Hsum, !Rmult_1_r in Hmean. apply Hmean.
  - eapply Forall_impl; [exact Hpos |]. intros x Hx. simpl in Hx. lra.
  - intros t Ht. apply (extended_past_zero_run (fun x => lo <= x <= hi)); try assumption.
    unfold cell_index in *. cbv zeta in *. lia.
Qed.

(** ** The new curve is affine in the driving potential *)

Lemma map_default_Some (p : R) (xs : list R) : map (default p) (map Some xs) = xs.
Proof. induction xs as [| x xs IH]; simpl; [reflexivity | rewrite IH; reflexivity]. Qed.

Lemma map_default_replicate (p : R) (n : nat) (s : option R) :
  map (default p) (replicate n s) = replicate n (default p s).
Proof. induction n as [| n IH]; simpl; [reflexivity | rewrite IH; reflexivity]. Qed.

(** The extended array is the marked one with the driving potential filled in. *)
Lemma extended_marked (W : nat) (p : R) (xs : list R) :
  extended W p xs = map (default p) (marked W xs).
Proof.
  unfold extended, marked. cbv zeta.
  assert (Hy : map (default p) (<[0%nat := None]> (map Some xs)) = <[0%nat := p]> xs).
  { destruct xs as [| x xs]; [reflexivity |]. simpl. rewrite map_default_Some. reflexivity. }
  rewrite !map_app, map_rev, !map_default_replicate, Hy. reflexivity.
Qed.

Lemma default_affine (p : R) (s : option R) :
  default p s = default 0 s + p * (default 1 s - default 0 s).
Proof. destruct s; simpl; ring. Qed.

Lemma np_sum_affine {A : Type} (p : R) (f g h : A -> R) (l : list A) :
  (forall a, In a l -> f a = g a + p * (h a - g a)) ->
  np_sum (map f l) = np_sum (map g l) + p * (np_sum (map h l) - np_sum (map g l)).
Proof.
  induction l as [| a l IH]; intros H; simpl; [ring |].
  rewrite (H a) by (left; reflexivity).
  fold (np_sum (map f l)) (np_sum (map g l)) (np_sum (map h l)).
  rewrite IH by (intros b Hb; apply H; right; exact Hb). ring.
Qed.

Lemma nth_map_default (q : R) (m : list (option R)) (j : nat) :
  (j < length m)%nat -> nth j (map (default q) m) 0 = default q (nth j m (Some 0)).
Proof.
  intros Hj. rewrite (nth_indep _ 0 (default q (Some 0))) by (rewrite length_map; lia).
  apply map_nth.
Qed.

Lemma convolve_at_affine (p : R) (m : list (option R)) (v : list R) (k : nat) :
  convolve_at (map (default p) m) v k
  = convolve_at (map (default 0) m) v k
    + p * (convolve_at (map (default 1) m) v k - convolve_at (map (default 0) m) v k).
Proof.
  unfold convolve_at. rewrite !length_map.
  apply np_sum_affine. intros j Hj. apply in_seq in Hj.
  destruct (Nat.leb_spec j k); [| ring].
  rewrite !nth_map_default by lia. rewrite (default_affine p). ring.
Qed.

(** Cell by cell, the new curve at the driving potential [p] is its value at
    0 plus [p] times the difference of its values at 1 and at 0. *)
Lemma nth_spec_update_affine (W : nat) (p : R) (xs : list R) (i : nat) :
  nth i (spec_update W p xs) 0
  = nth i (spec_update W 0 xs) 0
    + p * (nth i (spec_update W 1 xs) 0 - nth i (spec_update W 0 xs) 0).
Proof.
  destruct (Nat.lt_ge_cases i (length xs)) as [Hi | Hi].
  - rewrite !nth_spec_update by exact Hi. rewrite !extended_marked.
    apply convolve_at_affine.
  - rewrite !nth_overflow by (rewrite length_spec_update; exact Hi). ring.
Qed.

Lemma np_sum_as_nth (xs : list R) :
  np_sum xs = np_sum (map (fun i => nth i xs 0) (seq 0 (length xs))).
Proof. symmetry. apply np_sum_nth. Qed.

Lemma np_sum_spec_update_affine (W : nat) (p : R) (xs : list R) :
  np_sum (spec_update W p xs)
  = np_sum (spec_update W 0 xs)
    + p * (np_sum (spec_update W 1 xs) - np_sum (spec_update W 0 xs)).
Proof.
  rewrite (np_sum_as_nth (spec_update W p xs)), (np_sum_as_nth (spec_update W 0 xs)),
    (np_sum_as_nth (spec_update W 1 xs)).
  rewrite !length_spec_update.
  apply np_sum_affine. intros i _. apply nth_spec_update_affine.
Qed.

Lemma np_sum_insert_0 (p x : R) (xs : list R) :
  np_sum (<[0%nat := p]> (x :: xs)) = np_sum (x :: xs) - x + p.
Proof. simpl. ring. Qed.

(** ** Bounds, equilibrium and superposition of the update *)

(** X1.  On a curve of N >= 1 cells with [1 <= W] and [3 W <= 10 N],
    [compute_charge_curve] returns a curve whose every cell lies between any
    two bounds that hold for the cells of the curve passed in and for the
    value that the working copy holds at index 0 (the driving potential, or
    the driving potential truncated when the curve is an int64 array):
    diffusion creates no new extremum. *)
Theorem compute_charge_curve_maximum_principle (self : DiffusionBattery) (p lo hi : R)
    (l : loc) (w : World) (xs : list R) :
  arrays w !! l = Some xs -> (1 <= length xs)%nat ->
  (1 <= cathode_width self)%nat -> (3 * cathode_width self <= 10 * length xs)%nat ->
  lo <= stored_in w l p <= hi -> Forall (fun x => lo <= x <= hi) xs ->
  exists (l' : loc) (w' : World) (new_curve : list R),
    compute_charge_curve self p l w = (Return l', w')
    /\ arrays w' !! l' = Some new_curve
    /\ length new_curve = length xs
    /\ Forall (fun x => lo <= x <= hi) new_curve.
Proof.
  intros H Hlen HW Hfit Hp Hxs.
  destruct (compute_charge_curve_stored self p l w xs H Hlen)
    as (l' & w' & Hrun & _ & Hnew & _).
  exists l', w', (spec_update (cathode_width self) (stored_in w l p) xs).
  split; [exact Hrun |].
  split; [apply (lookup_store _ _ _ Hnew) |].
  split; [apply length_spec_update |].
  apply spec_update_within_bounds; assumption.
Qed.

Lemma compute_charge_curve_maximum_principle_at_test_input :
  exists (l' : loc) (w' : World) (new_curve : list R),
    compute_charge_curve test_battery (3 / 2) 0%nat float_test_world = (Return l', w')
    /\ arrays w' !! l' = Some new_curve
    /\ length new_curve = 3%nat
    /\ Forall (fun x => 1 <= x <= 3) new_curve.
Proof.
  apply (compute_charge_curve_maximum_principle test_battery (3 / 2) 1 3 0%nat
           float_test_world [1; 2; 3]).
  - reflexivity.
  - simpl. lia.
  - simpl. lia.
  - simpl. lia.
  - unfold stored_in. simpl. lra.
  - repeat constructor; lra.
Defined.

Lemma np_sum_replicate (n : nat) (c : R) : np_sum (replicate n c) = INR n * c.
Proof.
  induction n as [| n IH]; [simpl; ring |].
  rewrite S_INR. cbn [replicate np_sum fold_right]. fold (np_sum (replicate n c)).
  rewrite IH. ring.
Qed.

Lemma flat_curve (c : R) (xs : list R) :
  Forall (fun x => c <= x <= c) xs -> xs = replicate (length xs) c.
Proof.
  induction 1 as [| x xs Hx _ IH]; [reflexivity |].
  simpl. rewrite <- IH. f_equal. lra.
Qed.

(** A flat curve driven at its own level is a fixed point of the update. *)
Lemma spec_update_flat (W n : nat) (c : R) :
  (1 <= W)%nat -> (3 * W <= 10 * n)%nat ->
  spec_update W c (replicate n c) = replicate n c.
Proof.
  intros HW Hfit.
  assert (Hb : Forall (fun x => c <= x <= c) (spec_update W c (replicate n c))).
  { apply spec_update_within_bounds; try assumption.
    - rewrite length_replicate. exact Hfit.
    - lra.
    - apply Forall_replicate. lra. }
  apply flat_curve in Hb. rewrite length_spec_update, length_replicate in Hb. exact Hb.
Qed.

(** What [apply_potential] leaves and returns when the new curve has a cell
    at index 1. *)
Lemma apply_potential_run (self : DiffusionBattery) (potential : R) (w : World)
    (a : ndarray) (v : R) :
  store w !! charge_curve self = Some a -> data a <> [] ->
  spec_update (cathode_width self) (stored a potential) (data a) !! 1%nat = Some v ->
  apply_potential potential (self, w)
  = (Return (v, np_sum (spec_update (cathode_width self) (stored a potential) (data a))
                - soc self),
     ({| soc := np_sum (spec_update (cathode_width self) (stored a potential) (data a));
         ocp := v;
         charge_curve := S (length (arrays w));
         cathode_width := cathode_width self |},
      after_update self potential a w)).
Proof.
  intros H Hne Hv.
  set (new_curve := spec_update (cathode_width self) (stored a potential) (data a)) in *.
  set (l' := S (length (arrays w))).
  set (w' := after_update self potential a w).
  assert (Hnew : arrays w' !! l' = Some new_curve) by apply lookup_after_update_new.
  unfold apply_potential.
  unfold bind at 1. unfold get_self at 1. cbn [fst snd].
  unfold bind at 1. unfold on_world at 1. cbn [fst snd].
  rewrite (compute_charge_curve_run self potential _ w a H Hne).
  fold w' l'.
  unfold bind at 1. unfold set_self at 1. cbn [fst snd].
  unfold bind at 1. unfold on_world at 1. cbn [fst snd].
  rewrite (getitem_run l' 1 w' new_curve v Hnew Hv).
  unfold bind at 1. unfold set_self at 1. cbn [fst snd].
  unfold bind at 1. unfold get_self at 1. cbn [fst snd].
  unfold bind at 1. unfold on_world at 1.
  cbn [fst snd charge_curve with_ocp with_charge_curve].
  rewrite (contents_run l' w' new_curve Hnew).
  unfold bind, set_self, get_self, ret. cbn. reflexivity.
Qed.

(** X2.  The equilibrium of the docstring of [apply_potential].  A battery whose
    curve is flat at the level [c] (N >= 2 cells, [1 <= W], [3 W <= 10 N]) and
    whose soc is the sum of its curve: applying the potential [c] returns the
    ocp [c] and the current 0, and the new curve is the flat curve again. *)
Theorem apply_potential_at_equilibrium (self : DiffusionBattery) (c : R) (w : World)
    (n : nat) :
  arrays w !! charge_curve self = Some (replicate n c) -> (2 <= n)%nat ->
  (1 <= cathode_width self)%nat -> (3 * cathode_width self <= 10 * n)%nat ->
  soc self = np_sum (replicate n c) ->
  exists (self' : DiffusionBattery) (w' : World),
    apply_potential c (self, w) = (Return (c, 0), (self', w'))
    /\ arrays w' !! charge_curve self' = Some (replicate n c)
    /\ ocp self' = c
    /\ soc self' = soc self.
Proof.
  intros H Hn HW Hfit Hsoc.
  assert (Hne : replicate n c <> []) by (destruct n; [lia | discriminate]).
  destruct (lookup_arrays w _ _ H) as (a & Ha & Hdata).
  assert (Hc : stored a c = c).
  { apply (storable_lookup a 0). rewrite Hdata. apply lookup_replicate_2. lia. }
  pose proof (spec_update_flat (cathode_width self) n c HW Hfit) as Hflat.
  assert (Hv : spec_update (cathode_width self) (stored a c) (data a) !! 1%nat = Some c).
  { rewrite Hc, Hdata, Hflat. apply lookup_replicate_2. lia. }
  rewrite (apply_potential_run self c w a c Ha ltac:(rewrite Hdata; exact Hne) Hv).
  pose proof (lookup_after_update_new self c a w) as Hnew.
  rewrite Hc, Hdata, Hflat in *. rewrite <- Hsoc.
  replace (soc self - soc self) with 0 by lra.
  eexists _, _. split; [reflexivity |].
  split; [exact Hnew | split; reflexivity].
Qed.

(** A curve of three cells at the level 2, driven at 2: nothing moves. *)
Lemma apply_potential_at_equilibrium_flat_battery :
  exists (self' : DiffusionBattery) (w' : World),
    apply_potential 2 (flat_battery, flat_world) = (Return (2, 0), (self', w'))
    /\ arrays w' !! charge_curve self' = Some [2; 2; 2]
    /\ ocp self' = 2
    /\ soc self' = soc flat_battery.
Proof.
  apply (apply_potential_at_equilibrium flat_battery 2 flat_world 3).
  - reflexivity.
  - lia.
  - simpl. lia.
  - simpl. lia.
  - simpl. lra.
Defined.

(** X3.  For a cathode width of at least 1 and for each cell there are two
    numbers [a] and [b] such that, whatever the driving potential, the cell
    of the curve that [compute_charge_curve] returns is [a + q * b], where
    [q] is the value that the working copy holds at index 0: the driving
    potential on a float64 array, the driving potential truncated on an int64
    array.  The update is affine in the value written. *)
Theorem compute_charge_curve_affine (self : DiffusionBattery) (l : loc) (w : World)
    (xs : list R) :
  arrays w !! l = Some xs -> (1 <= length xs)%nat ->
  (1 <= cathode_width self)%nat ->
  exists a b : nat -> R,
    forall p : R,
    exists (l' : loc) (w' : World) (new_curve : list R),
      compute_charge_curve self p l w = (Return l', w')
      /\ arrays w' !! l' = Some new_curve
      /\ length new_curve = length xs
      /\ forall i, nth i new_curve 0 = a i + stored_in w l p * b i.
Proof.
  intros H Hlen _.
  exists (fun i => nth i (spec_update (cathode_width self) 0 xs) 0),
    (fun i => nth i (spec_update (cathode_width self) 1 xs) 0
              - nth i (spec_update (cathode_width self) 0 xs) 0).
  intros p.
  destruct (compute_charge_curve_stored self p l w xs H Hlen)
    as (l' & w' & Hrun & _ & Hnew & _).
  exists l', w', (spec_update (cathode_width self) (stored_in w l p) xs).
  split; [exact Hrun |].
  split; [apply (lookup_store _ _ _ Hnew) |].
  split; [apply length_spec_update |].
  intros i. apply nth_spec_update_affine.
Qed.

(** On the float64 curve of the test the cells are affine in the driving
    potential itself. *)
Lemma compute_charge_curve_affine_at_test_input :
  exists a b : nat -> R,
    forall p : R,
    exists (l' : loc) (w' : World) (new_curve : list R),
      compute_charge_curve test_battery p 0%nat float_test_world = (Return l', w')
      /\ arrays w' !! l' = Some new_curve
      /\ length new_curve = 3%nat
      /\ forall i, nth i new_curve 0 = a i + p * b i.
Proof.
  apply (compute_charge_curve_affine test_battery 0%nat float_test_world [1; 2; 3]).
  - reflexivity.
  - simpl. lia.
  - simpl. lia.
Defined.

(** ** The solver is exact on the diffusion model *)

Lemma observed_ocp_clamped (W : nat) (p : R) (xs : list R) :
  observed_ocp W p (<[0%nat := p]> xs) = observed_ocp W p xs.
Proof. unfold observed_ocp. rewrite spec_update_clamped. reflexivity. Qed.

Lemma observed_ocp_affine (W : nat) (p : R) (xs : list R) :
  observed_ocp W p xs
  = observed_ocp W 0 xs + p * (observed_ocp W 1 xs - observed_ocp W 0 xs).
Proof. unfold observed_ocp. apply nth_spec_update_affine. Qed.

(** What the closure [calc_current] computes, as a function of the driving
    potential: the sum of the new curve, less the sum of the curve with its
    boundary cell set to the driving potential. *)
Lemma observed_current_clamped (W : nat) (p p0 : R) (xs : list R) :
  xs !! 0%nat = Some p0 ->
  observed_current W p (<[0%nat := p]> xs)
  = np_sum (spec_update W p xs) - (np_sum xs - p0 + p).
Proof.
  intros H0. unfold observed_current. rewrite spec_update_clamped.
  destruct xs as [| x xs]; [discriminate |]. simpl in H0. injection H0 as ->.
  rewrite np_sum_insert_0. reflexivity.
Qed.

(** The secant step solves an affine observation exactly. *)
Lemma secant_guess_exact (alpha beta p0 v0 v1 target : R) :
  v0 = alpha + p0 * beta -> v1 = alpha + (p0 + 1) * beta -> v0 - v1 <> 0 ->
  alpha + secant_guess p0 v0 v1 target * beta = target.
Proof.
  intros -> -> Hb. unfold secant_guess. cbv zeta. field. lra.
Qed.

(** When the solver returns, there was a boundary value to read. *)
Lemma guess_drive_pot_returns (l : loc) (get_val : R -> loc -> M World R)
    (get_val_dp : loc -> R -> M World R) (target : R) (w : World) (p : R) :
  fst (guess_drive_pot l get_val get_val_dp target w) = Return p ->
  exists xs p0, arrays w !! l = Some xs /\ xs !! 0%nat = Some p0.
Proof.
  intros Hret.
  destruct (arrays w !! l) as [xs |] eqn:H.
  - destruct (xs !! 0%nat) as [p0 |] eqn:H0; [eauto |].
    destruct (guess_drive_pot_no_boundary get_val get_val_dp l w target) as [Hr | Hr];
      [intros xs' p0 Hx Hp; congruence | congruence | congruence].
  - destruct (guess_drive_pot_no_boundary get_val get_val_dp l w target) as [Hr | Hr];
      [intros xs' p0 Hx Hp; congruence | congruence | congruence].
Qed.

(** The driving potential that [get_driver_for_target_ocp] returns brings
    the cell it observes to the target. *)
Lemma solver_ocp_value (self : DiffusionBattery) (target : R) (w : World)
    (xs : list R) (p0 p : R) :
  arrays w !! charge_curve self = Some xs -> xs !! 0%nat = Some p0 ->
  fst (get_driver_for_target_ocp self target w) = Return p ->
  observed_ocp (cathode_width self) p xs = target.
Proof.
  intros H H0 Hret.
  destruct (get_driver_for_target_ocp_run self target w xs p0 H H0) as (w' & Hrun & _).
  rewrite Hrun in Hret. cbn [fst] in Hret.
  rewrite observed_ocp_clamped in Hret.
  set (W := cathode_width self) in *.
  unfold solver_outcome in Hret.
  destruct (Req_dec_T (observed_ocp W p0 xs) target) as [Heq | Hneq].
  - injection Hret as <-. exact Heq.
  - destruct (Req_dec_T (observed_ocp W p0 xs - observed_ocp W (p0 + 1) xs) 0)
      as [Hz | Hnz]; [discriminate |].
    injection Hret as <-.
    rewrite (observed_ocp_affine W (secant_guess _ _ _ _)).
    apply secant_guess_exact; [apply observed_ocp_affine .. | exact Hnz].
Qed.

(** The driving potential that [get_driver_for_target_current] returns
    brings to the target the sum of the new curve less the sum of the curve
    with its boundary cell at the driving potential. *)
Lemma solver_current_value (self : DiffusionBattery) (target : R) (w : World)
    (xs : list R) (p0 p : R) :
  arrays w !! charge_curve self = Some xs -> xs !! 0%nat = Some p0 ->
  fst (get_driver_for_target_current self target w) = Return p ->
  np_sum (spec_update (cathode_width self) p xs) - (np_sum xs - p0 + p) = target.
Proof.
  intros H H0 Hret.
  destruct (get_driver_for_target_current_run self target w xs p0 H H0)
    as (w' & Hrun & _).
  rewrite Hrun in Hret. cbn [fst] in Hret.
  set (W := cathode_width self) in *.
  assert (Hv0 : observed_current W p0 xs
                = observed_current W p0 (<[0%nat := p0]> xs))
    by (rewrite (list_insert_id xs 0 p0 H0); reflexivity).
  rewrite Hv0 in Hret.
  rewrite (observed_current_clamped W p0 p0 xs H0),
    (observed_current_clamped W (p0 + 1) p0 xs H0) in Hret.
  set (alpha := np_sum (spec_update W 0 xs) - np_sum xs + p0).
  set (beta := np_sum (spec_update W 1 xs) - np_sum (spec_update W 0 xs) - 1).
  assert (Haff : forall q, np_sum (spec_update W q xs) - (np_sum xs - p0 + q)
                           = alpha + q * beta).
  { intros q. rewrite (np_sum_spec_update_affine W q xs). unfold alpha, beta. ring. }
  unfold solver_outcome in Hret.
  destruct (Req_dec_T _ target) as [Heq | Hneq].
  - injection Hret as <-. exact Heq.
  - destruct (Req_dec_T _ 0) as [Hz | Hnz]; [discriminate |].
    injection Hret as <-.
    rewrite (Haff (secant_guess _ _ _ _)).
    apply secant_guess_exact; [apply Haff .. | exact Hnz].
Qed.

(** X4.  For a cathode width of at least 1: whenever
    [get_driver_for_target_ocp] returns a driving potential that the curve
    holds as it is (the curve is a float64 array, or the answer is an
    integer), the projection of the repository's test,
    [get_calc_ocp(charge_curve)(p)] evaluated after the call, is the target
    itself: the observation is affine in the driving potential, and the
    secant step solves it exactly. *)
Theorem get_driver_for_target_ocp_meets_target (self : DiffusionBattery)
    (target : R) (w : World) (p : R) :
  (1 <= cathode_width self)%nat ->
  fst (get_driver_for_target_ocp self target w) = Return p ->
  stored_in w (charge_curve self) p = p ->
  exists w'',
    get_calc_ocp self (charge_curve self) p (snd (get_driver_for_target_ocp self target w))
    = (Return target, w'').
Proof.
  intros _ Hret Hp.
  destruct (guess_drive_pot_returns _ _ _ _ _ _ Hret) as (xs & p0 & H & H0).
  assert (Hne : xs <> []) by (destruct xs; [discriminate | congruence]).
  pose proof (solver_ocp_value self target w xs p0 p H H0 Hret) as Hval.
  destruct (get_driver_for_target_ocp_run self target w xs p0 H H0)
    as (w' & Hrun & Hext & _).
  rewrite Hrun. cbn [snd].
  destruct (lookup_arrays w _ xs H) as (a & Ha & Hdata).
  destruct (get_calc_ocp_observes self p (charge_curve self) w' a
              (extends_store _ _ _ _ Hext Ha) ltac:(rewrite Hdata; exact Hne)
              (storable_in_array w _ a p Ha Hp)) as (w'' & Hcalc & _).
  exists w''. rewrite Hcalc, Hdata, observed_ocp_clamped, Hval. reflexivity.
Qed.

(** X5.  The same for the current: whenever [get_driver_for_target_current]
    returns a driving potential that the curve holds as it is,
    [get_calc_current(charge_curve)(p)] evaluated after the call is the
    target. *)
Theorem get_driver_for_target_current_meets_target (self : DiffusionBattery)
    (target : R) (w : World) (p : R) :
  (1 <= cathode_width self)%nat ->
  fst (get_driver_for_target_current self target w) = Return p ->
  stored_in w (charge_curve self) p = p ->
  exists w'',
    get_calc_current self (charge_curve self) p
      (snd (get_driver_for_target_current self target w))
    = (Return target, w'').
Proof.
  intros _ Hret Hp.
  destruct (guess_drive_pot_returns _ _ _ _ _ _ Hret) as (xs & p0 & H & H0).
  assert (Hne : xs <> []) by (destruct xs; [discriminate | congruence]).
  pose proof (solver_current_value self target w xs p0 p H H0 Hret) as Hval.
  destruct (get_driver_for_target_current_run self target w xs p0 H H0)
    as (w' & Hrun & Hext & _).
  rewrite Hrun. cbn [snd].
  destruct (lookup_arrays w _ xs H) as (a & Ha & Hdata).
  destruct (get_calc_current_observes self p (charge_curve self) w' a
              (extends_store _ _ _ _ Hext Ha) ltac:(rewrite Hdata; exact Hne)
              (storable_in_array w _ a p Ha Hp)) as (w'' & Hcalc & _).
  exists w''. rewrite Hcalc, Hdata, (observed_current_clamped _ p p0 xs H0), Hval.
  reflexivity.
Qed.

(** X6.  How the solver and [apply_potential] compose.  On a battery of a
    cathode width of at least 1 whose soc is the sum of its curve (N >= 2
    cells): after [get_driver_for_target_current] has returned a driving
    potential [p] that the curve holds as it is, [apply_potential(p)] returns
    the current [target + (p - charge_curve[0])].  The projection counts the
    boundary cell as already holding [p]; the application counts it as it
    was. *)
Theorem applied_current_after_solver (self : DiffusionBattery) (target : R)
    (w : World) (xs : list R) (p0 p : R) :
  (1 <= cathode_width self)%nat ->
  arrays w !! charge_curve self = Some xs -> xs !! 0%nat = Some p0 ->
  (2 <= length xs)%nat -> soc self = np_sum xs ->
  fst (get_driver_for_target_current self target w) = Return p ->
  stored_in w (charge_curve self) p = p ->
  exists (v : R) (st' : DiffusionBattery * World),
    apply_potential p (self, snd (get_driver_for_target_current self target w))
    = (Return (v, target + (p - p0)), st').
Proof.
  intros _ H H0 Hlen Hsoc Hret Hp.
  assert (Hne : xs <> []) by (destruct xs; [discriminate | congruence]).
  pose proof (solver_current_value self target w xs p0 p H H0 Hret) as Hval.
  destruct (get_driver_for_target_current_run self target w xs p0 H H0)
    as (w' & Hrun & Hext & _).
  rewrite Hrun. cbn [snd].
  destruct (lookup_arrays w _ xs H) as (a & Ha & Hdata).
  pose proof (storable_in_array w _ a p Ha Hp) as Hpa. unfold storable in Hpa.
  set (new_curve := spec_update (cathode_width self) p xs) in *.
  assert (Hnew_len : length new_curve = length xs) by apply length_spec_update.
  destruct (lookup_lt_is_Some_2 new_curve 1 ltac:(lia)) as [v Hv].
  assert (Hv' : spec_update (cathode_width self) (stored a p) (data a) !! 1%nat = Some v)
    by (rewrite Hpa, Hdata; exact Hv).
  rewrite (apply_potential_run self p w' a v (extends_store _ _ _ _ Hext Ha)
             ltac:(rewrite Hdata; exact Hne) Hv').
  rewrite Hpa, Hdata. fold new_curve.
  eexists v, _. do 2 f_equal. f_equal. rewrite Hsoc. lra.
Qed.

(** *** The solver on the battery of the repository's test *)

(** The kernel of the width 3 is skewed: the weight of the sample at -0.9 is
    larger than the weight of the sample at 1.1. *)
Lemma smoothing_kernel_of_width_3_skewed :
  exists k0 k1 k2 : R,
    smoothing_kernel 3 = [k0; k1; k2]
    /\ 0 < k0 /\ 0 < k1 /\ 0 < k2 /\ k0 + k1 + k2 = 1 /\ k2 < k0.
Proof.
  destruct (smoothing_kernel_normalised 3 ltac:(lia)) as [Hpos Hsum].
  revert Hpos Hsum. unfold smoothing_kernel. cbv zeta. rewrite sample_points_3.
  cbn [map]. set (sigma := INR 3 / 10).
  set (s := np_sum _). intros Hpos Hsum.
  inversion Hpos as [| ? ? H0 Hpos1]; subst.
  inversion Hpos1 as [| ? ? H1 Hpos2]; subst.
  inversion Hpos2 as [| ? ? H2 _]; subst.
  eexists _, _, _. split; [reflexivity |].
  cbn [np_sum fold_right] in Hsum.
  repeat split; try assumption; [lra |].
  assert (Hs : 0 < s).
  { unfold s. apply np_sum_positive; [discriminate |].
    repeat constructor; apply gaussian_density_positive; unfold sigma; rewrite INR_3; lra. }
  apply Rmult_lt_compat_r; [apply Rinv_0_lt_compat; exact Hs |].
  unfold gaussian_density. apply Rmult_lt_compat_r.
  - apply Rinv_0_lt_compat, sqrt_lt_R0.
    assert (Hpi := PI_RGT_0). unfold sigma. rewrite INR_3. nra.
  - apply exp_increasing. unfold sigma. rewrite INR_3. lra.
Qed.

Lemma test_solver_returns :
  fst (get_driver_for_target_ocp test_battery 2 test_world) = Return test_drive_pot.
Proof.
  destruct smoothing_kernel_of_width_3 as (k0 & k1 & k2 & Hk & H0 & H1 & H2 & Hsum).
  destruct (get_driver_for_target_ocp_run test_battery 2 test_world [1; 2; 3] 1
              eq_refl eq_refl) as (w' & Hrun & _).
  rewrite Hrun. cbn [fst cathode_width test_battery list_insert insert].
  replace (1 + 1) with 2 by lra.
  unfold test_drive_pot, solver_outcome, observed_ocp.
  rewrite (spec_update_width_3 1 1 2 3 k0 k1 k2 Hk),
    (spec_update_width_3 2 2 2 3 k0 k1 k2 Hk). cbn [nth].
  destruct (Req_dec_T _ 2) as [Heq | _]; [exfalso; lra |].
  destruct (Req_dec_T _ 0) as [Hz | _]; [exfalso; lra | reflexivity].
Qed.

(** The secant step of the test lands on the integer 2, which the int64 curve
    of the test holds as it is. *)
Lemma test_drive_pot_value : test_drive_pot = 2.
Proof.
  destruct smoothing_kernel_of_width_3 as (k0 & k1 & k2 & Hk & H0 & H1 & H2 & Hsum).
  unfold test_drive_pot, observed_ocp.
  rewrite (spec_update_width_3 1 1 2 3 k0 k1 k2 Hk),
    (spec_update_width_3 2 2 2 3 k0 k1 k2 Hk). cbn [nth].
  replace (2 * k2 + 2 * k1 + 2 * k0) with 2 by lra.
  assert (Hv0 : 1 * k2 + 1 * k1 + 2 * k0 - 2 <> 0) by lra.
  set (v0 := 1 * k2 + 1 * k1 + 2 * k0) in *.
  unfold secant_guess. cbv zeta. field. exact Hv0.
Qed.

Lemma test_solver_returns_current :
  fst (get_driver_for_target_current test_battery 15 float_test_world)
  = Return test_drive_pot_current.
Proof.
  destruct smoothing_kernel_of_width_3_skewed
    as (k0 & k1 & k2 & Hk & H0 & H1 & H2 & Hsum & Hskew).
  destruct (get_driver_for_target_current_run test_battery 15 float_test_world
              [1; 2; 3] 1 eq_refl eq_refl) as (w' & Hrun & _).
  rewrite Hrun. cbn [fst cathode_width test_battery list_insert insert].
  replace (1 + 1) with 2 by lra.
  unfold test_drive_pot_current, solver_outcome, observed_current.
  rewrite (spec_update_width_3 1 1 2 3 k0 k1 k2 Hk),
    (spec_update_width_3 2 2 2 3 k0 k1 k2 Hk). cbn [np_sum fold_right].
  destruct (Req_dec_T _ 15) as [Heq | _]; [exfalso; nra |].
  destruct (Req_dec_T _ 0) as [Hz | _]; [exfalso; lra | reflexivity].
Qed.

(** The call of the repository's test, on its int64 curve. *)
Lemma get_driver_for_target_ocp_meets_target_in_the_test :
  fst (get_driver_for_target_ocp test_battery 2 test_world) = Return test_drive_pot
  /\ exists w'',
       get_calc_ocp test_battery 0%nat test_drive_pot
         (snd (get_driver_for_target_ocp test_battery 2 test_world))
       = (Return 2, w'').
Proof.
  split; [exact test_solver_returns |].
  apply (get_driver_for_target_ocp_meets_target test_battery 2 test_world test_drive_pot).
  - simpl. lia.
  - exact test_solver_returns.
  - rewrite test_drive_pot_value. apply (stored_in_IZR test_world 0%nat 2).
Defined.

(** The first target of the shipped program on the float64 curve of the
    test: the solver's answer is no integer. *)
Lemma get_driver_for_target_current_meets_target_float_curve :
  fst (get_driver_for_target_current test_battery 15 float_test_world)
  = Return test_drive_pot_current
  /\ exists w'',
       get_calc_current test_battery 0%nat test_drive_pot_current
         (snd (get_driver_for_target_current test_battery 15 float_test_world))
       = (Return 15, w'').
Proof.
  split; [exact test_solver_returns_current |].
  apply (get_driver_for_target_current_meets_target test_battery 15 float_test_world
           test_drive_pot_current).
  - simpl. lia.
  - exact test_solver_returns_current.
  - reflexivity.
Defined.

(** The battery of the test with its soc set to the sum of its curve, a
    float64 array. *)
Lemma applied_current_after_solver_float_curve :
  exists (v : R) (st' : DiffusionBattery * World),
    apply_potential test_drive_pot_current
      (charged_test_battery,
       snd (get_driver_for_target_current charged_test_battery 15 float_test_world))
    = (Return (v, 15 + (test_drive_pot_current - 1)), st').
Proof.
  apply (applied_current_after_solver charged_test_battery 15 float_test_world
           [1; 2; 3] 1 test_drive_pot_current).
  - simpl. lia.
  - reflexivity.
  - reflexivity.
  - simpl. lia.
  - simpl. lra.
  - exact test_solver_returns_current.
  - reflexivity.
Defined.

(** ** What a call of [advance] leaves *)

Lemma with_step_same (s : string) (self : TesterProgram) :
  step self = s -> with_step s self = self.
Proof. intros <-. destruct self. reflexivity. Qed.

Lemma timesteps_in_step_entered (inc : bool) (self : TesterProgram) :
  (timesteps_in_step self <= timesteps_in_step (entered inc self))%Z.
Proof. destruct inc; simpl; lia. Qed.

(** Whatever the depth, a call that returns has settled in some step [s]:
    the step the call started in, or a later one reached by changes of step.
    It rests only if the counter the call started with had not passed
    REST_TIMESTEPS. *)
Lemma advance_postcondition (cfg : Config) (battery : DiffusionBattery) (current : R)
    (d : nat) :
  forall (inc : bool) (self : TesterProgram) (w : World)
         (r : outcome unit * (TesterProgram * World)),
    advance cfg d battery current inc (self, w) = Some r ->
    exists s : string,
      settled cfg battery current w (with_step s (entered inc self)) r
      /\ (s = "REST"%string -> (timesteps_in_step self <= REST_TIMESTEPS cfg)%Z)
      /\ (recognized (step self) -> recognized s)
      /\ (~ recognized s -> s = step self).
Proof.
  induction d as [| d IH]; intros inc self w r Hrun; [discriminate |].
  assert (Hdown : forall t : string,
             recognized t ->
             advance cfg d battery current false (with_step t (entered inc self), w)
             = Some r ->
             exists s : string,
               settled cfg battery current w (with_step s (entered inc self)) r
               /\ (s = "REST"%string -> (timesteps_in_step self <= REST_TIMESTEPS cfg)%Z)
               /\ (recognized (step self) -> recognized s)
               /\ (~ recognized s -> s = step self)).
  { intros t Ht Hrec. destruct (IH _ _ _ _ Hrec) as (s & Hset & Hrest & Hrecog & Hun).
    exists s. split; [exact Hset |].
    split.
    { intros Hs. specialize (Hrest Hs). cbn [timesteps_in_step with_step] in Hrest.
      pose proof (timesteps_in_step_entered inc self). lia. }
    split; [intros _; apply Hrecog; exact Ht |].
    intros Hs. exfalso. apply Hs, Hrecog. exact Ht. }
  assert (Hstay : forall r0 : outcome R * World,
             (settled cfg battery current w (with_step (step self) (entered inc self))
                (assign_driver (entered inc self) r0)
              -> (step self = "REST"%string ->
                  (timesteps_in_step self <= REST_TIMESTEPS cfg)%Z)
              -> recognized (step self)
              -> r = assign_driver (entered inc self) r0
              -> exists s : string,
                  settled cfg battery current w (with_step s (entered inc self)) r
                  /\ (s = "REST"%string ->
                      (timesteps_in_step self <= REST_TIMESTEPS cfg)%Z)
                  /\ (recognized (step self) -> recognized s)
                  /\ (~ recognized s -> s = step self))).
  { intros r0 Hset Hrest Hrecog ->. exists (step self). repeat split; auto. }
  assert (Hentered : step (entered inc self) = step self) by (destruct inc; reflexivity).
  assert (Hsame : with_step (step self) (entered inc self) = entered inc self)
    by (apply with_step_same; exact Hentered).
  unfold recognized in *.
  destruct (String.eqb_spec (step self) "CHARGE_CC") as [Hs | Hn1].
  { rewrite advance_CHARGE_CC in Hrun by exact Hs.
    destruct (Rge_dec _ _) as [Hfire | Hno];
      [apply (Hdown "CHARGE_CV"%string); [auto 10 | exact Hrun] |].
    injection Hrun as <-. eapply Hstay; [| intros; congruence | auto 10 | reflexivity].
    rewrite Hsame. left. rewrite Hentered. auto. }
  destruct (String.eqb_spec (step self) "CHARGE_CV") as [Hs | Hn2].
  { rewrite advance_CHARGE_CV in Hrun by exact Hs.
    destruct (Rlt_dec _ _) as [Hfire | Hno];
      [apply (Hdown "REST"%string); [auto 10 | exact Hrun] |].
    injection Hrun as <-. eapply Hstay; [| intros; congruence | auto 10 | reflexivity].
    rewrite Hsame. right; left. rewrite Hentered. auto. }
  destruct (String.eqb_spec (step self) "REST") as [Hs | Hn3].
  { rewrite advance_REST in Hrun by exact Hs.
    destruct (Z.ltb_spec (REST_TIMESTEPS cfg) (timesteps_in_step self)) as [Hfire | Hno];
      [apply (Hdown "DISCHARGE_CC"%string); [auto 10 | exact Hrun] |].
    injection Hrun as <-. eapply Hstay; [| intros; exact Hno | auto 10 | reflexivity].
    rewrite Hsame. right; right; left. rewrite Hentered. auto. }
  destruct (String.eqb_spec (step self) "DISCHARGE_CC") as [Hs | Hn4].
  { rewrite advance_DISCHARGE_CC in Hrun by exact Hs.
    destruct (Rle_dec _ _) as [Hfire | Hno];
      [apply (Hdown "DISCHARGE_CV"%string); [auto 10 | exact Hrun] |].
    injection Hrun as <-. eapply Hstay; [| intros; congruence | auto 10 | reflexivity].
    rewrite Hsame. right; right; right; left. rewrite Hentered. auto. }
  destruct (String.eqb_spec (step self) "DISCHARGE_CV") as [Hs | Hn5].
  { rewrite advance_DISCHARGE_CV in Hrun by exact Hs.
    destruct (Rgt_dec _ _) as [Hfire | Hno];
      [apply (Hdown "CHARGE_CC"%string); [auto 10 | exact Hrun] |].
    injection Hrun as <-. eapply Hstay; [| intros; congruence | auto 10 | reflexivity].
    rewrite Hsame. right; right; right; right; left. rewrite Hentered. auto. }
  rewrite advance_unrecognized in Hrun by assumption. injection Hrun as <-.
  exists (step self). split.
  { rewrite Hsame. right; right; right; right; right. rewrite Hentered.
    split; [unfold recognized; tauto | reflexivity]. }
  split; [intros; congruence |]. split; auto.
Qed.

Lemma settled_program (cfg : Config) (battery : DiffusionBattery) (current : R)
    (w : World) (self' : TesterProgram) (r : outcome unit * (TesterProgram * World)) :
  settled cfg battery current w self' r ->
  step (fst (snd r)) = step self'
  /\ timestep (fst (snd r)) = timestep self'
  /\ timesteps_in_step (fst (snd r)) = timesteps_in_step self'
  /\ (forall e, fst r = Raise e -> driver (fst (snd r)) = driver self').
Proof.
  assert (Hassign : forall r0 : outcome R * World,
             step (fst (snd (assign_driver self' r0))) = step self'
             /\ timestep (fst (snd (assign_driver self' r0))) = timestep self'
             /\ timesteps_in_step (fst (snd (assign_driver self' r0)))
                = timesteps_in_step self'
             /\ (forall e, fst (assign_driver self' r0) = Raise e ->
                           driver (fst (snd (assign_driver self' r0))) = driver self')).
  { intros [[d | e0] w0]; simpl; repeat split; auto; discriminate. }
  intros [(_ & _ & ->) | [(_ & _ & ->) | [(_ & ->) | [(_ & _ & ->) | [(_ & _ & ->)
           | (_ & ->)]]]]]; try apply Hassign.
  simpl. repeat split; auto.
Qed.

(** The call follows the exits that fire, each on the counter that the call
    in that step reads, and settles in a step whose exit does not fire. *)
Lemma advance_reaches (cfg : Config) (battery : DiffusionBattery) (current : R)
    (d : nat) :
  forall (inc : bool) (self : TesterProgram) (w : World)
         (r : outcome unit * (TesterProgram * World)),
    advance cfg d battery current inc (self, w) = Some r ->
    exists (s : string) (c : Z),
      reaches cfg battery current (timesteps_in_step (entered inc self))
        (timesteps_in_step self) (step self) c s
      /\ settled cfg battery current w (with_step s (entered inc self)) r
      /\ (s = "REST"%string -> (c <= REST_TIMESTEPS cfg)%Z).
Proof.
  induction d as [| d IH]; intros inc self w r Hrun; [discriminate |].
  assert (Hdown : forall t : string,
             fires cfg battery current (timesteps_in_step self) (step self) t ->
             advance cfg d battery current false (with_step t (entered inc self), w)
             = Some r ->
             exists (s : string) (c : Z),
               reaches cfg battery current (timesteps_in_step (entered inc self))
                 (timesteps_in_step self) (step self) c s
               /\ settled cfg battery current w (with_step s (entered inc self)) r
               /\ (s = "REST"%string -> (c <= REST_TIMESTEPS cfg)%Z)).
  { intros t Hfires Hrec. destruct (IH _ _ _ _ Hrec) as (s & c & Hreach & Hset & Hrest).
    exists s, c. split; [| split; [exact Hset | exact Hrest]].
    eapply reaches_next; [exact Hfires | exact Hreach]. }
  assert (Hentered : step (entered inc self) = step self) by (destruct inc; reflexivity).
  assert (Hsame : with_step (step self) (entered inc self) = entered inc self)
    by (apply with_step_same; exact Hentered).
  assert (Hstay : settled cfg battery current w (entered inc self) r ->
                  (step self = "REST"%string ->
                   (timesteps_in_step self <= REST_TIMESTEPS cfg)%Z) ->
                  exists (s : string) (c : Z),
                    reaches cfg battery current (timesteps_in_step (entered inc self))
                      (timesteps_in_step self) (step self) c s
                    /\ settled cfg battery current w (with_step s (entered inc self)) r
                    /\ (s = "REST"%string -> (c <= REST_TIMESTEPS cfg)%Z)).
  { intros Hset Hrest. exists (step self), (timesteps_in_step self).
    split; [apply reaches_here |]. rewrite Hsame. split; assumption. }
  destruct (String.eqb_spec (step self) "CHARGE_CC") as [Hs | Hn1].
  { rewrite advance_CHARGE_CC in Hrun by exact Hs.
    destruct (Rge_dec _ _) as [Hfire | Hno];
      [apply (Hdown "CHARGE_CV"%string);
       [rewrite Hs; apply fires_CHARGE_CC; exact Hfire | exact Hrun] |].
    injection Hrun as <-. apply Hstay; [| intros; congruence].
    left. rewrite Hentered. auto. }
  destruct (String.eqb_spec (step self) "CHARGE_CV") as [Hs | Hn2].
  { rewrite advance_CHARGE_CV in Hrun by exact Hs.
    destruct (Rlt_dec _ _) as [Hfire | Hno];
      [apply (Hdown "REST"%string);
       [rewrite Hs; apply fires_CHARGE_CV; exact Hfire | exact Hrun] |].
    injection Hrun as <-. apply Hstay; [| intros; congruence].
    right; left. rewrite Hentered. auto. }
  destruct (String.eqb_spec (step self) "REST") as [Hs | Hn3].
  { rewrite advance_REST in Hrun by exact Hs.
    destruct (Z.ltb_spec (REST_TIMESTEPS cfg) (timesteps_in_step self)) as [Hfire | Hno];
      [apply (Hdown "DISCHARGE_CC"%string);
       [rewrite Hs; apply fires_REST; exact Hfire | exact Hrun] |].
    injection Hrun as <-. apply Hstay; [| intros; exact Hno].
    right; right; left. rewrite Hentered. auto. }
  destruct (String.eqb_spec (step self) "DISCHARGE_CC") as [Hs | Hn4].
  { rewrite advance_DISCHARGE_CC in Hrun by exact Hs.
    destruct (Rle_dec _ _) as [Hfire | Hno];
      [apply (Hdown "DISCHARGE_CV"%string);
       [rewrite Hs; apply fires_DISCHARGE_CC; exact Hfire | exact Hrun] |].
    injection Hrun as <-. apply Hstay; [| intros; congruence].
    right; right; right; left. rewrite Hentered. auto. }
  destruct (String.eqb_spec (step self) "DISCHARGE_CV") as [Hs | Hn5].
  { rewrite advance_DISCHARGE_CV in Hrun by exact Hs.
    destruct (Rgt_dec _ _) as [Hfire | Hno];
      [apply (Hdown "CHARGE_CC"%string);
       [rewrite Hs; apply fires_DISCHARGE_CV; exact Hfire | exact Hrun] |].
    injection Hrun as <-. apply Hstay; [| intros; congruence].
    right; right; right; right; left. rewrite Hentered. auto. }
  rewrite advance_unrecognized in Hrun by assumption. injection Hrun as <-.
  apply Hstay; [| intros; congruence].
  right; right; right; right; right. rewrite Hentered.
  split; [unfold recognized; tauto | reflexivity].
Qed.

(** An exit leads to one of the five steps, so a step that is none of the
    five is reached only by starting in it. *)
Lemma fires_recognized (cfg : Config) (battery : DiffusionBattery) (current : R)
    (counter : Z) (s t : string) :
  fires cfg battery current counter s t -> recognized t.
Proof. intros Hf. unfold recognized. destruct Hf; tauto. Qed.

Lemma reaches_unrecognized (cfg : Config) (battery : DiffusionBattery) (current : R)
    (later counter counter' : Z) (s u : string) :
  reaches cfg battery current later counter s counter' u ->
  ~ recognized u -> u = s.
Proof.
  intros Hr Hun. induction Hr as [| c c' s t u Hf Hr IH]; [reflexivity |].
  exfalso. apply Hun. rewrite (IH Hun). exact (fires_recognized _ _ _ _ _ _ Hf).
Qed.

Lemma reaches_recognized (cfg : Config) (battery : DiffusionBattery) (current : R)
    (later counter counter' : Z) (s u : string) :
  reaches cfg battery current later counter s counter' u ->
  recognized s -> recognized u.
Proof.
  intros Hr. induction Hr as [| c c' s t u Hf Hr IH]; [auto |].
  intros _. apply IH. exact (fires_recognized _ _ _ _ _ _ Hf).
Qed.

(** The counter read in the step reached is that of the first call or the
    one that the first call left. *)
Lemma reaches_counter (cfg : Config) (battery : DiffusionBattery) (current : R)
    (later counter counter' : Z) (s u : string) :
  reaches cfg battery current later counter s counter' u ->
  counter' = counter \/ counter' = later.
Proof.
  intros Hr. induction Hr as [| c c' s t u Hf Hr IH]; [left; reflexivity |].
  right. destruct IH; assumption.
Qed.

(** X14.  With the thresholds in order, a call of [advance] follows the exits
    that fire, from the step it starts in to a step [s], and ends settled in
    [s].  Each exit fires on the ocp of the battery, on the current of the
    call and on the counter [timesteps_in_step] as the call in that step
    reads it: the value of before the increment in the first call, the value
    the first call left in the calls after it.  In [s] the exit does not
    fire: the driver is assigned from what the solver answers for the target
    of [s], and when [s] is REST the counter read there, and so the counter
    of before the call, is at most REST_TIMESTEPS.  From one of the five
    steps [s] is one of the five; a step that is none of the five is left as
    it is, and the call raises "Unrecognized Test Step". *)
Theorem advance_settles (cfg : Config) (battery : DiffusionBattery) (current : R)
    (increment_timesteps : bool) (self : TesterProgram) (w : World) (k : nat) :
  DISCHARGE_CV cfg < CHARGE_CV cfg ->
  exists (r : outcome unit * (TesterProgram * World)) (s : string) (c : Z),
    advance cfg (5 + k) battery current increment_timesteps (self, w) = Some r
    /\ reaches cfg battery current
         (timesteps_in_step (entered increment_timesteps self))
         (timesteps_in_step self) (step self) c s
    /\ settled cfg battery current w (with_step s (entered increment_timesteps self)) r
    /\ (s = "REST"%string ->
        (c <= REST_TIMESTEPS cfg)%Z
        /\ (timesteps_in_step self <= REST_TIMESTEPS cfg)%Z)
    /\ (recognized (step self) -> recognized s)
    /\ (~ recognized s -> s = step self).
Proof.
  intros Hcv.
  destruct (advance_within_five_calls cfg battery current increment_timesteps self w k Hcv)
    as (r & Hrun & _).
  destruct (advance_reaches cfg battery current _ _ _ _ _ Hrun)
    as (s & c & Hreach & Hset & Hrest).
  exists r, s, c. split; [exact Hrun |]. split; [exact Hreach |].
  split; [exact Hset |]. split.
  { intros Hs. specialize (Hrest Hs). split; [exact Hrest |].
    pose proof (timesteps_in_step_entered increment_timesteps self) as Hle.
    destruct (reaches_counter _ _ _ _ _ _ _ _ Hreach) as [Hc | Hc]; lia. }
  split; [exact (reaches_recognized _ _ _ _ _ _ _ _ Hreach) |].
  intros Hun. exact (reaches_unrecognized _ _ _ _ _ _ _ _ Hreach Hun).
Qed.

(** A call that changes the step and settles in REST: the shipped program in
    CHARGE_CV at timestep 5, the current 0 under the threshold.  The call
    reads the counter 5, the call in REST reads 6, at most 20. *)
Lemma advance_settles_in_REST :
  exists (r : outcome unit * (TesterProgram * World)) (s : string) (c : Z),
    (advance config (5 + 0) battery_at_2V 0 true (early_program, test_world) = Some r
     /\ reaches config battery_at_2V 0 6 5 "CHARGE_CV" c s
     /\ settled config battery_at_2V 0 test_world
          (with_step s (entered true early_program)) r
     /\ (s = "REST"%string -> (c <= 20)%Z /\ (5 <= 20)%Z)
     /\ (recognized "CHARGE_CV" -> recognized s)
     /\ (~ recognized s -> s = "CHARGE_CV"%string))
    /\ s = "REST"%string /\ c = 6%Z.
Proof.
  destruct (advance_settles config battery_at_2V 0 true early_program test_world 0)
    as (r & s & c & Hrun & Hreach & Hset & Hrest & Hrec & Hun).
  { simpl. lra. }
  exists r, s, c.
  assert (Hs : s = "REST"%string).
  { destruct (settled_program _ _ _ _ _ _ Hset) as (Hstep & _).
    cbn [step with_step] in Hstep. rewrite <- Hstep. clear - Hrun.
    change (5 + 0)%nat with 5%nat in Hrun.
    rewrite advance_CHARGE_CV in Hrun by reflexivity.
    destruct (Rlt_dec _ _) as [_ | Hno]; [| exfalso; apply Hno; simpl; lra].
    rewrite advance_REST in Hrun by reflexivity.
    cbn [Z.ltb Z.compare REST_TIMESTEPS config timesteps_in_step with_step entered
         increment early_program Z.add Pos.add Pos.succ Pos.compare Pos.compare_cont]
      in Hrun.
    injection Hrun as <-.
    destruct (get_driver_for_target_current battery_at_2V 0 test_world) as [[d | e0] w0];
      reflexivity. }
  split; [exact (conj Hrun (conj Hreach (conj Hset (conj Hrest (conj Hrec Hun))))) |].
  split; [exact Hs |].
  subst s. inversion Hreach as [| ? ? ? ? ? Hf Hlater]; subst.
  inversion Hf; subst. inversion Hlater as [| ? ? ? ? ? Hf2 _]; subst; [reflexivity |].
  inversion Hf2; subst. simpl in *. lia.
Defined.





(** X16.  [timesteps_in_step] is incremented with [timestep] and never reset:
    when the two counters are equal before a call, as in a new program, they
    are equal after it, whatever changes of step the call made. *)
Theorem advance_keeps_the_counters_equal (cfg : Config) (battery : DiffusionBattery)
    (current : R) (increment_timesteps : bool) (self : TesterProgram) (w : World)
    (k : nat) :
  DISCHARGE_CV cfg < CHARGE_CV cfg ->
  timesteps_in_step self = timestep self ->
  exists r : outcome unit * (TesterProgram * World),
    advance cfg (5 + k) battery current increment_timesteps (self, w) = Some r
    /\ timesteps_in_step (fst (snd r)) = timestep (fst (snd r)).
Proof.
  intros Hcv Heq.
  destruct (advance_within_five_calls cfg battery current increment_timesteps self w k Hcv)
    as (r & Hrun & Ht & Hs).
  exists r. split; [exact Hrun |].
  rewrite Ht, Hs. destruct increment_timesteps; simpl; lia.
Qed.

Lemma advance_keeps_the_counters_equal_new_program :
  exists r : outcome unit * (TesterProgram * World),
    advance config (5 + 0) test_battery 0 true (new_program config, test_world) = Some r
    /\ timesteps_in_step (fst (snd r)) = timestep (fst (snd r)).
Proof.
  apply (advance_keeps_the_counters_equal config test_battery 0 true (new_program config)
           test_world 0).
  - simpl. lra.
  - reflexivity.
Defined.

(** X17.  With the thresholds in order, a call that starts with the counter
    [timesteps_in_step] past REST_TIMESTEPS does not end in REST, whatever
    step it starts in. *)
Theorem advance_never_rests_late (cfg : Config) (battery : DiffusionBattery)
    (current : R) (increment_timesteps : bool) (self : TesterProgram) (w : World)
    (k : nat) :
  DISCHARGE_CV cfg < CHARGE_CV cfg ->
  (REST_TIMESTEPS cfg < timesteps_in_step self)%Z ->
  exists r : outcome unit * (TesterProgram * World),
    advance cfg (5 + k) battery current increment_timesteps (self, w) = Some r
    /\ step (fst (snd r)) <> "REST"%string.
Proof.
  intros Hcv Hlate.
  destruct (advance_within_five_calls cfg battery current increment_timesteps self w k Hcv)
    as (r & Hrun & _).
  destruct (advance_postcondition cfg battery current _ _ _ _ _ Hrun)
    as (s & Hset & Hrest & _).
  exists r. split; [exact Hrun |].
  destruct (settled_program _ _ _ _ _ _ Hset) as (Hstep & _).
  rewrite Hstep. cbn [step with_step]. intros Hs. specialize (Hrest Hs). lia.
Qed.

Lemma advance_never_rests_late_example :
  exists r : outcome unit * (TesterProgram * World),
    advance config (5 + 0) battery_at_2V 0 true (late_program, test_world) = Some r
    /\ step (fst (snd r)) <> "REST"%string.
Proof.
  apply (advance_never_rests_late config battery_at_2V 0 true late_program test_world 0).
  - simpl. lra.
  - simpl. lia.
Defined.

(** On the empty curve the solver raises IndexError at the read of
    [charge_curve[0]], before any evaluation. *)
Lemma solver_for_current_empty_curve (self : DiffusionBattery) (target : R) (w : World) :
  arrays w !! charge_curve self = Some [] ->
  get_driver_for_target_current self target w = (Raise IndexError, w).
Proof.
  intros H.
  assert (Hget : getitem (charge_curve self) 0 w = (Raise IndexError, w))
    by (apply (getitem_out_of_range _ _ _ [] H); reflexivity).
  unfold get_driver_for_target_current, guess_drive_pot.
  rewrite (bind_raise _ _ _ _ _ Hget). reflexivity.
Qed.

(** X18.  With the thresholds in order: when a call of [advance] raises, the driver
    keeps the value it had, while the counters have been incremented and the
    step is the one the call had reached. *)
Theorem advance_raise_keeps_the_driver (cfg : Config) (battery : DiffusionBattery)
    (current : R) (increment_timesteps : bool) (self : TesterProgram) (w : World)
    (k : nat) :
  DISCHARGE_CV cfg < CHARGE_CV cfg ->
  exists r : outcome unit * (TesterProgram * World),
    advance cfg (5 + k) battery current increment_timesteps (self, w) = Some r
    /\ forall e, fst r = Raise e ->
         driver (fst (snd r)) = driver self
         /\ timestep (fst (snd r)) = timestep (entered increment_timesteps self).
Proof.
  intros Hcv.
  destruct (advance_within_five_calls cfg battery current increment_timesteps self w k Hcv)
    as (r & Hrun & Ht & _).
  destruct (advance_postcondition cfg battery current _ _ _ _ _ Hrun) as (s & Hset & _).
  exists r. split; [exact Hrun |].
  destruct (settled_program _ _ _ _ _ _ Hset) as (_ & _ & _ & Hdriver).
  intros e He. split; [| exact Ht].
  rewrite (Hdriver e He). destruct increment_timesteps; reflexivity.
Qed.

(** A call that raises: the first call of the shipped program on a battery
    with the empty curve, where the solver raises IndexError.  The driver is
    the initial one, the counter of the program has gone from 1 to 2. *)
Lemma advance_raise_keeps_the_driver_empty_curve :
  exists r : outcome unit * (TesterProgram * World),
    advance config (5 + 0) test_battery 0 true (new_program config, empty_curve_world)
    = Some r
    /\ fst r = Raise IndexError
    /\ driver (fst (snd r)) = DPOT_INIT config
    /\ timestep (fst (snd r)) = 2%Z.
Proof.
  destruct (advance_raise_keeps_the_driver config test_battery 0 true
              (new_program config) empty_curve_world 0) as (r & Hrun & Hraise).
  { simpl. lra. }
  exists r. split; [exact Hrun |].
  assert (He : fst r = Raise IndexError).
  { change (5 + 0)%nat with 5%nat in Hrun.
    rewrite advance_CHARGE_CC in Hrun by reflexivity.
    destruct (Rge_dec _ _) as [Hge | _]; [simpl in Hge; lra |].
    rewrite (solver_for_current_empty_curve test_battery _ empty_curve_world eq_refl)
      in Hrun.
    injection Hrun as <-. reflexivity. }
  split; [exact He |]. exact (Hraise _ He).
Defined.

(** ** The kernel, the line through two points, and the edges of the solver *)

(** X7.  For a width of at least 1 the weights of the kernel are positive and sum
    to 1, and their number lies between [0.6 W + 1] and [0.6 W + 2]. *)
Theorem kernel_weights_normalised (W : nat) :
  (1 <= W)%nat ->
  Forall (fun k => 0 < k) (smoothing_kernel W)
  /\ np_sum (smoothing_kernel W) = 1
  /\ (6 * W + 10 <= 10 * length (smoothing_kernel W) < 6 * W + 20)%nat.
Proof.
  intros HW. destruct (smoothing_kernel_normalised W HW) as [Hpos Hsum].
  split; [exact Hpos |]. split; [exact Hsum |].
  split; [| apply length_smoothing_kernel_bound].
  rewrite length_smoothing_kernel, length_sample_points.
  set (c := Rceil (6 * (INR W / 10) + 1)).
  destruct (Rceil_bounds (6 * (INR W / 10) + 1)) as [_ Hhi]. fold c in Hhi.
  assert (Hz : (6 * Z.of_nat W + 10 <= 10 * c)%Z).
  { apply le_IZR. rewrite plus_IZR, !mult_IZR, <- INR_IZR_INZ. lra. }
  lia.
Qed.

Lemma kernel_weights_normalised_shipped_width :
  Forall (fun k => 0 < k) (smoothing_kernel config_N)
  /\ np_sum (smoothing_kernel config_N) = 1
  /\ (6 * config_N + 10 <= 10 * length (smoothing_kernel config_N)
      < 6 * config_N + 20)%nat.
Proof.
  apply (kernel_weights_normalised config_N). unfold config_N. lia.
Defined.

Lemma gaussian_density_even (sigma x : R) :
  gaussian_density sigma (- x) = gaussian_density sigma x.
Proof. unfold gaussian_density. replace ((- x) ^ 2) with (x ^ 2) by ring. reflexivity. Qed.

Lemma nth_smoothing_kernel (W i : nat) :
  (i < length (sample_points W))%nat ->
  nth i (smoothing_kernel W) 0
  = gaussian_density (INR W / 10) (nth i (sample_points W) 0)
    / np_sum (map (gaussian_density (INR W / 10)) (sample_points W)).
Proof.
  intros Hi. unfold smoothing_kernel. cbv zeta.
  set (s := np_sum _). set (g := gaussian_density _).
  rewrite (nth_indep _ 0 (g 0 / s)) by (rewrite !length_map; exact Hi).
  rewrite (map_nth (fun x => x / s)).
  rewrite (map_nth g). reflexivity.
Qed.

(** X8.  For a width [W = 10 k] the kernel has [6 k + 1] weights, an odd number;
    the sample points come in pairs [+x, -x] around the middle one, and the
    two weights of a pair are equal. *)
Theorem kernel_symmetric_for_multiples_of_ten (k i : nat) :
  (i <= 6 * k)%nat ->
  length (smoothing_kernel (10 * k)) = (2 * (3 * k) + 1)%nat
  /\ nth i (sample_points (10 * k)) 0 = - nth (6 * k - i) (sample_points (10 * k)) 0
  /\ nth i (smoothing_kernel (10 * k)) 0 = nth (6 * k - i) (smoothing_kernel (10 * k)) 0.
Proof.
  intros Hi.
  pose proof (length_sample_points_multiple_of_ten k) as Hlen.
  split; [rewrite length_smoothing_kernel; exact Hlen |].
  split; [apply sample_points_symmetric; exact Hi |].
  rewrite !nth_smoothing_kernel by (rewrite Hlen; lia).
  rewrite (sample_points_symmetric k i Hi), gaussian_density_even. reflexivity.
Qed.

(** The shipped width, 1000: the first weight and the last one. *)
Lemma kernel_symmetric_for_the_shipped_width :
  length (smoothing_kernel (10 * 100)) = (2 * (3 * 100) + 1)%nat
  /\ nth 0 (sample_points (10 * 100)) 0
     = - nth (6 * 100 - 0) (sample_points (10 * 100)) 0
  /\ nth 0 (smoothing_kernel (10 * 100)) 0
     = nth (6 * 100 - 0) (smoothing_kernel (10 * 100)) 0.
Proof.
  apply (kernel_symmetric_for_multiples_of_ten 100 0). lia.
Defined.

(** X9.  [get_slope_intercept] raises ZeroDivisionError when the two points have
    the same first coordinate, and otherwise returns the slope and intercept
    of the line through both points. *)
Theorem get_slope_intercept_line (x1 y1 x2 y2 : R) :
  (x1 = x2 -> get_slope_intercept (x1, y1) (x2, y2) = Raise ZeroDivisionError)
  /\ (x1 <> x2 ->
      exists slope intercept : R,
        get_slope_intercept (x1, y1) (x2, y2) = Return (slope, intercept)
        /\ slope * x1 + intercept = y1
        /\ slope * x2 + intercept = y2).
Proof.
  unfold get_slope_intercept. cbn [fst snd].
  destruct (Req_dec_T (x1 - x2) 0) as [Hz | Hnz].
  - split; [reflexivity | intros Hne; exfalso; apply Hne; lra].
  - split; [intros Heq; exfalso; apply Hnz; lra |].
    intros _. eexists _, _. split; [reflexivity |]. split; field; exact Hnz.
Qed.

Lemma guess_drive_pot_no_boundary_store (l : loc) (get_val : R -> loc -> M World R)
    (get_val_dp : loc -> R -> M World R) (target : R) (w : World) :
  (forall xs p0, arrays w !! l = Some xs -> xs !! 0%nat = Some p0 -> False) ->
  snd (guess_drive_pot l get_val get_val_dp target w) = w.
Proof.
  intros Hnone. unfold guess_drive_pot, bind at 1, getitem, bind, contents.
  destruct (arrays w !! l) as [xs |] eqn:H; [| reflexivity].
  destruct (xs !! 0%nat) as [p0 |] eqn:H0; [| reflexivity].
  exfalso. eapply Hnone; eauto.
Qed.

Lemma guess_drive_pot_extends (cost cost_paired : nat)
    (get_val : R -> loc -> M World R) (get_val_dp : loc -> R -> M World R)
    (f : R -> list R -> R) (l : loc) (target : R) (w : World) :
  observes cost get_val f -> observes_paired cost_paired get_val_dp f ->
  extends w (snd (guess_drive_pot l get_val get_val_dp target w)).
Proof.
  intros Hobs Hpaired.
  destruct (arrays w !! l) as [xs |] eqn:H.
  - destruct (xs !! 0%nat) as [p0 |] eqn:H0.
    + destruct (guess_drive_pot_run cost cost_paired get_val get_val_dp f Hobs Hpaired
                  l w xs p0 target H H0) as (w' & -> & Hext & _). exact Hext.
    + rewrite guess_drive_pot_no_boundary_store by (intros; congruence).
      unfold extends. reflexivity.
  - rewrite guess_drive_pot_no_boundary_store by (intros; congruence).
    unfold extends. reflexivity.
Qed.

(** X10.  The solver works on copies: whatever it is asked and however it ends,
    every array of the store, the battery's curve among them, holds after the
    call what it held before. *)
Theorem solver_keeps_the_arrays (self : DiffusionBattery) (target : R) (w : World)
    (l : loc) (xs : list R) :
  arrays w !! l = Some xs ->
  arrays (snd (get_driver_for_target_current self target w)) !! l = Some xs
  /\ arrays (snd (get_driver_for_target_ocp self target w)) !! l = Some xs.
Proof.
  intros H. split.
  - eapply extends_lookup; [| exact H].
    apply (guess_drive_pot_extends 1 1 _ _ (observed_current (cathode_width self))
             _ _ _ (compute_current_observes self) (get_calc_current_observes self)).
  - eapply extends_lookup; [| exact H].
    apply (guess_drive_pot_extends 1 1 _ _ (observed_ocp (cathode_width self))
             _ _ _ (compute_ocp_observes self) (get_calc_ocp_observes self)).
Qed.

Lemma solver_keeps_the_arrays_at_test_input :
  arrays (snd (get_driver_for_target_current test_battery 15 test_world)) !! 0%nat
  = Some [1; 2; 3]
  /\ arrays (snd (get_driver_for_target_ocp test_battery 15 test_world)) !! 0%nat
     = Some [1; 2; 3].
Proof.
  apply (solver_keeps_the_arrays test_battery 15 test_world 0%nat [1; 2; 3]).
  reflexivity.
Defined.

(** X11.  No adjustment when none is needed: if [compute_ocp], or [compute_current],
    at the present boundary value [charge_curve[0]] returns the target, the
    solver returns that boundary value. *)
Theorem solver_returns_the_boundary_value_on_target (self : DiffusionBattery)
    (w : World) (xs : list R) (p0 : R) :
  arrays w !! charge_curve self = Some xs -> xs !! 0%nat = Some p0 ->
  (forall target,
      fst (compute_ocp self p0 (charge_curve self) w) = Return target ->
      fst (get_driver_for_target_ocp self target w) = Return p0)
  /\ (forall target,
         fst (compute_current self p0 (charge_curve self) w) = Return target ->
         fst (get_driver_for_target_current self target w) = Return p0).
Proof.
  intros H H0.
  assert (Hne : xs <> []) by (destruct xs; [discriminate | congruence]).
  pose proof (stored_in_element w _ xs 0 p0 H H0) as Hp0.
  split; intros target Hobs.
  - rewrite (compute_ocp_value self p0 _ w xs H Hne Hp0) in Hobs.
    injection Hobs as Hobs.
    destruct (get_driver_for_target_ocp_run self target w xs p0 H H0) as (w' & -> & _).
    cbn [fst]. unfold solver_outcome.
    destruct (Req_dec_T _ target) as [_ | Hn]; [reflexivity | contradiction].
  - rewrite (compute_current_value self p0 _ w xs H Hne Hp0) in Hobs.
    injection Hobs as Hobs.
    destruct (get_driver_for_target_current_run self target w xs p0 H H0)
      as (w' & -> & _).
    cbn [fst]. unfold solver_outcome.
    destruct (Req_dec_T _ target) as [_ | Hn]; [reflexivity | contradiction].
Qed.

Lemma solver_returns_the_boundary_value_on_target_at_test_input :
  (forall target,
      fst (compute_ocp test_battery 1 0%nat test_world) = Return target ->
      fst (get_driver_for_target_ocp test_battery target test_world) = Return 1)
  /\ (forall target,
         fst (compute_current test_battery 1 0%nat test_world) = Return target ->
         fst (get_driver_for_target_current test_battery target test_world) = Return 1).
Proof.
  apply (solver_returns_the_boundary_value_on_target test_battery test_world [1; 2; 3] 1).
  - reflexivity.
  - reflexivity.
Defined.

(** *** The empty curve and the curve of one cell *)

Lemma compute_charge_curve_empty_run (self : DiffusionBattery) (p : R) (l : loc)
    (w : World) (a : ndarray) :
  store w !! l = Some a -> data a = [] ->
  compute_charge_curve self p l w
  = (Raise IndexError, {| store := store w ++ [a]; evals := S (evals w) |}).
Proof.
  intros H Hdata. unfold compute_charge_curve.
  rewrite (bind_run _ _ w {| store := store w; evals := S (evals w) |} tt eq_refl).
  rewrite (bind_run _ _ _ _ _
             (np_copy_run l {| store := store w; evals := S (evals w) |} a H)).
  unfold bind, setitem.
  rewrite lookup_alloc_fresh, Hdata. reflexivity.
Qed.

(** X12.  On the empty curve, the default of [Battery.__init__], every operation of
    the battery raises IndexError: the update at the write of index 0, the
    solver at the read of [charge_curve[0]]; and [apply_potential] leaves the
    battery as it was. *)
Theorem empty_curve_raises_IndexError (self : DiffusionBattery) (p target : R)
    (w : World) :
  arrays w !! charge_curve self = Some [] ->
  fst (compute_charge_curve self p (charge_curve self) w) = Raise IndexError
  /\ fst (compute_current self p (charge_curve self) w) = Raise IndexError
  /\ fst (compute_ocp self p (charge_curve self) w) = Raise IndexError
  /\ get_driver_for_target_current self target w = (Raise IndexError, w)
  /\ get_driver_for_target_ocp self target w = (Raise IndexError, w)
  /\ exists w', apply_potential p (self, w) = (Raise IndexError, (self, w')).
Proof.
  intros H. destruct (lookup_arrays w _ [] H) as (a & Ha & Hdata).
  pose proof (compute_charge_curve_empty_run self p _ w a Ha Hdata) as Hrun.
  split; [rewrite Hrun; reflexivity |].
  split; [unfold compute_current; rewrite (bind_raise _ _ _ _ _ Hrun); reflexivity |].
  split; [unfold compute_ocp; rewrite (bind_raise _ _ _ _ _ Hrun); reflexivity |].
  assert (Hget : getitem (charge_curve self) 0 w = (Raise IndexError, w))
    by (apply (getitem_out_of_range _ _ _ [] H); reflexivity).
  split; [unfold get_driver_for_target_current, guess_drive_pot;
          rewrite (bind_raise _ _ _ _ _ Hget); reflexivity |].
  split; [unfold get_driver_for_target_ocp, guess_drive_pot;
          rewrite (bind_raise _ _ _ _ _ Hget); reflexivity |].
  eexists. unfold apply_potential.
  unfold bind at 1. unfold get_self at 1. cbn [fst snd].
  unfold bind at 1. unfold on_world at 1. cbn [fst snd].
  rewrite Hrun. reflexivity.
Qed.

Lemma empty_curve_raises_IndexError_example :
  fst (compute_charge_curve test_battery 1 0%nat empty_curve_world) = Raise IndexError
  /\ fst (compute_current test_battery 1 0%nat empty_curve_world) = Raise IndexError
  /\ fst (compute_ocp test_battery 1 0%nat empty_curve_world) = Raise IndexError
  /\ get_driver_for_target_current test_battery 2 empty_curve_world
     = (Raise IndexError, empty_curve_world)
  /\ get_driver_for_target_ocp test_battery 2 empty_curve_world
     = (Raise IndexError, empty_curve_world)
  /\ exists w',
       apply_potential 1 (test_battery, empty_curve_world)
       = (Raise IndexError, (test_battery, w')).
Proof.
  apply (empty_curve_raises_IndexError test_battery 1 2 empty_curve_world).
  reflexivity.
Defined.

(** X13.  On a curve of one cell [apply_potential] raises IndexError at the read of
    index 1, after it has replaced the battery's curve: the battery is left
    with the new curve and with the ocp and the soc of before the call. *)
Theorem apply_potential_one_cell (self : DiffusionBattery) (potential : R)
    (w : World) (x : R) :
  arrays w !! charge_curve self = Some [x] ->
  exists (self' : DiffusionBattery) (w' : World),
    apply_potential potential (self, w) = (Raise IndexError, (self', w'))
    /\ arrays w' !! charge_curve self'
       = Some (spec_update (cathode_width self)
                 (stored_in w (charge_curve self) potential) [x])
    /\ charge_curve self' <> charge_curve self
    /\ ocp self' = ocp self
    /\ soc self' = soc self.
Proof.
  intros H. destruct (lookup_arrays w _ [x] H) as (a & Ha & Hdata).
  exists (with_charge_curve (S (length (arrays w))) self),
    (after_update self potential a w).
  split; [apply apply_potential_single_cell; [exact Ha | rewrite Hdata; reflexivity] |].
  split.
  { rewrite (stored_in_lookup w _ a potential Ha), <- Hdata.
    apply lookup_after_update_new. }
  split; [| split; reflexivity].
  cbn [charge_curve with_charge_curve].
  apply lookup_lt_Some in H. lia.
Qed.

Lemma apply_potential_one_cell_example :
  exists (self' : DiffusionBattery) (w' : World),
    apply_potential 1 (test_battery, single_cell_world) = (Raise IndexError, (self', w'))
    /\ arrays w' !! charge_curve self' = Some (spec_update 3 1 [5])
    /\ charge_curve self' <> 0%nat
    /\ ocp self' = 0
    /\ soc self' = 0.
Proof.
  apply (apply_potential_one_cell test_battery 1 single_cell_world 5).
  reflexivity.
Defined.

(** ** The histories of the metrics *)

Lemma getitem_from_end_last {A : Type} (a : list A) (v : A) :
  getitem_from_end (a ++ [v]) 1 = Return v.
Proof.
  unfold getitem_from_end. rewrite length_app. cbn [length].
  destruct (Nat.leb_spec 1 (length a + 1)) as [_ | Hlt]; [| lia].
  rewrite lookup_app_r by lia.
  replace (length a + 1 - 1 - length a)%nat with 0%nat by lia. reflexivity.
Qed.

Lemma getitem_from_end_before_last {A : Type} (a : list A) (v : A) :
  getitem_from_end (a ++ [v]) 2 = getitem_from_end a 1.
Proof.
  unfold getitem_from_end. rewrite length_app. cbn [length].
  destruct (Nat.leb_spec 2 (length a + 1)) as [Hle | Hlt];
    destruct (Nat.leb_spec 1 (length a)) as [Hle' | Hlt']; try lia; [| reflexivity].
  replace (length a + 1 - 2)%nat with (length a - 1)%nat by lia.
  rewrite lookup_app_l by lia. reflexivity.
Qed.

Lemma getitem_from_end_nonempty {A : Type} (a : list A) :
  a <> [] -> exists v, getitem_from_end a 1 = Return v.
Proof.
  intros Hne. destruct (exists_last Hne) as (a' & v & ->).
  exists v. apply getitem_from_end_last.
Qed.

Lemma get_val_after_update (m : Metric.t) (x_val : Z) (y_val : R) :
  Metric.get_val (Metric.update m x_val y_val) = Return y_val.
Proof. apply getitem_from_end_last. Qed.

Lemma delta_after_update (m : Metric.t) (x_val : Z) (y_val previous : R) :
  Metric.get_val m = Return previous ->
  Metric.delta (Metric.update m x_val y_val) = Return (y_val - previous).
Proof.
  intros Hprev. unfold Metric.delta, Metric.update. cbn [Metric.y].
  rewrite getitem_from_end_last, getitem_from_end_before_last.
  unfold Metric.get_val in Hprev. rewrite Hprev. reflexivity.
Qed.

(** X23.  After [update(x_val, y_val)], [get_val] returns [y_val] and [delta]
    returns [y_val] less what [get_val] returned before; both histories have
    one more sample, the old ones in their places. *)
Theorem metric_update_then_read (m : Metric.t) (x_val : Z) (y_val : R) :
  Metric.get_val (Metric.update m x_val y_val) = Return y_val
  /\ (forall previous, Metric.get_val m = Return previous ->
                       Metric.delta (Metric.update m x_val y_val)
                       = Return (y_val - previous))
  /\ Metric.get_xy_copy (Metric.update m x_val y_val)
     = (Metric.x m ++ [x_val], Metric.y m ++ [y_val]).
Proof.
  split; [apply get_val_after_update |].
  split; [| reflexivity].
  intros previous Hprev. apply delta_after_update. exact Hprev.
Qed.

(** X24.  [delta] raises IndexError exactly on a history of fewer than two samples,
    as is the history of a metric just built. *)
Theorem metric_delta_needs_two_samples (m : Metric.t) :
  (Metric.delta m = Raise IndexError <-> (length (Metric.y m) < 2)%nat)
  /\ forall x0 y0, Metric.delta (Metric.init x0 y0) = Raise IndexError.
Proof.
  split; [| reflexivity].
  unfold Metric.delta, getitem_from_end.
  destruct (Nat.leb_spec 1 (length (Metric.y m))) as [H1 | H1].
  - destruct (lookup_lt_is_Some_2 (Metric.y m) (length (Metric.y m) - 1) ltac:(lia))
      as [v ->].
    destruct (Nat.leb_spec 2 (length (Metric.y m))) as [H2 | H2].
    + destruct (lookup_lt_is_Some_2 (Metric.y m) (length (Metric.y m) - 2) ltac:(lia))
        as [u ->].
      split; [discriminate | lia].
    + split; [intros _; exact H2 | reflexivity].
  - split; [intros _; lia | reflexivity].
Qed.

(** ** One timestep of the tester *)

Lemma get_driver_extends (self : DiffusionBattery) (target : R) (w : World) :
  extends w (snd (get_driver_for_target_current self target w))
  /\ extends w (snd (get_driver_for_target_ocp self target w)).
Proof.
  split.
  - apply (guess_drive_pot_extends 1 1 _ _ (observed_current (cathode_width self))
             _ _ _ (compute_current_observes self) (get_calc_current_observes self)).
  - apply (guess_drive_pot_extends 1 1 _ _ (observed_ocp (cathode_width self))
             _ _ _ (compute_ocp_observes self) (get_calc_ocp_observes self)).
Qed.

Lemma assign_driver_store (self : TesterProgram) (r : outcome R * World) :
  snd (snd (assign_driver self r)) = snd r.
Proof. destruct r as [[d | e] w]; reflexivity. Qed.

(** The program's call only adds arrays to the store. *)
Lemma advance_extends (cfg : Config) (battery : DiffusionBattery) (current : R)
    (d : nat) (inc : bool) (self : TesterProgram) (w : World)
    (r : outcome unit * (TesterProgram * World)) :
  advance cfg d battery current inc (self, w) = Some r -> extends w (snd (snd r)).
Proof.
  intros Hrun.
  destruct (advance_postcondition _ _ _ _ _ _ _ _ Hrun) as (s & Hset & _).
  unfold settled in Hset.
  destruct Hset as [(_ & _ & ->) | [(_ & _ & ->) | [(_ & ->) | [(_ & _ & ->)
                   | [(_ & _ & ->) | (_ & ->)]]]]];
    rewrite ?assign_driver_store; try apply get_driver_extends.
  unfold extends. reflexivity.
Qed.

Ltac tester_fields :=
  cbn [fst snd Tester.battery Tester.program Tester.metrics
         Metrics.with_charge Metrics.with_soc Metrics.with_influx Metrics.with_driver
         Metrics.with_potential Metrics.charge Metrics.soc Metrics.influx
         Metrics.driver Metrics.potential Charge.update Charge.x Charge.y
         charge_curve].

Lemma record_timestep_run (self : Tester.t) (w : World) (a : ndarray) (previous : R) :
  store w !! charge_curve (Tester.battery self) = Some a ->
  (2 <= length (data a))%nat ->
  Metric.get_val (Metrics.soc (Tester.metrics self)) = Return previous ->
  Tester.record_timestep (self, w)
  = (Return (np_sum (spec_update (cathode_width (Tester.battery self))
                       (stored a (driver (Tester.program self))) (data a)) - previous),
     (recorded self w (data a) previous,
      after_update (Tester.battery self) (driver (Tester.program self)) a w)).
Proof.
  intros H Hlen Hprev.
  assert (Hne : data a <> []) by (destruct (data a); [simpl in Hlen; lia | discriminate]).
  set (p := driver (Tester.program self)).
  set (new_curve := spec_update (cathode_width (Tester.battery self)) (stored a p) (data a)).
  assert (Hlen' : length new_curve = length (data a)) by apply length_spec_update.
  destruct (lookup_lt_is_Some_2 new_curve 1 ltac:(lia)) as [v1 Hv1].
  destruct (lookup_lt_is_Some_2 new_curve 0 ltac:(lia)) as [v0 Hv0].
  pose proof (apply_potential_run (Tester.battery self) p w a v1 H Hne Hv1) as Happly.
  fold new_curve in Happly.
  set (w' := after_update (Tester.battery self) p a w) in *.
  assert (Hnew : arrays w' !! S (length (arrays w)) = Some new_curve)
    by apply lookup_after_update_new.
  unfold Tester.record_timestep, recorded.
  rewrite (stored_in_lookup w _ a _ H).
  unfold bind, get_self, Tester.set_metrics, set_self, Tester.on_battery, on_world,
    lift_outcome.
  cbn [fst snd Tester.battery Tester.program Tester.metrics].
  fold p. rewrite Happly. tester_fields.
  rewrite (contents_run _ _ _ Hnew). tester_fields.
  rewrite (delta_after_update _ _ _ _ Hprev). tester_fields.
  rewrite (getitem_run _ _ _ _ _ Hnew Hv0). tester_fields.
  rewrite get_val_after_update.
  fold new_curve.
  rewrite !nth_lookup, Hv0, Hv1. reflexivity.
Qed.

Lemma advance_timestep_run (cfg : Config) (self : Tester.t) (w : World)
    (xs : list R) (previous : R) (k : nat) :
  DISCHARGE_CV cfg < CHARGE_CV cfg ->
  arrays w !! charge_curve (Tester.battery self) = Some xs ->
  (2 <= length xs)%nat ->
  Metric.get_val (Metrics.soc (Tester.metrics self)) = Return previous ->
  let new_curve := spec_update (cathode_width (Tester.battery self))
                     (stored_in w (charge_curve (Tester.battery self))
                        (driver (Tester.program self))) xs in
  let after := recorded self w xs previous in
  exists (o : outcome frame) (program' : TesterProgram) (w' : World),
    Tester.advance_timestep cfg (5 + k) (self, w)
    = Some (o, ({| Tester.battery := Tester.battery after;
                   Tester.program := program';
                   Tester.metrics := Tester.metrics after |}, w'))
    /\ timestep program' = (timestep (Tester.program self) + 1)%Z
    /\ arrays w' !! S (length (arrays w)) = Some new_curve
    /\ forall f : frame,
        o = Return f ->
        f = [(Charge.x (Metrics.charge (Tester.metrics self)), new_curve);
             Metric.get_xy_copy (Metrics.soc (Tester.metrics after));
             Metric.get_xy_copy (Metrics.influx (Tester.metrics after));
             Metric.get_xy_copy (Metrics.driver (Tester.metrics after));
             Metric.get_xy_copy (Metrics.potential (Tester.metrics after))].
Proof.
  intros Hcv H Hlen Hprev new_curve after.
  destruct (lookup_arrays w _ xs H) as (a & Ha & Hdata).
  unfold Tester.advance_timestep.
  rewrite (record_timestep_run self w a previous Ha ltac:(rewrite Hdata; exact Hlen) Hprev).
  rewrite Hdata, <- (stored_in_lookup w _ a _ Ha).
  fold new_curve after.
  set (w1 := after_update (Tester.battery self) (driver (Tester.program self)) a w).
  assert (Hnew : arrays w1 !! S (length (arrays w)) = Some new_curve).
  { unfold w1, new_curve. rewrite (stored_in_lookup w _ a _ Ha), <- Hdata.
    apply lookup_after_update_new. }
  destruct (advance_within_five_calls cfg (Tester.battery after)
              (np_sum new_curve - previous) true (Tester.program after) w1 k Hcv)
    as (r & Hrun & Ht & _).
  rewrite Hrun. pose proof (advance_extends _ _ _ _ _ _ _ _ Hrun) as Hext.
  destruct r as [o [program' w2]]. cbn [fst snd] in Ht, Hext.
  rewrite timestep_entered in Ht.
  pose proof (extends_lookup _ _ _ _ Hext Hnew) as Hnew2.
  destruct o as [[] | e].
  - unfold Tester.get_frame, Charge.get_xy_copy.
    cbn [Tester.metrics Metrics.charge].
    unfold bind at 1. unfold bind at 1.
    replace (Charge.y (Metrics.charge (Tester.metrics after)))
      with (S (length (arrays w))) by reflexivity.
    rewrite (contents_run _ _ _ Hnew2). unfold ret.
    eexists _, program', w2. split; [reflexivity |].
    split; [exact Ht |]. split; [exact Hnew2 |].
    intros f Hf. injection Hf as <-. reflexivity.
  - exists (Raise e), program', w2. split; [reflexivity |].
    split; [exact Ht |]. split; [exact Hnew2 |].
    intros f Hf. discriminate.
Qed.

(** The first timestep of the tester of the test battery returns a frame: the
    program stays in CHARGE_CC and the solver finds a driver. *)
Lemma test_tester_timestep_returns :
  exists (f : frame) (st' : Tester.t * World),
    Tester.advance_timestep config (5 + 0) (test_tester, test_tester_world)
    = Some (Return f, st').
Proof.
  destruct smoothing_kernel_of_width_3_skewed
    as (k0 & k1 & k2 & Hk & H0 & H1 & H2 & Hsum & Hskew).
  set (a := Int64Array [1; 2; 3]%Z).
  assert (Hq : stored a (driver (Tester.program test_tester)) = 0)
    by (exact (f_equal IZR (Rtrunc_IZR 0))).
  assert (Hq' : stored_in test_tester_world (charge_curve (Tester.battery test_tester))
                  (driver (Tester.program test_tester)) = 0)
    by (apply (stored_in_IZR _ _ 0)).
  unfold Tester.advance_timestep.
  rewrite (record_timestep_run test_tester test_tester_world a 0
             eq_refl ltac:(simpl; lia) eq_refl).
  rewrite Hq. change (data a) with [1; 2; 3].
  set (new_curve := spec_update 3 0 [1; 2; 3]).
  assert (Hcurve : new_curve
                   = [0 * k2 + 0 * k1 + 2 * k0; 0 * k2 + 2 * k1 + 3 * k0;
                      2 * k2 + 3 * k1 + 3 * k0])
    by (apply spec_update_width_3; exact Hk).
  set (after := recorded test_tester test_tester_world [1; 2; 3] 0).
  set (w1 := after_update _ _ _ _).
  assert (Hnew : arrays w1 !! charge_curve (Tester.battery after) = Some new_curve).
  { unfold w1, new_curve. rewrite <- Hq. apply lookup_after_update_new. }
  assert (Hocp : ocp (Tester.battery after) = nth 1 new_curve 0).
  { unfold after, recorded. cbn [ocp Tester.battery]. rewrite Hq'. reflexivity. }
  cbn [Nat.add].
  rewrite advance_CHARGE_CC by reflexivity.
  destruct (Rge_dec (ocp (Tester.battery after)) (CHARGE_CV config)) as [Hge | _].
  { exfalso. revert Hge. rewrite Hocp, Hcurve. cbn [nth CHARGE_CV config]. nra. }
  assert (Hp0 : new_curve !! 0%nat = Some (0 * k2 + 0 * k1 + 2 * k0))
    by (rewrite Hcurve; reflexivity).
  destruct (get_driver_for_target_current_run (Tester.battery after) (CHARGE_CC config)
              w1 new_curve _ Hnew Hp0) as (w2 & Hrun & Hext & _).
  rewrite Hrun.
  assert (Hret : exists d,
             solver_outcome (0 * k2 + 0 * k1 + 2 * k0)
               (observed_current (cathode_width (Tester.battery after))
                  (0 * k2 + 0 * k1 + 2 * k0) new_curve)
               (observed_current (cathode_width (Tester.battery after))
                  (0 * k2 + 0 * k1 + 2 * k0 + 1)
                  (<[0%nat := 0 * k2 + 0 * k1 + 2 * k0 + 1]> new_curve))
               (CHARGE_CC config) = Return d).
  { unfold solver_outcome, observed_current.
    cbn [cathode_width Tester.battery after recorded test_tester test_battery
           config CHARGE_CC].
    rewrite Hcurve. cbn [list_insert insert].
    rewrite !(spec_update_width_3 _ _ _ _ k0 k1 k2 Hk). cbn [np_sum fold_right].
    destruct (Req_dec_T _ 15) as [Heq | _]; [exfalso; nra |].
    destruct (Req_dec_T _ 0) as [Hz | _]; [exfalso; nra | eauto]. }
  destruct Hret as [d ->].
  cbn [assign_driver].
  unfold Tester.get_frame, Charge.get_xy_copy.
  unfold bind at 1. unfold bind at 1.
  match goal with
  | |- context [contents ?l w2] => change l with (charge_curve (Tester.battery after))
  end.
  rewrite (contents_run _ _ _ (extends_lookup _ _ _ _ Hext Hnew)).
  eexists _, _. reflexivity.
Qed.

(** X19.  One timestep of the tester on a battery of two cells or more, whatever
    the program's call does then (it returns, or the solver raises): each of
    the four histories has one more sample, stamped with the timestep the
    call was entered with: the driver that was applied, the sum of the new
    curve, its difference with the soc sample of before, and cell 0 of the new
    curve, while the battery's ocp is cell 1; the charge metric refers to the
    battery's own array; the program's timestep is one more; and a frame that
    is returned holds the copies of the five metrics in their order.  The new
    curve is the update at the value that the battery's array holds for the
    driver: the driver itself, or the driver truncated on an int64 array. *)
Theorem advance_timestep_records (cfg : Config) (self : Tester.t) (w : World)
    (xs : list R) (previous : R) (k : nat) :
  DISCHARGE_CV cfg < CHARGE_CV cfg ->
  arrays w !! charge_curve (Tester.battery self) = Some xs ->
  (2 <= length xs)%nat ->
  Metric.get_val (Metrics.soc (Tester.metrics self)) = Return previous ->
  let p := driver (Tester.program self) in
  let t := timestep (Tester.program self) in
  let m := Tester.metrics self in
  let new_curve :=
    spec_update (cathode_width (Tester.battery self))
      (stored_in w (charge_curve (Tester.battery self)) p) xs in
  exists (o : outcome frame) (self' : Tester.t) (w' : World),
    Tester.advance_timestep cfg (5 + k) (self, w) = Some (o, (self', w'))
    /\ Metrics.driver (Tester.metrics self') = Metric.update (Metrics.driver m) t p
    /\ Metrics.soc (Tester.metrics self')
       = Metric.update (Metrics.soc m) t (np_sum new_curve)
    /\ Metrics.influx (Tester.metrics self')
       = Metric.update (Metrics.influx m) t (np_sum new_curve - previous)
    /\ Metrics.potential (Tester.metrics self')
       = Metric.update (Metrics.potential m) t (nth 0 new_curve 0)
    /\ Charge.x (Metrics.charge (Tester.metrics self')) = Charge.x (Metrics.charge m)
    /\ Charge.y (Metrics.charge (Tester.metrics self'))
       = charge_curve (Tester.battery self')
    /\ arrays w' !! charge_curve (Tester.battery self') = Some new_curve
    /\ soc (Tester.battery self') = np_sum new_curve
    /\ ocp (Tester.battery self') = nth 1 new_curve 0
    /\ timestep (Tester.program self') = (t + 1)%Z
    /\ forall f : frame,
        o = Return f ->
        f = [(Charge.x (Metrics.charge m), new_curve);
             Metric.get_xy_copy (Metrics.soc (Tester.metrics self'));
             Metric.get_xy_copy (Metrics.influx (Tester.metrics self'));
             Metric.get_xy_copy (Metrics.driver (Tester.metrics self'));
             Metric.get_xy_copy (Metrics.potential (Tester.metrics self'))].
Proof.
  intros Hcv H Hlen Hprev p t m new_curve.
  destruct (advance_timestep_run cfg self w xs previous k Hcv H Hlen Hprev)
    as (o & program' & w' & Hrun & Ht & Hnew & Hframe).
  eexists o, _, w'. split; [exact Hrun |].
  cbn [Tester.metrics Tester.battery Tester.program recorded Metrics.driver Metrics.soc
         Metrics.influx Metrics.potential Metrics.charge Charge.x Charge.y
         charge_curve soc ocp].
  repeat (split; [first [reflexivity | exact Hnew | exact Ht] |]).
  exact Hframe.
Qed.

Lemma advance_timestep_records_test_tester :
  exists (f : frame) (self' : Tester.t) (w' : World),
    Tester.advance_timestep config (5 + 0) (test_tester, test_tester_world)
    = Some (Return f, (self', w'))
    /\ Metrics.driver (Tester.metrics self') = Metric.update (Metric.init 0 0) 1 0
    /\ Metrics.soc (Tester.metrics self')
       = Metric.update (Metric.init 0 0) 1 (np_sum (spec_update 3 0 [1; 2; 3]))
    /\ soc (Tester.battery self') = np_sum (spec_update 3 0 [1; 2; 3])
    /\ timestep (Tester.program self') = 2%Z
    /\ length f = 5%nat.
Proof.
  destruct (advance_timestep_records config test_tester test_tester_world [1; 2; 3] 0 0)
    as (o & self' & w' & Hrun & Hdriver & Hsoc & _ & _ & _ & _ & _ & Hbattery & _ & Ht
        & Hframe).
  - simpl. lra.
  - reflexivity.
  - simpl. lia.
  - reflexivity.
  - change (driver (Tester.program test_tester)) with (IZR 0) in Hsoc, Hbattery.
    rewrite (stored_in_IZR test_tester_world _ 0) in Hsoc, Hbattery.
    destruct test_tester_timestep_returns as (f & st' & Hret).
    rewrite Hrun in Hret. injection Hret as Ho _. subst o.
    exists f, self', w'.
    split; [exact Hrun |]. split; [exact Hdriver |]. split; [exact Hsoc |].
    split; [exact Hbattery |]. split; [exact Ht |].
    rewrite (Hframe f eq_refl). reflexivity.
Defined.

(** A timestep keeps the tester ready and the histories aligned with the
    program's clock. *)
Lemma advance_timestep_step (cfg : Config) (k : nat) (st : Tester.t * World) :
  DISCHARGE_CV cfg < CHARGE_CV cfg ->
  ready st -> aligned (fst st) ->
  exists (o : outcome frame) (st' : Tester.t * World),
    Tester.advance_timestep cfg (5 + k) st = Some (o, st')
    /\ ready st' /\ aligned (fst st')
    /\ timestep (Tester.program (fst st'))
       = (timestep (Tester.program (fst st)) + 1)%Z
    /\ forall f : frame, o = Return f -> length f = 5%nat.
Proof.
  intros Hcv [(xs & H & Hlen) (previous & Hprev)] Hal. destruct st as [self w].
  cbn [fst snd] in *.
  destruct (advance_timestep_run cfg self w xs previous k Hcv H Hlen Hprev)
    as (o & program' & w' & Hrun & Ht & Hnew & Hframe).
  eexists o, _. split; [exact Hrun |].
  split.
  { split; cbn [fst snd Tester.battery Tester.metrics recorded charge_curve Metrics.soc].
    - eexists. split; [exact Hnew |]. rewrite length_spec_update. exact Hlen.
    - eexists. apply get_val_after_update. }
  split.
  { unfold aligned in *.
    cbn [fst snd Tester.metrics Tester.program recorded Metrics.soc Metrics.influx
           Metrics.driver Metrics.potential Metric.update Metric.x Metric.y].
    rewrite !length_app. cbn [length]. rewrite Ht. lia. }
  split; [exact Ht |].
  intros f Hf. rewrite (Hframe f Hf). reflexivity.
Qed.

(** X20.  The histories stay aligned with the program's clock.  A tester whose four
    histories are as long as its program's timestep shows, on a battery of
    two cells or more, runs [generate_frames] to an end, normal or by the
    solver's exception, and in both cases the histories are again as long as
    the timestep shows; when all [num_timesteps] frames are produced, the
    timestep has advanced by [num_timesteps] and every frame holds five
    curves. *)
Theorem generate_frames_keeps_histories_aligned (cfg : Config) (k : nat)
    (num_timesteps : nat) (st : Tester.t * World) :
  DISCHARGE_CV cfg < CHARGE_CV cfg ->
  ready st -> aligned (fst st) ->
  exists r : outcome (list frame) * (Tester.t * World),
    Tester.generate_frames cfg (5 + k) num_timesteps st = Some r
    /\ ready (snd r) /\ aligned (fst (snd r))
    /\ forall fs : list frame,
        fst r = Return fs ->
        length fs = num_timesteps
        /\ Forall (fun f => length f = 5%nat) fs
        /\ timestep (Tester.program (fst (snd r)))
           = (timestep (Tester.program (fst st)) + Z.of_nat num_timesteps)%Z.
Proof.
  intros Hcv. revert st.
  induction num_timesteps as [| n IH]; intros st Hready Hal.
  - eexists. split; [reflexivity |]. cbn [fst snd].
    split; [exact Hready |]. split; [exact Hal |].
    intros fs Hfs. injection Hfs as <-. split; [reflexivity |].
    split; [constructor | lia].
  - destruct (advance_timestep_step cfg k st Hcv Hready Hal)
      as (o & st' & Hrun & Hready' & Hal' & Ht & Hfive).
    cbn [Tester.generate_frames]. rewrite Hrun.
    destruct o as [f | e].
    + destruct (IH st' Hready' Hal') as (r & Hrest & Hready'' & Hal'' & Hfs).
      rewrite Hrest. destruct r as [[fs | e] st''].
      * eexists. split; [reflexivity |]. cbn [fst snd] in *.
        split; [exact Hready'' |]. split; [exact Hal'' |].
        intros fs' Hfs'. injection Hfs' as <-.
        destruct (Hfs fs eq_refl) as (Hlen & Hall & Ht').
        split; [simpl; lia |].
        split; [constructor; [apply Hfive; reflexivity | exact Hall] | lia].
      * eexists. split; [reflexivity |]. cbn [fst snd] in *.
        split; [exact Hready'' |]. split; [exact Hal'' |].
        intros fs' Hfs'. discriminate.
    + eexists. split; [reflexivity |]. cbn [fst snd].
      split; [exact Hready' |]. split; [exact Hal' |].
      intros fs' Hfs'. discriminate.
Qed.

Lemma generate_frames_keeps_histories_aligned_test_tester :
  exists r : outcome (list frame) * (Tester.t * World),
    Tester.generate_frames config (5 + 0) 3 (test_tester, test_tester_world) = Some r
    /\ ready (snd r) /\ aligned (fst (snd r))
    /\ forall fs : list frame,
        fst r = Return fs ->
        length fs = 3%nat
        /\ Forall (fun f => length f = 5%nat) fs
        /\ timestep (Tester.program (fst (snd r))) = (1 + 3)%Z.
Proof.
  apply (generate_frames_keeps_histories_aligned config 0 3 (test_tester, test_tester_world)).
  - simpl. lra.
  - split.
    + exists [1; 2; 3]. split; [reflexivity | simpl; lia].
    + exists 0. reflexivity.
  - unfold aligned. simpl. repeat split; reflexivity.
Defined.

(** ** The construction of the tester *)

(** X21.  [Tester.__init__] on a new program and a battery of two cells or more:
    the charge metric holds a copy of the battery's curve, in another array,
    and the tester is ready for a timestep with its histories aligned. *)
Theorem tester_init_ready (cfg : Config) (battery : DiffusionBattery) (w : World)
    (xs : list R) :
  arrays w !! charge_curve battery = Some xs ->
  (2 <= length xs)%nat ->
  exists (self : Tester.t) (w' : World),
    Tester.init battery (new_program cfg) w = (Return self, w')
    /\ Charge.y (Metrics.charge (Tester.metrics self)) <> charge_curve battery
    /\ arrays w' !! Charge.y (Metrics.charge (Tester.metrics self)) = Some xs
    /\ ready (self, w') /\ aligned self.
Proof.
  intros H Hlen. destruct (lookup_arrays w _ xs H) as (a & Ha & Hdata).
  unfold Tester.init, Charge.init.
  unfold bind at 1. unfold bind at 1. rewrite (np_copy_run _ _ _ Ha). unfold ret.
  eexists _, _. split; [reflexivity |].
  cbn [Tester.metrics Metrics.charge Charge.y].
  split.
  { apply lookup_lt_Some in H. lia. }
  split; [rewrite <- Hdata; apply lookup_store, lookup_alloc_fresh |].
  split.
  - split; cbn [fst snd Tester.battery Tester.metrics Metrics.soc].
    + exists xs. split; [| exact Hlen].
      apply (extends_lookup w); [apply extends_alloc | exact H].
    + exists 0. reflexivity.
  - unfold aligned. simpl. repeat split; reflexivity.
Qed.

Lemma tester_init_ready_test_battery :
  exists (self : Tester.t) (w' : World),
    Tester.init test_battery (new_program config) test_world = (Return self, w')
    /\ Charge.y (Metrics.charge (Tester.metrics self)) <> charge_curve test_battery
    /\ arrays w' !! Charge.y (Metrics.charge (Tester.metrics self)) = Some [1; 2; 3]
    /\ ready (self, w') /\ aligned self.
Proof.
  apply (tester_init_ready config test_battery test_world [1; 2; 3]).
  - reflexivity.
  - simpl. lia.
Defined.

(** ** A timestep on a curve that is too short *)

Lemma apply_potential_empty_run (self : DiffusionBattery) (p : R) (w : World)
    (a : ndarray) :
  store w !! charge_curve self = Some a -> data a = [] ->
  apply_potential p (self, w)
  = (Raise IndexError, (self, {| store := store w ++ [a]; evals := S (evals w) |})).
Proof.
  intros H Hdata. unfold apply_potential.
  unfold bind at 1. unfold get_self at 1. cbn [fst snd].
  unfold bind at 1. unfold on_world at 1. cbn [fst snd].
  rewrite (compute_charge_curve_empty_run self p _ w a H Hdata). reflexivity.
Qed.

(** X22.  On a battery whose curve has fewer than two cells a timestep raises
    IndexError out of [apply_potential], after the driver was recorded: the
    driver history is left one sample longer, the three other histories and
    the program are as before the call, so that the histories are no longer
    in step for a caller that goes on. *)
Theorem advance_timestep_short_curve (cfg : Config) (depth : nat) (self : Tester.t)
    (w : World) (xs : list R) :
  arrays w !! charge_curve (Tester.battery self) = Some xs ->
  (length xs < 2)%nat ->
  exists (self' : Tester.t) (w' : World),
    Tester.advance_timestep cfg depth (self, w) = Some (Raise IndexError, (self', w'))
    /\ Tester.program self' = Tester.program self
    /\ Metrics.driver (Tester.metrics self')
       = Metric.update (Metrics.driver (Tester.metrics self))
           (timestep (Tester.program self)) (driver (Tester.program self))
    /\ Metrics.soc (Tester.metrics self') = Metrics.soc (Tester.metrics self)
    /\ Metrics.influx (Tester.metrics self') = Metrics.influx (Tester.metrics self)
    /\ Metrics.potential (Tester.metrics self') = Metrics.potential (Tester.metrics self)
    /\ Metrics.charge (Tester.metrics self') = Metrics.charge (Tester.metrics self).
Proof.
  intros H Hlen.
  assert (Hraise : exists b' w',
             apply_potential (driver (Tester.program self)) (Tester.battery self, w)
             = (Raise IndexError, (b', w'))).
  { destruct (lookup_arrays w _ xs H) as (a & Ha & Hdata).
    destruct xs as [| x [| y xs]]; [| | simpl in Hlen; lia].
    - eexists _, _. apply (apply_potential_empty_run _ _ _ a Ha Hdata).
    - eexists _, _. apply (apply_potential_single_cell _ _ _ a Ha).
      rewrite Hdata. reflexivity. }
  destruct Hraise as (b' & w' & Hraise).
  unfold Tester.advance_timestep, Tester.record_timestep.
  unfold bind, get_self, Tester.set_metrics, set_self, Tester.on_battery.
  tester_fields. rewrite Hraise.
  eexists _, _. split; [reflexivity |].
  tester_fields. repeat split; reflexivity.
Qed.

Lemma advance_timestep_short_curve_one_cell :
  exists (self' : Tester.t) (w' : World),
    Tester.advance_timestep config 5 (test_tester, single_cell_world)
    = Some (Raise IndexError, (self', w'))
    /\ Tester.program self' = new_program config
    /\ Metrics.driver (Tester.metrics self') = Metric.update (Metric.init 0 0) 1 0
    /\ Metrics.soc (Tester.metrics self') = Metric.init 0 0
    /\ Metrics.influx (Tester.metrics self') = Metric.init 0 0
    /\ Metrics.potential (Tester.metrics self') = Metric.init 0 0
    /\ Metrics.charge (Tester.metrics self') = Metrics.charge (Tester.metrics test_tester).
Proof.
  apply (advance_timestep_short_curve config 5 test_tester single_cell_world [5]).
  - reflexivity.
  - simpl. lia.
Defined.
